(** * Ingestor: a shallow embedding of the streaming ingestion core

    The Go sources embedded here are
    - [internal/service/flatfile.go]   (type inference, flat-file reader/writer),
    - the ClickHouse service            (query builders, previews, batched insert),
    - the ingest service                (the two transfer pipelines),
    - [cmd/server/main.go]              (the handler that owns the progress channel),
    - the model package                 ([ProgressUpdate.ToJSON]).

    Go strings are byte sequences; they are modelled by [string] (a list of
    8-bit [ascii]).  Go maps are [gmap]s; the unspecified iteration order of
    [range] over a map is an explicit parameter. *)

From Stdlib Require Import ZArith Ascii DecimalString.
From stdpp Require Import gmap strings list fin_maps.

Local Open Scope Z_scope.
Local Open Scope nat_scope.

(* ===================================================================== *)
(** * Part I: the embedding                                               *)
(* ===================================================================== *)

(** ** Go's [strconv], as far as the service calls it

    [strconv] is the Go standard library, outside the repository; the
    three parsers below follow its documented behaviour. *)
Module Strconv.

Definition code (c : ascii) : Z := Z.of_N (N_of_ascii c).

Definition is_digit (c : ascii) : bool := (48 <=? code c)%Z && (code c <=? 57)%Z.

(** [c | ('x' - 'X')] *)
Definition lower (c : ascii) : Z := Z.lor (code c) 32.

Definition is_hex_letter (c : ascii) : bool := (97 <=? lower c)%Z && (lower c <=? 102)%Z.

(** The digit loop of [ParseUint(s, 10, 64)]; with an explicit base 10 an
    underscore is a syntax error like any other non-digit. *)
Fixpoint parse_digits (s : string) (acc : Z) : option Z :=
  match s with
  | EmptyString => Some acc
  | String c s' =>
      if is_digit c then parse_digits s' (acc * 10 + (code c - 48))%Z else None
  end.

Definition ParseUint (s : string) : option Z :=
  match s with
  | EmptyString => None
  | _ => n ← parse_digits s 0%Z; if (n <? 2 ^ 64)%Z then Some n else None
  end.

(** [ParseInt(s, 10, 64)]: [None] stands for a non-nil error (syntax or
    range). *)
Definition ParseInt (s : string) : option Z :=
  match s with
  | EmptyString => None
  | String c s' =>
      let '(neg, s0) :=
        if Ascii.eqb c "+" then (false, s')
        else if Ascii.eqb c "-" then (true, s')
        else (false, s) in
      un ← ParseUint s0;
      if negb neg && (2 ^ 63 <=? un)%Z then None
      else if neg && (2 ^ 63 <? un)%Z then None
      else Some (if neg then (- un)%Z else un)
  end.

Definition ParseBool (s : string) : option bool :=
  if bool_decide (s ∈ ["1"; "t"; "T"; "TRUE"; "true"; "True"]) then Some true
  else if bool_decide (s ∈ ["0"; "f"; "F"; "FALSE"; "false"; "False"]) then Some false
  else None.

(** A parsed [float64].  [FNum neg hex m e] stands for the binary64 value
    nearest to [m * 10^e] ([m * 2^e] when [hex]), negated when [neg]; the
    model keeps the literal and does not carry out the rounding. *)
Inductive float64 :=
  | FInf (neg : bool)
  | FNaN
  | FNum (neg hex : bool) (m e : Z).

Fixpoint commonPrefixLenIgnoreCase (s prefix : string) : nat :=
  match s, prefix with
  | String c s', String p prefix' =>
      let c' := if (65 <=? code c)%Z && (code c <=? 90)%Z then (code c + 32)%Z else code c in
      if (c' =? code p)%Z then S (commonPrefixLenIgnoreCase s' prefix') else 0
  | _, _ => 0
  end.

(** [special]: the value and the number of bytes consumed. *)
Definition special (s : string) : option (float64 * nat) :=
  let inf (neg : bool) (nsign : nat) (s : string) :=
    let n := commonPrefixLenIgnoreCase s "infinity" in
    let n := if (3 <? n) && (n <? 8) then 3 else n in
    if (n =? 3) || (n =? 8) then Some (FInf neg, nsign + n) else None in
  match s with
  | EmptyString => None
  | String c s' =>
      if Ascii.eqb c "+" then inf false 1 s'
      else if Ascii.eqb c "-" then inf true 1 s'
      else if Ascii.eqb c "i" || Ascii.eqb c "I" then inf false 0 s
      else if Ascii.eqb c "n" || Ascii.eqb c "N" then
        if commonPrefixLenIgnoreCase s "nan" =? 3 then Some (FNaN, 3) else None
      else None
  end.

(** State of the mantissa loop of [readFloat].  [mant] is the integer
    spelled by all significant digits (Go keeps the first 19, or 16 in
    hexadecimal, and a [trunc] flag for the rest; the conversions that
    follow round correctly from both). *)
Record mant_state := MantState {
  underscores : bool;
  sawdot : bool;
  sawdigits : bool;
  nd : Z;
  dp : Z;
  mant : Z;
}.

Fixpoint mant_loop (hex : bool) (s : string) (st : mant_state) : mant_state * string :=
  match s with
  | EmptyString => (st, s)
  | String c s' =>
      if Ascii.eqb c "_" then
        mant_loop hex s' (MantState true (sawdot st) (sawdigits st) (nd st) (dp st) (mant st))
      else if Ascii.eqb c "." then
        if sawdot st then (st, s)
        else mant_loop hex s' (MantState (underscores st) true (sawdigits st) (nd st) (nd st) (mant st))
      else if is_digit c then
        if Ascii.eqb c "0" && (nd st =? 0)%Z then
          mant_loop hex s' (MantState (underscores st) (sawdot st) true (nd st) (dp st - 1) (mant st))
        else
          mant_loop hex s'
            (MantState (underscores st) (sawdot st) true (nd st + 1) (dp st)
               (mant st * (if hex then 16 else 10) + (code c - 48)))
      else if hex && is_hex_letter c then
        mant_loop hex s'
          (MantState (underscores st) (sawdot st) true (nd st + 1) (dp st)
             (mant st * 16 + (lower c - 97 + 10)))
      else (st, s)
  end%Z.

(** The exponent digits: [if e < 10000 { e = e*10 + digit }]. *)
Fixpoint exp_loop (s : string) (e : Z) (us : bool) : Z * bool * string :=
  match s with
  | EmptyString => (e, us, s)
  | String c s' =>
      if Ascii.eqb c "_" then exp_loop s' e true
      else if is_digit c then
        exp_loop s' (if (e <? 10000)%Z then (e * 10 + (code c - 48))%Z else e) us
      else (e, us, s)
  end.

(** [underscoreOK]; [saw] is the last character class seen. *)
Inductive saw_class := SawStart | SawDigit | SawUnderscore | SawOther.

Fixpoint underscore_loop (hex : bool) (s : string) (saw : saw_class) : bool :=
  match s with
  | EmptyString => match saw with SawUnderscore => false | _ => true end
  | String c s' =>
      if is_digit c || (hex && is_hex_letter c) then underscore_loop hex s' SawDigit
      else if Ascii.eqb c "_" then
        match saw with
        | SawDigit => underscore_loop hex s' SawUnderscore
        | _ => false
        end
      else
        match saw with
        | SawUnderscore => false
        | _ => underscore_loop hex s' SawOther
        end
  end.

Definition underscoreOK (s : string) : bool :=
  let s :=
    match s with
    | String c s' => if Ascii.eqb c "-" || Ascii.eqb c "+" then s' else s
    | _ => s
    end in
  match s with
  | String c0 (String c1 s') =>
      if Ascii.eqb c0 "0" && ((lower c1 =? 98) || (lower c1 =? 111) || (lower c1 =? 120))%Z
      then underscore_loop (lower c1 =? 120)%Z s' SawDigit
      else underscore_loop false s SawStart
  | _ => underscore_loop false s SawStart
  end.

(** [readFloat]: sign, hexadecimal flag, mantissa, exponent of the base,
    and the unread rest of [s]; [None] when [ok] is false. *)
Definition readFloat (s : string) : option (bool * bool * Z * Z * string) :=
  match s with
  | EmptyString => None
  | String c s' =>
      let '(neg, s1) :=
        if Ascii.eqb c "+" then (false, s')
        else if Ascii.eqb c "-" then (true, s')
        else (false, s) in
      let '(hex, s2) :=
        match s1 with
        | String c0 (String c1 ((String _ _) as s3)) =>
            if Ascii.eqb c0 "0" && (lower c1 =? 120)%Z then (true, s3) else (false, s1)
        | _ => (false, s1)
        end in
      let '(st, s3) := mant_loop hex s2 (MantState false false false 0 0 0) in
      if negb (sawdigits st) then None
      else
        let dp0 := if sawdot st then dp st else nd st in
        let dp1 := if hex then (dp0 * 4)%Z else dp0 in
        let ndm := if hex then (nd st * 4)%Z else nd st in
        let finish (dp2 : Z) (us : bool) (rest : string) :=
          let consumed := String.substring 0 (String.length s - String.length rest) s in
          if us && negb (underscoreOK consumed) then None
          else Some (neg, hex, mant st, if (mant st =? 0)%Z then 0%Z else (dp2 - ndm)%Z, rest) in
        match s3 with
        | String ce s4 =>
            if (lower ce =? (if hex then 112 else 101))%Z then
              match s4 with
              | EmptyString => None
              | String cs s5 =>
                  let '(esign, s6) :=
                    if Ascii.eqb cs "+" then (1%Z, s5)
                    else if Ascii.eqb cs "-" then ((-1)%Z, s5)
                    else (1%Z, s4) in
                  match s6 with
                  | String cd _ =>
                      if is_digit cd then
                        let '(e, us, rest) := exp_loop s6 0%Z (underscores st) in
                        finish (dp1 + e * esign)%Z us rest
                      else None
                  | EmptyString => None
                  end
              end
            else if hex then None
            else finish dp1 (underscores st) s3
        | EmptyString => if hex then None else finish dp1 (underscores st) s3
        end
  end.

(** A literal overflows binary64 when it rounds to [2^1024] or more, that
    is, when it reaches the midpoint [2^1024 - 2^970] above the largest
    finite value. *)
Definition overflows (hex : bool) (m e : Z) : bool :=
  let b := if hex then 2%Z else 10%Z in
  let t := (2 ^ 1024 - 2 ^ 970)%Z in
  if (0 <=? e)%Z then (t <=? m * b ^ e)%Z else (t * b ^ (- e) <=? m)%Z.

(** [ParseFloat(s, 64)]: [None] stands for a non-nil error.  The whole of
    [s] must be consumed; an overflow is a range error. *)
Definition ParseFloat (s : string) : option float64 :=
  match special s with
  | Some (f, n) => if n =? String.length s then Some f else None
  | None =>
      match readFloat s with
      | Some (neg, hex, m, e, EmptyString) =>
          if overflows hex m e then None else Some (FNum neg hex m e)
      | _ => None
      end
  end.

End Strconv.

(** ** Go's [time.Parse], for the layouts the service uses

    Also standard library.  A layout is cut into chunks by Go's
    [nextStdChunk]; the table below lists the outcome for the seven layouts
    of [dateFormats], the only ones the program passes. *)
Module GoTime.
Import Strconv.

Inductive std :=
  | stdLongYear         (* 2006 *)
  | stdZeroMonth        (* 01 *)
  | stdZeroDay          (* 02 *)
  | stdHour             (* 15 *)
  | stdZeroMinute       (* 04 *)
  | stdZeroSecond       (* 05 *)
  | stdISO8601ColonTZ.  (* Z07:00 *)

Definition RFC3339 : string := "2006-01-02T15:04:05Z07:00".

(** The [(prefix, std)] pairs [nextStdChunk] yields, in order; each of the
    seven layouts ends with an empty literal tail. *)
Definition chunks_of (layout : string) : option (list (string * std)) :=
  let date sep := [("", stdLongYear); (sep, stdZeroMonth); (sep, stdZeroDay)] in
  let mdy sep := [("", stdZeroMonth); (sep, stdZeroDay); (sep, stdLongYear)] in
  let clock sep := [(sep, stdHour); (":", stdZeroMinute); (":", stdZeroSecond)] in
  if bool_decide (layout = "2006-01-02") then Some (date "-")
  else if bool_decide (layout = "2006/01/02") then Some (date "/")
  else if bool_decide (layout = "01/02/2006") then Some (mdy "/")
  else if bool_decide (layout = "01-02-2006") then Some (mdy "-")
  else if bool_decide (layout = "2006-01-02 15:04:05") then Some (date "-" ++ clock " ")
  else if bool_decide (layout = "2006/01/02 15:04:05") then Some (date "/" ++ clock " ")
  else if bool_decide (layout = RFC3339)
       then Some (date "-" ++ clock "T" ++ [("", stdISO8601ColonTZ)])
  else None.

(** The fields [Parse] collects; [zoneOffset] is [None] when the value
    names no zone (the result is then in UTC). *)
Record Time := MkTime {
  year : Z; month : Z; day : Z;
  hour : Z; min : Z; sec : Z; nsec : Z;
  zoneOffset : option Z;
}.

(** [time.Time{}] *)
Definition zero : Time := MkTime 1 1 1 0 0 0 0 None.

Definition digit (c : ascii) : Z := (code c - 48)%Z.

(** [getnum(s, fixed)]: one or two digits, exactly two when [fixed]. *)
Definition getnum (s : string) (fixed : bool) : option (Z * string) :=
  match s with
  | String c0 s1 =>
      if is_digit c0 then
        match s1 with
        | String c1 s2 =>
            if is_digit c1 then Some (digit c0 * 10 + digit c1, s2)%Z
            else if fixed then None else Some (digit c0, s1)
        | EmptyString => if fixed then None else Some (digit c0, s1)
        end
      else None
  | EmptyString => None
  end.

Fixpoint cutspace (s : string) : string :=
  match s with
  | String c s' => if Ascii.eqb c " " then cutspace s' else s
  | EmptyString => s
  end.

(** [skip(value, prefix)]: a run of spaces in the prefix matches any run
    of spaces in the value.  Every turn of the loop shortens [prefix], so
    [fuel] above its length is never used up. *)
Fixpoint skip_loop (fuel : nat) (value prefix : string) : option string :=
  match fuel with
  | O => None
  | S fuel =>
      match prefix with
      | EmptyString => Some value
      | String p prefix' =>
          if Ascii.eqb p " " then
            match value with
            | String v _ =>
                if negb (Ascii.eqb v " ") then None
                else skip_loop fuel (cutspace value) (cutspace prefix)
            | EmptyString => skip_loop fuel (cutspace value) (cutspace prefix)
            end
          else
            match value with
            | String v value' =>
                if Ascii.eqb v p then skip_loop fuel value' prefix' else None
            | EmptyString => None
            end
      end
  end.

Definition skip (value prefix : string) : option string :=
  skip_loop (S (String.length prefix)) value prefix.

Fixpoint take_digits (s : string) : string * string :=
  match s with
  | String c s' =>
      if is_digit c then let '(d, r) := take_digits s' in (String c d, r) else (EmptyString, s)
  | EmptyString => (EmptyString, s)
  end.

(** [parseNanoseconds]: at most nine digits count, scaled to nanoseconds. *)
Definition nanoseconds (digits : string) : Z :=
  let d := String.substring 0 9 digits in
  (default 0 (parse_digits d 0) * 10 ^ Z.of_nat (9 - String.length d))%Z.

Definition isLeap (y : Z) : bool :=
  ((y mod 4 =? 0) && (negb (y mod 100 =? 0) || (y mod 400 =? 0)))%Z.

Definition daysIn (m y : Z) : Z :=
  if (m =? 2)%Z && isLeap y then 29%Z
  else nth (Z.to_nat (m - 1)) [31; 28; 31; 30; 31; 30; 31; 31; 30; 31; 30; 31]%Z 0%Z.

(** One case of the [switch std] in [Parse]; a range error fails like a
    syntax error. *)
Definition parse_std (s : std) (t : Time) (value : string) : option (Time * string) :=
  match s with
  | stdLongYear =>
      match value with
      | String c0 (String c1 (String c2 (String c3 rest))) =>
          if is_digit c0 && is_digit c1 && is_digit c2 && is_digit c3 then
            let y := (digit c0 * 1000 + digit c1 * 100 + digit c2 * 10 + digit c3)%Z in
            Some (MkTime y (month t) (day t) (hour t) (min t) (sec t) (nsec t) (zoneOffset t), rest)
          else None
      | _ => None
      end
  | stdZeroMonth =>
      '(m, rest) ← getnum value true;
      if (m <=? 0)%Z || (12 <? m)%Z then None
      else Some (MkTime (year t) m (day t) (hour t) (min t) (sec t) (nsec t) (zoneOffset t), rest)
  | stdZeroDay =>
      '(d, rest) ← getnum value true;
      Some (MkTime (year t) (month t) d (hour t) (min t) (sec t) (nsec t) (zoneOffset t), rest)
  | stdHour =>
      '(h, rest) ← getnum value false;
      if (24 <=? h)%Z then None
      else Some (MkTime (year t) (month t) (day t) h (min t) (sec t) (nsec t) (zoneOffset t), rest)
  | stdZeroMinute =>
      '(m, rest) ← getnum value true;
      if (60 <=? m)%Z then None
      else Some (MkTime (year t) (month t) (day t) (hour t) m (sec t) (nsec t) (zoneOffset t), rest)
  | stdZeroSecond =>
      '(sc, rest) ← getnum value true;
      if (60 <=? sc)%Z then None
      else
        (* a fractional second is accepted although the layout has none *)
        match rest with
        | String c0 ((String c1 _) as frac) =>
            if (Ascii.eqb c0 "." || Ascii.eqb c0 ",") && is_digit c1 then
              let '(ds, rest') := take_digits frac in
              Some (MkTime (year t) (month t) (day t) (hour t) (min t) sc (nanoseconds ds)
                      (zoneOffset t), rest')
            else Some (MkTime (year t) (month t) (day t) (hour t) (min t) sc (nsec t) (zoneOffset t), rest)
        | _ => Some (MkTime (year t) (month t) (day t) (hour t) (min t) sc (nsec t) (zoneOffset t), rest)
        end
  | stdISO8601ColonTZ =>
      match value with
      | String c rest =>
          if Ascii.eqb c "Z" then
            Some (MkTime (year t) (month t) (day t) (hour t) (min t) (sec t) (nsec t) (Some 0%Z), rest)
          else
            match value with
            | String sg (String h0 (String h1 (String colon (String m0 (String m1 rest'))))) =>
                if negb (Ascii.eqb colon ":") then None
                else
                  '(hr, _) ← getnum (String h0 (String h1 EmptyString)) true;
                  '(mm, _) ← getnum (String m0 (String m1 EmptyString)) true;
                  if (24 <? hr)%Z || (60 <? mm)%Z then None
                  else
                    let off := ((hr * 60 + mm) * 60)%Z in
                    if Ascii.eqb sg "+" then
                      Some (MkTime (year t) (month t) (day t) (hour t) (min t) (sec t) (nsec t)
                              (Some off), rest')
                    else if Ascii.eqb sg "-" then
                      Some (MkTime (year t) (month t) (day t) (hour t) (min t) (sec t) (nsec t)
                              (Some (- off)%Z), rest')
                    else None
            | _ => None
            end
      | EmptyString => None
      end
  end.

(** The parse loop, then the two closing checks: no text is left over and
    the day exists in its month. *)
Fixpoint parse_chunks (chunks : list (string * std)) (t : Time) (value : string) : option Time :=
  match chunks with
  | [] =>
      match value with
      | EmptyString =>
          if (day t <? 1)%Z || (daysIn (month t) (year t) <? day t)%Z then None else Some t
      | _ => None
      end
  | (prefix, s) :: chunks' =>
      value ← skip value prefix;
      '(t, value) ← parse_std s t value;
      parse_chunks chunks' t value
  end.

(** [time.Parse(layout, value)]; [None] stands for a non-nil error. *)
Definition Parse (layout value : string) : option Time :=
  chunks ← chunks_of layout;
  parse_chunks chunks (MkTime 0 (-1) (-1) 0 0 0 0 None) value.

End GoTime.

(** ** Go's [unicode/utf8] and [unicode.IsSpace] *)
Module Utf8.
Import Strconv.

(** A [rune] is a code point. *)
Definition RuneError : Z := 65533.
Definition MaxRune : Z := 1114111.

Definition between (lo x hi : Z) : bool := ((lo <=? x) && (x <=? hi))%Z.

(** A continuation byte, [0x80..0xBF]. *)
Definition cont (c : ascii) : bool := between 128 (code c) 191.

Definition low6 (c : ascii) : Z := Z.land (code c) 63.

(** [utf8.DecodeRuneInString]: the rune and its width in bytes.  A byte
    that starts no well-formed encoding decodes to [RuneError] with
    width 1; the empty string to [RuneError] with width 0. *)
Definition DecodeRuneInString (s : string) : Z * nat :=
  match s with
  | EmptyString => (RuneError, 0)
  | String p0 s1 =>
      let x := code p0 in
      if (x <? 128)%Z then (x, 1)
      else if between 194 x 223 then
        match s1 with
        | String b1 _ =>
            if cont b1 then (Z.lor (Z.shiftl (Z.land x 31) 6) (low6 b1), 2)
            else (RuneError, 1)
        | _ => (RuneError, 1)
        end
      else if between 224 x 239 then
        let '(lo, hi) :=
          if (x =? 224)%Z then (160, 191)%Z else if (x =? 237)%Z then (128, 159)%Z else (128, 191)%Z in
        match s1 with
        | String b1 (String b2 _) =>
            if between lo (code b1) hi && cont b2 then
              (Z.lor (Z.shiftl (Z.land x 15) 12) (Z.lor (Z.shiftl (low6 b1) 6) (low6 b2)), 3)
            else (RuneError, 1)
        | _ => (RuneError, 1)
        end
      else if between 240 x 244 then
        let '(lo, hi) :=
          if (x =? 240)%Z then (144, 191)%Z else if (x =? 244)%Z then (128, 143)%Z else (128, 191)%Z in
        match s1 with
        | String b1 (String b2 (String b3 _)) =>
            if between lo (code b1) hi && cont b2 && cont b3 then
              (Z.lor (Z.shiftl (Z.land x 7) 18)
                 (Z.lor (Z.shiftl (low6 b1) 12) (Z.lor (Z.shiftl (low6 b2) 6) (low6 b3))), 4)
            else (RuneError, 1)
        | _ => (RuneError, 1)
        end
      else (RuneError, 1)
  end.

Definition byte_of (z : Z) : ascii := ascii_of_N (Z.to_N z).

(** [utf8.ValidRune] *)
Definition ValidRune (r : Z) : bool := between 0 r 55295 || between 57344 r MaxRune.

(** [utf8.AppendRune]: the encoding of [r]; an invalid rune is written
    as [RuneError]. *)
Definition EncodeRune (r : Z) : string :=
  let three (r : Z) :=
    String (byte_of (Z.lor 224 (Z.shiftr r 12)))
      (String (byte_of (Z.lor 128 (Z.land (Z.shiftr r 6) 63)))
         (String (byte_of (Z.lor 128 (Z.land r 63))) EmptyString)) in
  if between 0 r 127 then String (byte_of r) EmptyString
  else if between 128 r 2047 then
    String (byte_of (Z.lor 192 (Z.shiftr r 6)))
      (String (byte_of (Z.lor 128 (Z.land r 63))) EmptyString)
  else if negb (ValidRune r) then three RuneError
  else if (r <=? 65535)%Z then three r
  else
    String (byte_of (Z.lor 240 (Z.shiftr r 18)))
      (String (byte_of (Z.lor 128 (Z.land (Z.shiftr r 12) 63)))
         (String (byte_of (Z.lor 128 (Z.land (Z.shiftr r 6) 63)))
            (String (byte_of (Z.lor 128 (Z.land r 63))) EmptyString))).

(** [unicode.IsSpace]: the Latin-1 cases, then the [White_Space] table. *)
Definition IsSpace (r : Z) : bool :=
  bool_decide (r ∈ [9; 10; 11; 12; 13; 32; 133; 160; 5760; 8232; 8233; 8239; 8287; 12288]%Z)
  || between 8192 r 8202.

Fixpoint str_drop (n : nat) (s : string) : string :=
  match n, s with
  | S n', String _ s' => str_drop n' s'
  | _, _ => s
  end.

Fixpoint str_take (n : nat) (s : string) : string :=
  match n, s with
  | S n', String c s' => String c (str_take n' s')
  | _, _ => EmptyString
  end.

(** The conversion [[]rune(s)], rune by rune. *)
Fixpoint runes_loop (fuel : nat) (s : string) : list Z :=
  match fuel, s with
  | S fuel', String _ _ =>
      let '(r, n) := DecodeRuneInString s in r :: runes_loop fuel' (str_drop n s)
  | _, _ => []
  end.

Definition runes (s : string) : list Z := runes_loop (String.length s) s.

End Utf8.

(** ** Go's [encoding/csv]

    Standard library as well.  The reader is configured as the service
    does: [LazyQuotes] and [TrimLeadingSpace] set, no comment character,
    [FieldsPerRecord] zero at first (the first record fixes the count).
    The writer keeps [UseCRLF] unset.  Reads and writes of the underlying
    file succeed. *)
Module Csv.
Import Strconv Utf8.

Definition LF : ascii := ascii_of_nat 10.
Definition CR : ascii := ascii_of_nat 13.
Definition QUOTE : ascii := ascii_of_nat 34.

Definition validDelim (r : Z) : bool :=
  (negb (r =? 0) && negb (r =? 34) && negb (r =? 13) && negb (r =? 10))%Z
  && ValidRune r && negb (r =? RuneError)%Z.

Fixpoint strip_prefix (pat s : string) : option string :=
  match pat, s with
  | EmptyString, _ => Some s
  | String p pat', String c s' => if Ascii.eqb p c then strip_prefix pat' s' else None
  | String _ _, EmptyString => None
  end.

(** The first occurrence of [pat] in [s]: the text before it and the text
    after it ([i := Index(s, pat)], then [s[:i]] and [s[i+len(pat):]]). *)
Fixpoint cut (pat s : string) : option (string * string) :=
  match strip_prefix pat s with
  | Some after => Some (EmptyString, after)
  | None =>
      match s with
      | EmptyString => None
      | String c s' => '(before, after) ← cut pat s'; Some (String c before, after)
      end
  end.

Fixpoint any_byte (p : ascii → bool) (s : string) : bool :=
  match s with
  | EmptyString => false
  | String c s' => p c || any_byte p s'
  end.

(** *** Writer *)

Definition fieldNeedsQuotes (comma : Z) (field : string) : bool :=
  if bool_decide (field = "") then false
  else if bool_decide (field = "\.") then true
  else if
    (if (comma <? 128)%Z then
       any_byte (λ c, Ascii.eqb c LF || Ascii.eqb c CR || Ascii.eqb c QUOTE
                      || Ascii.eqb c (byte_of comma)) field
     else
       bool_decide (is_Some (cut (EncodeRune comma) field))
       || any_byte (λ c, Ascii.eqb c QUOTE || Ascii.eqb c CR || Ascii.eqb c LF) field)
  then true
  else IsSpace (DecodeRuneInString field).1.

(** Inside quotes a quote is doubled; carriage return and line feed are
    written as they are. *)
Fixpoint quote_body (field : string) : string :=
  match field with
  | EmptyString => EmptyString
  | String c field' =>
      if Ascii.eqb c QUOTE then String QUOTE (String QUOTE (quote_body field'))
      else String c (quote_body field')
  end.

Definition write_field (comma : Z) (field : string) : string :=
  if fieldNeedsQuotes comma field
  then String QUOTE (quote_body field +:+ String QUOTE EmptyString)
  else field.

Fixpoint write_fields (comma : Z) (n : nat) (record : list string) : string :=
  match record with
  | [] => EmptyString
  | field :: record' =>
      (if 0 <? n then EncodeRune comma else EmptyString)
      +:+ write_field comma field +:+ write_fields comma (S n) record'
  end.

(** [Writer.Write]: the bytes appended to the file, [None] for
    [errInvalidDelim]. *)
Definition Write (comma : Z) (record : list string) : option string :=
  if negb (validDelim comma) then None
  else Some (write_fields comma 0 record +:+ String LF EmptyString).

(** *** Reader *)

(** [readLine]: the next line with its line feed; a carriage return
    before the line feed, or before the end of the input, is dropped. *)
Fixpoint readLine_loop (s : string) : string * string :=
  match s with
  | EmptyString => (EmptyString, EmptyString)
  | String c s' =>
      if Ascii.eqb c LF then (String LF EmptyString, s')
      else if Ascii.eqb c CR then
        match s' with
        | EmptyString => (EmptyString, EmptyString)
        | String c' s'' =>
            if Ascii.eqb c' LF then (String LF EmptyString, s'')
            else let '(line, rest) := readLine_loop s' in (String c line, rest)
        end
      else let '(line, rest) := readLine_loop s' in (String c line, rest)
  end.

(** [None] is [io.EOF]. *)
Definition readLine (s : string) : option (string * string) :=
  match s with
  | EmptyString => None
  | _ => Some (readLine_loop s)
  end.

Fixpoint ends_with_LF (s : string) : bool :=
  match s with
  | EmptyString => false
  | String c EmptyString => Ascii.eqb c LF
  | String _ s' => ends_with_LF s'
  end.

Definition lengthNL (s : string) : nat := if ends_with_LF s then 1 else 0.

(** [i := bytes.IndexFunc(line, not IsSpace); line = line[i:]], the whole
    line when it holds nothing but space. *)
Fixpoint trim_loop (fuel : nat) (line : string) : string :=
  match fuel, line with
  | S fuel', String _ _ =>
      let '(r, n) := DecodeRuneInString line in
      if IsSpace r then trim_loop fuel' (str_drop n line) else line
  | _, _ => line
  end.

Definition trimLeadingSpace (line : string) : string :=
  trim_loop (String.length line) line.

Inductive mode :=
  | AtField
  | InQuotes (buf : string).

(** The [parseField] loop of [readRecord].  [line] is the unread part of
    the current line, [rest] the input after it.  Every turn consumes a
    byte of [line] or a line of [rest], so [fuel] above their joint length
    is never used up. *)
Fixpoint parse_fields (fuel : nat) (comma : Z) (m : mode) (line rest : string)
    (fields : list string) : list string * string :=
  match fuel with
  | O => (fields, rest)
  | S fuel =>
      match m with
      | AtField =>
          let line := trimLeadingSpace line in
          let unquoted :=
            match cut (EncodeRune comma) line with
            | Some (field, line') =>
                parse_fields fuel comma AtField line' rest (fields ++ [field])
            | None =>
                (fields ++ [str_take (String.length line - lengthNL line) line], rest)
            end in
          match line with
          | String c line' =>
              if Ascii.eqb c QUOTE
              then parse_fields fuel comma (InQuotes EmptyString) line' rest fields
              else unquoted
          | EmptyString => unquoted
          end
      | InQuotes buf =>
          match cut (String QUOTE EmptyString) line with
          | Some (pre, line') =>
              let rn := (DecodeRuneInString line').1 in
              if (rn =? 34)%Z then
                parse_fields fuel comma (InQuotes (buf +:+ pre +:+ String QUOTE EmptyString))
                  (str_drop 1 line') rest fields
              else if (rn =? comma)%Z then
                parse_fields fuel comma AtField
                  (str_drop (String.length (EncodeRune comma)) line') rest
                  (fields ++ [buf +:+ pre])
              else if lengthNL line' =? String.length line' then
                (fields ++ [buf +:+ pre], rest)
              else
                parse_fields fuel comma (InQuotes (buf +:+ pre +:+ String QUOTE EmptyString))
                  line' rest fields
          | None =>
              match line with
              | String _ _ =>
                  match readLine rest with
                  | Some (line', rest') =>
                      parse_fields fuel comma (InQuotes (buf +:+ line)) line' rest' fields
                  | None => (fields ++ [buf +:+ line], EmptyString)
                  end
              | EmptyString => (fields ++ [buf], rest)
              end
          end
      end
  end.

(** [readRecord]: empty lines are skipped; [None] is [io.EOF]. *)
Fixpoint readRecord (fuel : nat) (comma : Z) (input : string) : option (list string * string) :=
  match fuel with
  | O => None
  | S fuel =>
      match readLine input with
      | None => None
      | Some (line, rest) =>
          if String.length line =? lengthNL line then readRecord fuel comma rest
          else
            Some (parse_fields (S (String.length line + String.length rest)) comma
                    AtField line rest [])
      end
  end.

Record Reader := MkReader {
  Comma : Z;
  input : string;
  FieldsPerRecord : nat;
}.

Definition NewReader (content : string) (comma : Z) : Reader := MkReader comma content 0.

Inductive read_result :=
  | EOF
  | Fields (record : list string)
  | ErrFieldCount (record : list string)
  | ErrInvalidDelim.

(** [Reader.Read] *)
Definition Read (r : Reader) : read_result * Reader :=
  if negb (validDelim (Comma r)) then (ErrInvalidDelim, r)
  else
    match readRecord (S (String.length (input r))) (Comma r) (input r) with
    | None => (EOF, MkReader (Comma r) EmptyString (FieldsPerRecord r))
    | Some (record, rest) =>
        if FieldsPerRecord r =? 0 then
          (Fields record, MkReader (Comma r) rest (length record))
        else if length record =? FieldsPerRecord r then
          (Fields record, MkReader (Comma r) rest (FieldsPerRecord r))
        else (ErrFieldCount record, MkReader (Comma r) rest (FieldsPerRecord r))
    end.

End Csv.

(** ** The model package *)

(** [model.Column] *)
(** [Type] is a reserved word here: the field is [Type_]. *)
Record Column := MkColumn { Name : string; Type_ : string }.

(** [config.Config], the two batch settings.  A negative [BatchSize]
    makes [make([][]interface{}, 0, BatchSize)] panic; the model takes a
    natural number. *)
Record Config := MkConfig {
  BatchSize : nat;
  ProgressReportSize : Z;
}.

(** [model.ProgressUpdate] *)
Record ProgressUpdate := MkProgress {
  Status : string;
  Message : string;
  Count : Z;
  Completed : bool;
}.

(** A Go result [(T, error)]: either the value with a nil error, or the
    error message. *)
Inductive result (A : Type) :=
  | Ok (a : A)
  | Err (msg : string).
Arguments Ok {A} a.
Arguments Err {A} msg.

(** ** flatfile.go *)
Module FlatFile.

(** The dynamic values [convertValue] puts into an [interface{}].  The
    literal [0] returned on a failed integer parse is an [int], not the
    [int64] of the successful branch. *)
Inductive value :=
  | VNil
  | VInt64 (i : Z)
  | VInt (i : Z)
  | VFloat64 (f : Strconv.float64)
  | VBool (b : bool)
  | VTime (t : GoTime.Time)
  | VString (s : string).

Definition dateFormats : list string :=
  [ "2006-01-02"; "2006/01/02"; "01/02/2006"; "01-02-2006";
    "2006-01-02 15:04:05"; "2006/01/02 15:04:05"; GoTime.RFC3339 ].

(** [for _, format := range dateFormats { if t, err := time.Parse(format, value); err == nil { return ... } }] *)
Fixpoint first_format (formats : list string) (v : string) : option GoTime.Time :=
  match formats with
  | [] => None
  | format :: formats' =>
      match GoTime.Parse format v with
      | Some t => Some t
      | None => first_format formats' v
      end
  end.

(** [inferType], lines 126-161. *)
Definition inferType (v : string) : string :=
  if bool_decide (v = "") then "Nullable(String)"
  else
    match Strconv.ParseInt v with
    | Some _ => "Int64"
    | None =>
        match Strconv.ParseFloat v with
        | Some _ => "Float64"
        | None =>
            match first_format dateFormats v with
            | Some _ => "DateTime"
            | None => "String"
            end
        end
    end.

Definition HasPrefix (s prefix : string) : bool :=
  bool_decide (String.substring 0 (String.length prefix) s = prefix).

Definition HasSuffix (s suffix : string) : bool :=
  (String.length suffix <=? String.length s)
  && bool_decide
       (String.substring (String.length s - String.length suffix) (String.length suffix) s = suffix).

(** [convertValue], lines 498-549.  The recursion on [Nullable(T)] strips
    ten bytes from [dataType] each time; [fuel] bounds it. *)
Fixpoint convertValue_rec (fuel : nat) (v dataType : string) : value :=
  let base :=
    if bool_decide (dataType ∈ ["Int8"; "Int16"; "Int32"; "Int64";
                                "UInt8"; "UInt16"; "UInt32"; "UInt64"]) then
      match Strconv.ParseInt v with Some i => VInt64 i | None => VInt 0 end
    else if bool_decide (dataType ∈ ["Float32"; "Float64"]) then
      match Strconv.ParseFloat v with
      | Some f => VFloat64 f
      | None => VFloat64 (Strconv.FNum false false 0 0)
      end
    else if bool_decide (dataType = "Bool") then
      match Strconv.ParseBool v with Some b => VBool b | None => VBool false end
    else if bool_decide (dataType ∈ ["Date"; "DateTime"]) then
      match first_format dateFormats v with Some t => VTime t | None => VTime GoTime.zero end
    else VString v in
  if HasPrefix dataType "Nullable(" && HasSuffix dataType ")" then
    if bool_decide (v = "") then VNil
    else
      match fuel with
      | S fuel' =>
          convertValue_rec fuel' v
            (String.substring 9 (String.length dataType - 1 - 9) dataType)
      | O => base
      end
  else base.

Definition convertValue (v dataType : string) : value :=
  convertValue_rec (String.length dataType) v dataType.

(** [counts := make(map[string]int); for _, t := range types { counts[t]++ }].
    A missing key reads as the zero value. *)
Definition map_get (counts : gmap string nat) (t : string) : nat :=
  default 0 (counts !! t).

Definition count_types (types : list string) : gmap string nat :=
  foldl (λ counts t, <[t := S (map_get counts t)]> counts) ∅ types.

(** [for t, count := range counts { if count > maxCount { ... } }].
    Go leaves the order in which [range] visits a map unspecified: the loop
    is run over [order], any permutation of the map's entries. *)
Definition range_order (counts : gmap string nat) (order : list (string * nat)) : Prop :=
  order ≡ₚ map_to_list counts.

Definition most_common (order : list (string * nat)) : nat * string :=
  foldl (λ '(maxCount, dominantType) '(t, count),
           if maxCount <? count then (count, t) else (maxCount, dominantType))
        (0, "String") order.

(** [getDominantType], lines 164-196. *)
Definition getDominantType (order : list (string * nat)) (types : list string) : string :=
  if length types =? 0 then "String"
  else
    let counts := count_types types in
    let dominantType := (most_common order).2 in
    if (0 <? map_get counts "Int64") && (0 <? map_get counts "Float64")
    then "Float64"
    else if (0 <? map_get counts "Nullable(String)")
            && negb (bool_decide (dominantType = "String"))
    then "Nullable(" +:+ dominantType +:+ ")"
    else dominantType.

(** The delimiter block each of the four operations opens with:
    [var delim rune = ','; if delimiter != "" { delims := []rune(delimiter);
    if len(delims) > 0 { delim = delims[0] } }]. *)
Definition delim_of (delimiter : string) : Z :=
  if bool_decide (delimiter ≠ "") then
    match Utf8.runes delimiter with
    | r :: _ => r
    | [] => 44%Z
    end
  else 44%Z.

(** The files on disk, by path; [os.Open] fails on a path that is not
    there. *)
Definition os_Open (fs : gmap string string) (filePath : string) : result string :=
  match fs !! filePath with
  | Some content => Ok content
  | None => Err ("open " +:+ filePath +:+ ": no such file or directory")
  end.

Definition read_error (res : Csv.read_result) : string :=
  match res with
  | Csv.EOF => "EOF"
  | Csv.ErrInvalidDelim => "csv: invalid field or comment delimiter"
  | _ => "wrong number of fields"
  end.

(** The sampling loop of [DiscoverSchema]: [n] turns are left; a turn
    whose row is skipped is spent all the same. *)
Fixpoint sample_rows (n : nat) (reader : Csv.Reader) (ncols : nat)
    (types : list (list string)) : list (list string) :=
  match n with
  | O => types
  | S n' =>
      match Csv.Read reader with
      | (Csv.EOF, _) => types
      | (Csv.Fields record, reader') =>
          if negb (length record =? ncols) then sample_rows n' reader' ncols types
          else
            sample_rows n' reader' ncols
              (zip_with (λ colTypes v, colTypes ++ [inferType v]) types record)
      | (_, reader') => sample_rows n' reader' ncols types
      end
  end.

(** [DiscoverSchema], lines 43-123.  [order i] is the order in which the
    map of column [i] is ranged over.  The context stays live. *)
Definition DiscoverSchema (order : nat → list (string * nat)) (fs : gmap string string)
    (filePath delimiter : string) : result (list Column) :=
  match os_Open fs filePath with
  | Err e => Err ("failed to open file: " +:+ e)
  | Ok file =>
      let reader := Csv.NewReader file (delim_of delimiter) in
      match Csv.Read reader with
      | (Csv.Fields header, reader) =>
          let sampleSize := 100 in
          let types := sample_rows sampleSize reader (length header)
                         (replicate (length header) []) in
          Ok (imap (λ i name, MkColumn name (getDominantType (order i) (types !!! i))) header)
      | (res, _) => Err ("failed to read header: " +:+ read_error res)
      end
  end.

(** [colNameToIndex[name] = i], in header order: a repeated name keeps
    its last position. *)
Definition index_columns (header : list string) : gmap string nat :=
  foldl (λ m '(i, name), <[name := i]> m) ∅ (imap (λ i name, (i, name)) header).

(** The row loop of [PreviewData]; a limit below zero makes [make] panic,
    so [limit] is a natural number. *)
Fixpoint preview_rows (limit : nat) (reader : Csv.Reader) (ncols : nat)
    (colNameToIndex : gmap string nat) (selectedColumns : list Column)
    : list (gmap string value) :=
  match limit with
  | O => []
  | S limit' =>
      match Csv.Read reader with
      | (Csv.EOF, _) => []
      | (Csv.Fields record, reader') =>
          if negb (length record =? ncols)
          then preview_rows limit' reader' ncols colNameToIndex selectedColumns
          else
            let row :=
              foldl (λ row col,
                       match colNameToIndex !! Name col with
                       | Some idx =>
                           match record !! idx with
                           | Some v => <[Name col := convertValue v (Type_ col)]> row
                           | None => row
                           end
                       | None => row
                       end) ∅ selectedColumns in
            row :: preview_rows limit' reader' ncols colNameToIndex selectedColumns
      | (_, reader') => preview_rows limit' reader' ncols colNameToIndex selectedColumns
      end
  end.

(** [PreviewData], lines 199-293. *)
Definition PreviewData (fs : gmap string string) (filePath delimiter : string)
    (columns : list Column) (limit : nat) : result (list (gmap string value)) :=
  match os_Open fs filePath with
  | Err e => Err ("failed to open file: " +:+ e)
  | Ok file =>
      let reader := Csv.NewReader file (delim_of delimiter) in
      match Csv.Read reader with
      | (Csv.Fields header, reader) =>
          let selectedColumns :=
            if length columns =? 0 then (λ name, MkColumn name "String") <$> header
            else columns in
          Ok (preview_rows limit reader (length header) (index_columns header) selectedColumns)
      | (res, _) => Err ("failed to read header: " +:+ read_error res)
      end
  end.

(** The goroutine of [ReadData]: the rows it sends, in order, until
    [io.EOF].  Each [Read] consumes input, so [fuel] above the length of
    the file is never used up. *)
Fixpoint read_rows (fuel : nat) (reader : Csv.Reader) (ncols : nat)
    (colNameToIndex : gmap string nat) (columns : list Column) : list (list value) :=
  match fuel with
  | O => []
  | S fuel' =>
      match Csv.Read reader with
      | (Csv.EOF, _) => []
      | (Csv.Fields record, reader') =>
          if negb (length record =? ncols)
          then read_rows fuel' reader' ncols colNameToIndex columns
          else
            ((λ col,
                match colNameToIndex !! Name col with
                | Some idx =>
                    match record !! idx with
                    | Some v => convertValue v (Type_ col)
                    | None => VNil
                    end
                | None => VNil
                end) <$> columns)
            :: read_rows fuel' reader' ncols colNameToIndex columns
      | (_, reader') => read_rows fuel' reader' ncols colNameToIndex columns
      end
  end.

(** [ReadData], lines 296-387: the error of the synchronous part, or the
    sequence of rows the channel carries when the context stays live and
    the consumer drains it. *)
Definition ReadData (fs : gmap string string) (filePath delimiter : string)
    (columns : list Column) : result (list (list value)) :=
  match os_Open fs filePath with
  | Err e => Err ("failed to open file: " +:+ e)
  | Ok file =>
      let reader := Csv.NewReader file (delim_of delimiter) in
      match Csv.Read reader with
      | (Csv.Fields header, reader) =>
          Ok (read_rows (S (String.length file)) reader (length header)
                (index_columns header) columns)
      | (res, _) => Err ("failed to read header: " +:+ read_error res)
      end
  end.

(** [%d] of a Go [int]. *)
Definition itoa (n : Z) : string := NilZero.string_of_int (Z.to_int n).

Section writer.
(** The values the store hands over are of any dynamic type: [V], with
    [Sprintf_v] standing for [fmt.Sprintf("%v", value)]. *)
Context {V : Type} (Sprintf_v : V → string).

Definition record_of (columns : list Column) (row : gmap string V) : list string :=
  (λ col, match row !! Name col with
          | Some v => Sprintf_v v
          | None => ""
          end) <$> columns.

Record write_state := MkWriteState {
  w_out : string;
  w_totalRows : Z;
  w_lastReportedCount : Z;
  w_events : list ProgressUpdate;
}.

(** [for row := range data { ... }], lines 436-486. *)
Fixpoint write_rows (delim : Z) (columns : list Column) (progressReportSize : Z)
    (data : list (gmap string V)) (st : write_state) : write_state * option string :=
  match data with
  | [] => (st, None)
  | row :: data' =>
      match Csv.Write delim (record_of columns row) with
      | None => (st, Some "failed to write record: csv: invalid field or comment delimiter")
      | Some bytes =>
          let totalRows := (w_totalRows st + 1)%Z in
          let report := (progressReportSize <=? totalRows - w_lastReportedCount st)%Z in
          write_rows delim columns progressReportSize data'
            (MkWriteState (w_out st +:+ bytes) totalRows
               (if report then totalRows else w_lastReportedCount st)
               (if report
                then w_events st ++
                     [MkProgress "processing" ("Written " +:+ itoa totalRows +:+ " rows")
                        totalRows false]
                else w_events st))
      end
  end.

(** What became of [os.MkdirAll] and [os.Create]. *)
Inductive create_outcome := Created | MkdirFailed (e : string) | CreateFailed (e : string).

Record write_result := MkWriteResult {
  wr_fs : gmap string string;
  wr_events : list ProgressUpdate;
  wr_count : Z;
  wr_err : option string;
}.

(** [WriteData], lines 390-495; [data] is what the channel delivers
    until it is closed. *)
Definition WriteData (create : create_outcome) (fs : gmap string string)
    (filePath delimiter : string) (columns : list Column) (progressReportSize : Z)
    (data : list (gmap string V)) : write_result :=
  match create with
  | MkdirFailed e => MkWriteResult fs [] 0 (Some ("failed to create directory: " +:+ e))
  | CreateFailed e => MkWriteResult fs [] 0 (Some ("failed to create file: " +:+ e))
  | Created =>
      let delim := delim_of delimiter in
      match Csv.Write delim (Name <$> columns) with
      | None =>
          MkWriteResult (<[filePath := ""]> fs) [] 0
            (Some "failed to write header: csv: invalid field or comment delimiter")
      | Some header =>
          let '(st, err) :=
            write_rows delim columns progressReportSize data (MkWriteState header 0 0 []) in
          MkWriteResult (<[filePath := w_out st]> fs) (w_events st) (w_totalRows st) err
      end
  end.
End writer.

End FlatFile.

(** ** The ClickHouse service: query builders *)

(** [model.JoinTableInfo] *)
Module JoinTableInfo.
Record t := Mk {
  Name : string;
  JoinType : string;
  JoinCondition : string;
  SelectedColumns : list string;
}.
End JoinTableInfo.

(** [model.JoinParams] *)
Record JoinParams := MkJoinParams {
  Tables : list JoinTableInfo.t;
  WhereClause : string;
}.

(** [strings.Join(elems, sep)] *)
Fixpoint Join (elems : list string) (sep : string) : string :=
  match elems with
  | [] => ""
  | [a] => a
  | a :: elems' => a +:+ sep +:+ Join elems' sep
  end.

Module ClickHouse.

(** The nested loop that fills [allColumns] by [append]. *)
Definition selected_columns (tables : list JoinTableInfo.t) : list string :=
  foldl (λ allColumns table,
           foldl (λ allColumns col, allColumns ++ [JoinTableInfo.Name table +:+ "." +:+ col])
                 allColumns (JoinTableInfo.SelectedColumns table))
        [] tables.

(** [for i := 1; i < len(params.Tables); i++ { ... }]: the loop returns
    on the first table without a join condition. *)
Fixpoint add_joins (joinTables : list JoinTableInfo.t) (query : string) : result string :=
  match joinTables with
  | [] => Ok query
  | joinTable :: rest =>
      let joinType :=
        if bool_decide (JoinTableInfo.JoinType joinTable ≠ "") then JoinTableInfo.JoinType joinTable else "INNER JOIN" in
      if bool_decide (JoinTableInfo.JoinCondition joinTable = "") then
        Err ("join condition is required for table " +:+ JoinTableInfo.Name joinTable)
      else
        add_joins rest
          (query +:+ " " +:+ joinType +:+ " " +:+ JoinTableInfo.Name joinTable
                 +:+ " ON " +:+ JoinTableInfo.JoinCondition joinTable)
  end.

(** [BuildJoinQuery], lines 207-253. *)
Definition BuildJoinQuery (params : JoinParams) : result string :=
  if length (Tables params) <? 2 then Err "at least two tables are required for a join"
  else
    match Tables params with
    | [] => Err "at least two tables are required for a join"
    | mainTable :: joinTables =>
        let allColumns := selected_columns (Tables params) in
        if length allColumns =? 0 then Err "no columns selected"
        else
          let query := "SELECT " +:+ Join allColumns ", " +:+ " FROM " +:+ JoinTableInfo.Name mainTable in
          match add_joins joinTables query with
          | Err msg => Err msg
          | Ok query =>
              if bool_decide (WhereClause params ≠ "") then
                Ok (query +:+ " WHERE " +:+ WhereClause params)
              else Ok query
          end
    end.

Section store.
(** [V]: the dynamic values a query of the store yields. *)
Context {V : Type}.

(** One turn of [rows.Next(); rows.Scan(...)]. *)
Inductive scan_outcome :=
  | ScanOk (rowValues : list V)
  | ScanErr (e : string).

(** [conn.Query(ctx, query)] and the iteration that follows: the query
    fails, or yields column names, rows, and the final [rows.Err()]. *)
Inductive query_outcome :=
  | QueryFailed (e : string)
  | QueryRows (columnNames : list string) (rows : list scan_outcome) (rowsErr : option string).

(** The open connection [driver.Conn].  [AsyncInsert stored query batch]
    answers a submission made when the batches [stored] are already in
    the table: [None] accepts the batch, [Some e] rejects it. *)
Record Conn := MkConn {
  Query : string → query_outcome;
  Exec : string → option string;
  AsyncInsert : list (list (list FlatFile.value)) → string → list (list FlatFile.value)
                → option string;
}.

(** [CreateTable], lines 366-390. *)
Definition CreateTable (conn : option Conn) (tableName : string) (columns : list Column)
    : option string :=
  match conn with
  | None => Some "not connected to ClickHouse"
  | Some c =>
      let columnDefs := (λ col, Name col +:+ " " +:+ Type_ col) <$> columns in
      let query :=
        "CREATE TABLE IF NOT EXISTS " +:+ tableName +:+ " (" +:+ Join columnDefs ", "
          +:+ ") ENGINE = MergeTree() ORDER BY tuple()" in
      match Exec c query with
      | Some e => Some ("failed to create table: " +:+ e)
      | None => None
      end
  end.

Record insert_state := MkInsertState {
  i_stored : list (list (list FlatFile.value));
  i_batch : list (list FlatFile.value);
  i_totalRows : Z;
  i_lastReportedCount : Z;
  i_events : list ProgressUpdate;
}.

(** [for rowData := range data { ... }], lines 423-451. *)
Fixpoint insert_rows (c : Conn) (cfg : Config) (query : string)
    (data : list (list FlatFile.value)) (st : insert_state) : insert_state * option string :=
  match data with
  | [] => (st, None)
  | rowData :: data' =>
      let batch := i_batch st ++ [rowData] in
      if BatchSize cfg <=? length batch then
        match AsyncInsert c (i_stored st) query batch with
        | Some e =>
            (MkInsertState (i_stored st) batch (i_totalRows st) (i_lastReportedCount st)
               (i_events st),
             Some ("failed to insert batch: " +:+ e))
        | None =>
            let totalRows := (i_totalRows st + Z.of_nat (length batch))%Z in
            let report := (ProgressReportSize cfg <=? totalRows - i_lastReportedCount st)%Z in
            insert_rows c cfg query data'
              (MkInsertState (i_stored st ++ [batch]) [] totalRows
                 (if report then totalRows else i_lastReportedCount st)
                 (if report
                  then i_events st ++
                       [MkProgress "processing" ("Inserted " +:+ FlatFile.itoa totalRows +:+ " rows")
                          totalRows false]
                  else i_events st))
        end
      else
        insert_rows c cfg query data'
          (MkInsertState (i_stored st) batch (i_totalRows st) (i_lastReportedCount st)
             (i_events st))
  end.

Record insert_result := MkInsertResult {
  ir_stored : list (list (list FlatFile.value));
  ir_events : list ProgressUpdate;
  ir_count : Z;
  ir_err : option string;
}.

(** [InsertData], lines 393-462; [data] is what the channel delivers
    until it is closed.  The context stays live. *)
Definition InsertData (conn : option Conn) (cfg : Config) (tableName : string)
    (columns : list Column) (data : list (list FlatFile.value)) : insert_result :=
  match conn with
  | None => MkInsertResult [] [] 0 (Some "not connected to ClickHouse")
  | Some c =>
      let query :=
        "INSERT INTO " +:+ tableName +:+ " (" +:+ Join (Name <$> columns) ", " +:+ ") VALUES" in
      match insert_rows c cfg query data (MkInsertState [] [] 0 0 []) with
      | (st, Some e) => MkInsertResult (i_stored st) (i_events st) (i_totalRows st) (Some e)
      | (st, None) =>
          if 0 <? length (i_batch st) then
            match AsyncInsert c (i_stored st) query (i_batch st) with
            | Some e =>
                MkInsertResult (i_stored st) (i_events st) (i_totalRows st)
                  (Some ("failed to insert final batch: " +:+ e))
            | None =>
                MkInsertResult (i_stored st ++ [i_batch st]) (i_events st)
                  (i_totalRows st + Z.of_nat (length (i_batch st)))%Z None
            end
          else MkInsertResult (i_stored st) (i_events st) (i_totalRows st) None
      end
  end.
End store.
Arguments Conn : clear implicits.
Arguments query_outcome : clear implicits.
Arguments scan_outcome : clear implicits.

Section reads.
Context {V : Type}.

(** [rowMap := make(map[string]interface{}); for i, colName := range
    columnNames { rowMap[colName] = rowValues[i] }] *)
Definition row_map (columnNames : list string) (rowValues : list V) : gmap string V :=
  foldl (λ m '(colName, v), <[colName := v]> m) ∅ (zip columnNames rowValues).

(** [for rows.Next() { ... }] of [PreviewData] (lines 177-197) and of
    [ExecuteJoinPreview] (lines 278-298), the same text in both: the
    first row whose scan fails ends the loop and the function. *)
Fixpoint preview_rows (columnNames : list string) (rows : list (scan_outcome V))
    (acc : list (gmap string V)) : result (list (gmap string V)) :=
  match rows with
  | [] => Ok acc
  | ScanErr e :: _ => Err ("failed to scan row: " +:+ e)
  | ScanOk rowValues :: rows' =>
      preview_rows columnNames rows' (acc ++ [row_map columnNames rowValues])
  end.

(** [PreviewData], lines 149-204.  A limit below zero makes [make]
    panic, so [limit] is a natural number. *)
Definition PreviewData (conn : option (Conn V)) (tableName : string) (columns : list string)
    (limit : nat) : result (list (gmap string V)) :=
  match conn with
  | None => Err "not connected to ClickHouse"
  | Some c =>
      let columnStr := if 0 <? length columns then Join columns ", " else "*" in
      let query :=
        "SELECT " +:+ columnStr +:+ " FROM " +:+ tableName +:+ " LIMIT "
          +:+ FlatFile.itoa (Z.of_nat limit) in
      match Query c query with
      | QueryFailed e => Err ("failed to execute query: " +:+ e)
      | QueryRows columnNames rows rowsErr =>
          match preview_rows columnNames rows [] with
          | Err e => Err e
          | Ok data =>
              match rowsErr with
              | Some e => Err ("error iterating rows: " +:+ e)
              | None => Ok data
              end
          end
      end
  end.

(** [ExecuteJoinPreview], lines 256-305. *)
Definition ExecuteJoinPreview (conn : option (Conn V)) (query : string) (limit : nat)
    : result (list (gmap string V)) :=
  match conn with
  | None => Err "not connected to ClickHouse"
  | Some c =>
      let query := query +:+ (" LIMIT " +:+ FlatFile.itoa (Z.of_nat limit)) in
      match Query c query with
      | QueryFailed e => Err ("failed to execute query: " +:+ e)
      | QueryRows columnNames rows rowsErr =>
          match preview_rows columnNames rows [] with
          | Err e => Err e
          | Ok data =>
              match rowsErr with
              | Some e => Err ("error iterating rows: " +:+ e)
              | None => Ok data
              end
          end
      end
  end.

Record query_result := MkQueryResult {
  q_events : list ProgressUpdate;
  q_count : Z;
  q_err : option string;
  q_panic : bool;
}.

(** [for rows.Next() { ... }] of [ExecuteQuery], lines 328-360.
    [totalRows%progressReportSize] panics on a zero divisor. *)
Fixpoint count_rows (progressReportSize : Z) (rows : list (scan_outcome V)) (rowsErr : option string)
    (totalRows : Z) (events : list ProgressUpdate) : query_result :=
  match rows with
  | [] =>
      match rowsErr with
      | Some e => MkQueryResult events totalRows (Some ("error iterating rows: " +:+ e)) false
      | None => MkQueryResult events totalRows None false
      end
  | ScanErr e :: _ => MkQueryResult events totalRows (Some ("failed to scan row: " +:+ e)) false
  | ScanOk _ :: rows' =>
      let totalRows := (totalRows + 1)%Z in
      if (progressReportSize =? 0)%Z then MkQueryResult events totalRows None true
      else
        count_rows progressReportSize rows' rowsErr totalRows
          (if (Z.rem totalRows progressReportSize =? 0)%Z
           then events ++
                [MkProgress "processing" ("Processed " +:+ FlatFile.itoa totalRows +:+ " rows")
                   totalRows false]
           else events)
  end.

(** [ExecuteQuery], lines 308-363.  The context stays live. *)
Definition ExecuteQuery (conn : option (Conn V)) (cfg : Config) (query : string) : query_result :=
  match conn with
  | None => MkQueryResult [] 0 (Some "not connected to ClickHouse") false
  | Some c =>
      match Query c query with
      | QueryFailed e => MkQueryResult [] 0 (Some ("failed to execute query: " +:+ e)) false
      | QueryRows columnNames rows rowsErr =>
          count_rows (ProgressReportSize cfg) rows rowsErr 0 []
      end
  end.
End reads.

End ClickHouse.

(** ** The ingest service *)
Module Ingest.
Import ClickHouse.

(** [model.FlatFileParams] *)
Record FlatFileParams := MkFlatFileParams { FilePath : string; Delimiter : string }.

Section transfers_def.
Context {V : Type} (Sprintf_v : V → string).

Record fetch_result := MkFetch {
  f_events : list ProgressUpdate;
  f_sent : list (gmap string V);
  f_panic : bool;
}.

(** [for rows.Next() { ... }], lines 104-153: the rows put on [dataCh]
    and the progress events sent.  [totalRows%progressReportSize] panics
    on a zero divisor. *)
Fixpoint fetch_rows (columnNames : list string) (progressReportSize : Z)
    (rows : list (scan_outcome V)) (totalRows : Z) (acc : fetch_result) : fetch_result * Z :=
  match rows with
  | [] => (acc, totalRows)
  | ScanErr _ :: rows' => fetch_rows columnNames progressReportSize rows' totalRows acc
  | ScanOk rowValues :: rows' =>
      let rowMap :=
        foldl (λ m '(colName, v), <[colName := v]> m) ∅ (zip columnNames rowValues) in
      let totalRows := (totalRows + 1)%Z in
      if (progressReportSize =? 0)%Z then
        (MkFetch (f_events acc) (f_sent acc ++ [rowMap]) true, totalRows)
      else
        fetch_rows columnNames progressReportSize rows' totalRows
          (MkFetch
             (if (Z.rem totalRows progressReportSize =? 0)%Z
              then f_events acc ++
                   [MkProgress "processing" ("Fetched " +:+ FlatFile.itoa totalRows +:+ " rows")
                      totalRows false]
              else f_events acc)
             (f_sent acc ++ [rowMap]) false)
  end.

(** The goroutine of [IngestClickHouseToFlatFile], lines 80-165. *)
Definition fetch (outcome : query_outcome V) (progressReportSize : Z) : fetch_result :=
  match outcome with
  | QueryFailed e =>
      MkFetch [MkProgress "error" ("Failed to execute query: " +:+ e) 0 true] [] false
  | QueryRows columnNames rows rowsErr =>
      let '(acc, totalRows) :=
        fetch_rows columnNames progressReportSize rows 0 (MkFetch [] [] false) in
      if f_panic acc then acc
      else
        match rowsErr with
        | Some e =>
            MkFetch (f_events acc ++
                     [MkProgress "error" ("Error iterating rows: " +:+ e) totalRows true])
              (f_sent acc) false
        | None => acc
        end
  end.

(** [dataCh := make(chan map[string]interface{}, 100)], line 77. *)
Definition dataCh_capacity : nat := 100.

(** The rows the goroutine gets through while nobody receives from
    [dataCh]: the channel takes [room] rows, and the send of the next one
    (lines 134-138) waits until the context is cancelled, upon which the
    goroutine returns.  The flag tells whether it came to that. *)
Fixpoint before_block (room : nat) (rows : list (scan_outcome V))
    : list (scan_outcome V) * bool :=
  match rows with
  | [] => ([], false)
  | ScanErr e :: rows' =>
      let '(passed, blocked) := before_block room rows' in (ScanErr e :: passed, blocked)
  | ScanOk rowValues :: rows' =>
      match room with
      | O => ([], true)
      | S room' =>
          let '(passed, blocked) := before_block room' rows' in
          (ScanOk rowValues :: passed, blocked)
      end
  end.

(** The goroutine, lines 80-165, when [WriteData] has returned without
    receiving: it sends what the channel takes; blocked, it returns on
    cancellation without an update of [rows.Err]. *)
Definition fetch_unreceived (outcome : query_outcome V) (progressReportSize : Z)
    : fetch_result :=
  match outcome with
  | QueryFailed e =>
      MkFetch [MkProgress "error" ("Failed to execute query: " +:+ e) 0 true] [] false
  | QueryRows columnNames rows rowsErr =>
      let '(passed, blocked) := before_block dataCh_capacity rows in
      let '(acc, totalRows) :=
        fetch_rows columnNames progressReportSize passed 0 (MkFetch [] [] false) in
      if f_panic acc || blocked then acc
      else
        match rowsErr with
        | Some e =>
            MkFetch (f_events acc ++
                     [MkProgress "error" ("Error iterating rows: " +:+ e) totalRows true])
              (f_sent acc) false
        | None => acc
        end
  end.

Record store_to_file := MkStoreToFile {
  sf_fetch : fetch_result;
  sf_write : FlatFile.write_result;
  sf_result : result Z;
}.

(** [IngestClickHouseToFlatFile], lines 57-184: what the goroutine
    does, what [WriteData] does with the rows it is sent, and the
    returned [TotalRecords] or error. *)
Definition IngestClickHouseToFlatFile (c : Conn V) (cfg : Config)
    (create : FlatFile.create_outcome) (fs : gmap string string)
    (tableName : string) (columns : list Column) (flatFileParams : FlatFileParams)
    (query : string) : store_to_file :=
  let query :=
    if bool_decide (query = "") then
      "SELECT " +:+ Join (Name <$> columns) ", " +:+ " FROM " +:+ tableName
    else query in
  let fetched := fetch (Query c query) (ProgressReportSize cfg) in
  let written :=
    FlatFile.WriteData Sprintf_v create fs (FilePath flatFileParams)
      (Delimiter flatFileParams) columns (ProgressReportSize cfg) (f_sent fetched) in
  MkStoreToFile fetched written
    match FlatFile.wr_err written with
    | Some e => Err e
    | None => Ok (FlatFile.wr_count written)
    end.

Record file_to_store := MkFileToStore {
  fs_stored : list (list (list FlatFile.value));
  fs_events : list ProgressUpdate;
  fs_result : result Z;
}.

(** [IngestFlatFileToClickHouse], lines 187-226. *)
Definition IngestFlatFileToClickHouse (conn : option (Conn V)) (cfg : Config)
    (fs : gmap string string) (flatFileParams : FlatFileParams) (tableName : string)
    (columns : list Column) : file_to_store :=
  match CreateTable conn tableName columns with
  | Some e => MkFileToStore [] [] (Err ("failed to create table: " +:+ e))
  | None =>
      match FlatFile.ReadData fs (FilePath flatFileParams) (Delimiter flatFileParams) columns with
      | Err e => MkFileToStore [] [] (Err ("failed to read data: " +:+ e))
      | Ok dataCh =>
          let r := InsertData conn cfg tableName columns dataCh in
          MkFileToStore (ir_stored r) (ir_events r)
            match ir_err r with
            | Some e => Err ("failed to insert data: " +:+ e)
            | None => Ok (ir_count r)
            end
      end
  end.
End transfers_def.
End Ingest.

(** ** The handler: [StartIngestion] in cmd/server/main.go *)
Module Handler.
Import ClickHouse Ingest.

(** "Send final result or error", lines 322-338. *)
Definition final_update (res : result Z) : ProgressUpdate :=
  match res with
  | Err e => MkProgress "error" e 0 true
  | Ok totalRecords => MkProgress "success" "Ingestion completed successfully" totalRecords true
  end.

(** The ways two senders' events can reach one channel. *)
Inductive interleave {A : Type} : list A → list A → list A → Prop :=
  | interleave_nil : interleave [] [] []
  | interleave_l a l r m : interleave l r m → interleave (a :: l) r (a :: m)
  | interleave_r a l r m : interleave l r m → interleave l (a :: r) (a :: m).

Section streams.
Context {V : Type} (Sprintf_v : V → string).

(** A file-to-store transfer: [InsertData] is the only sender until the
    handler's goroutine sends the final update and closes the channel. *)
Definition file_to_store_stream (conn : option (Conn V)) (cfg : Config)
    (fs : gmap string string) (flatFileParams : FlatFileParams) (tableName : string)
    (columns : list Column) : list ProgressUpdate :=
  let t := IngestFlatFileToClickHouse conn cfg fs flatFileParams tableName columns in
  fs_events t ++ [final_update (fs_result t)].

(** [WriteData] receives from [dataCh] once it has created the file and
    written the header, that is when the delimiter is one the writer
    accepts; otherwise it returns its error at once (lines 398-428). *)
Definition receives (create : FlatFile.create_outcome) (delimiter : string) : bool :=
  match create with
  | FlatFile.Created => Csv.validDelim (FlatFile.delim_of delimiter)
  | _ => false
  end.

(** What the two senders of a store-to-file transfer, the goroutine with
    the updates [fetched] and [WriteData] with the updates [written], put
    on [progressCh] before the handler closes it, followed or interrupted
    by the handler's [final] update.

    When [WriteData] receives, it returns only after [dataCh] is closed,
    that is after the goroutine has sent its last update; the final
    update follows them all.  When [WriteData] has returned at once, the
    handler sends the final update and closes [progressCh] while the
    goroutine is still at work: the goroutine's updates sent until then
    come before the final update or between it and the closing, and the
    later ones never arrive.

    Every interleaving of the two senders is admitted, also those that
    the rows passing through [dataCh] rule out. *)
Definition two_senders (receiving : bool) (fetched written : list ProgressUpdate)
    (final : ProgressUpdate) (whole : list ProgressUpdate) : Prop :=
  if receiving then
    ∃ m, interleave fetched written m ∧ whole = m ++ [final]
  else
    ∃ before after, before ++ after `prefix_of` fetched ∧ whole = before ++ final :: after.

(** A panic of the goroutine ends the process: the updates sent until
    then are a prefix of those of a run that the panic leaves alone. *)
Definition cut_short (panic : bool) (whole stream : list ProgressUpdate) : Prop :=
  if panic then stream `prefix_of` whole else stream = whole.

(** A store-to-file transfer: the updates sent on [progressCh] until the
    handler closes it or the process ends, as long as the client stays
    connected. *)
Definition store_to_file_stream (c : Conn V) (cfg : Config)
    (create : FlatFile.create_outcome) (fs : gmap string string)
    (tableName : string) (columns : list Column)
    (flatFileParams : FlatFileParams) (query : string)
    (stream : list ProgressUpdate) : Prop :=
  let t := IngestClickHouseToFlatFile Sprintf_v c cfg create fs tableName columns
             flatFileParams query in
  let receiving := receives create (Delimiter flatFileParams) in
  let goroutine :=
    if receiving then sf_fetch t
    else
      fetch_unreceived
        (Query c (if bool_decide (query = "") then
                    "SELECT " +:+ Join (Name <$> columns) ", " +:+ " FROM " +:+ tableName
                  else query))
        (ProgressReportSize cfg) in
  ∃ whole,
    two_senders receiving (f_events goroutine) (FlatFile.wr_events (sf_write t))
      (final_update (sf_result t)) whole
    ∧ cut_short (f_panic goroutine) whole stream.

(** Without a connection the goroutine panics at once, in its call of
    [Query] on a nil [conn] (line 84); the deferred closing of [dataCh]
    lets [WriteData] return, and whether the final update is still sent
    before the process ends is open. *)
Definition no_connection_stream (cfg : Config) (create : FlatFile.create_outcome)
    (fs : gmap string string) (columns : list Column) (flatFileParams : FlatFileParams)
    (stream : list ProgressUpdate) : Prop :=
  let written :=
    FlatFile.WriteData Sprintf_v create fs (FilePath flatFileParams)
      (Delimiter flatFileParams) columns (ProgressReportSize cfg) [] in
  stream `prefix_of`
    [final_update match FlatFile.wr_err written with
                  | Some e => Err e
                  | None => Ok (FlatFile.wr_count written)
                  end].
End streams.

(** [model.IngestionParams] *)
Module IngestionParams.
Record t := Mk {
  SourceType : string;
  TargetType : string;
  TableName : string;
  FlatFileParams : Ingest.FlatFileParams;
  Columns : list Column;
  Query : string;
}.
End IngestionParams.

Section dispatch.
Context {V : Type} (Sprintf_v : V → string).

(** The goroutine of [StartIngestion], lines 294-340: the updates that
    reach [progressCh] before it is closed.  [conn] is the connection of
    the one ClickHouse service, [create] what becomes of the creation of
    the target file. *)
Definition StartIngestion (conn : option (Conn V)) (cfg : Config)
    (create : FlatFile.create_outcome) (fs : gmap string string)
    (params : IngestionParams.t) (stream : list ProgressUpdate) : Prop :=
  if bool_decide (IngestionParams.SourceType params = "clickhouse")
     && bool_decide (IngestionParams.TargetType params = "flatfile") then
    match conn with
    | Some c =>
        store_to_file_stream Sprintf_v c cfg create fs (IngestionParams.TableName params)
          (IngestionParams.Columns params) (IngestionParams.FlatFileParams params)
          (IngestionParams.Query params) stream
    | None =>
        no_connection_stream Sprintf_v cfg create fs (IngestionParams.Columns params)
          (IngestionParams.FlatFileParams params) stream
    end
  else if bool_decide (IngestionParams.SourceType params = "flatfile")
          && bool_decide (IngestionParams.TargetType params = "clickhouse") then
    stream = file_to_store_stream conn cfg fs (IngestionParams.FlatFileParams params)
               (IngestionParams.TableName params) (IngestionParams.Columns params)
  else stream = [final_update (Err "invalid source or target type")].
End dispatch.
End Handler.

(** ** The join query, in the specification's words *)

(** Every selected column, qualified by its table, tables in the order
    given. *)
Definition qualified_columns (tables : list JoinTableInfo.t) : list string :=
  t ← tables; (λ col, JoinTableInfo.Name t +:+ "." +:+ col) <$> JoinTableInfo.SelectedColumns t.

(** One clause per non-driving table; the join type is [INNER JOIN] when
    none is given. *)
Definition join_clause (t : JoinTableInfo.t) : string :=
  " " +:+ (if bool_decide (JoinTableInfo.JoinType t = "") then "INNER JOIN"
           else JoinTableInfo.JoinType t)
      +:+ " " +:+ JoinTableInfo.Name t +:+ " ON " +:+ JoinTableInfo.JoinCondition t.

Fixpoint concat_strings (l : list string) : string :=
  match l with
  | [] => ""
  | a :: l' => a +:+ concat_strings l'
  end.

Definition join_query (params : JoinParams) : string :=
  "SELECT " +:+ Join (qualified_columns (Tables params)) ", "
  +:+ " FROM " +:+ from_option JoinTableInfo.Name "" (head (Tables params))
  +:+ concat_strings (join_clause <$> tail (Tables params))
  +:+ (if bool_decide (WhereClause params = "") then ""
       else " WHERE " +:+ WhereClause params).

(** ** The taxonomy of the data model, in the specification's words *)

(** The sentence of the data model: a semantic type is [String],
    [Int64], [Float64], [Bool], [DateTime], or [Nullable(T)] with [T] one
    of those five. *)
Definition base_types : list string :=
  ["String"; "Int64"; "Float64"; "Bool"; "DateTime"].

Definition in_taxonomy (t : string) : bool :=
  bool_decide (t ∈ base_types)
  || bool_decide (t ∈ (λ b, "Nullable(" +:+ b +:+ ")") <$> base_types).

(** ** The data channel between the two ends of a transfer

    Both transfers join a producer goroutine and a consumer by
    [make(chan ..., 100)]: [dataCh] in [IngestClickHouseToFlatFile] and
    [out] in [ReadData].  The producer sends the rows it has in order with
    [select { case ch <- row: case <-ctx.Done(): return }] and closes the
    channel when it returns; the consumer is a [for row := range ch] loop
    that may return early (a failed batch or write, a cancelled context).
    The steps below are those of Go's buffered channel: a send goes
    through only while the buffer holds fewer rows than its capacity, a
    receive only while it holds one. *)
Module Pipeline.

Definition capacity : nat := 100.

Section channel.
Context {A : Type}.

Record state := MkState {
  pending : list A;       (* rows the producer has still to send *)
  buffer : list A;        (* rows in the channel, oldest first *)
  closed : bool;          (* the producer has returned: [close(ch)] ran *)
  received : list A;      (* rows the consumer has taken *)
  consumer_done : bool;   (* the consumer has returned *)
  cancelled : bool;       (* [ctx.Done()] is ready *)
}.

Definition init (rows : list A) : state := MkState rows [] false [] false false.

Inductive step : state → state → Prop :=
  | step_send row rows buf rcv cd cn :
      length buf < capacity →
      step (MkState (row :: rows) buf false rcv cd cn)
           (MkState rows (buf ++ [row]) false rcv cd cn)
  | step_producer_end buf rcv cd cn :
      step (MkState [] buf false rcv cd cn) (MkState [] buf true rcv cd cn)
  | step_producer_cancelled rows buf rcv cd :
      step (MkState rows buf false rcv cd true) (MkState rows buf true rcv cd true)
  | step_receive row rows buf cl rcv cn :
      step (MkState rows (row :: buf) cl rcv false cn)
           (MkState rows buf cl (rcv ++ [row]) false cn)
  | step_consumer_end rows rcv cn :
      step (MkState rows [] true rcv false cn) (MkState rows [] true rcv true cn)
  | step_consumer_returns_early rows buf cl rcv cn :
      step (MkState rows buf cl rcv false cn) (MkState rows buf cl rcv true cn)
  | step_cancel rows buf cl rcv cd :
      step (MkState rows buf cl rcv cd false) (MkState rows buf cl rcv cd true).

(** The states a transfer of [rows] can be in. *)
Definition reachable (rows : list A) (s : state) : Prop := rtc step (init rows) s.

End channel.
Arguments state : clear implicits.

End Pipeline.

(** ** Rows in memory during a file-to-store transfer *)

(** The rows between the file and the store when the transfer is in the
    state [s]: those in the channel, and those [InsertData] has received
    and keeps in its batch until it submits them (lines 423-431 of the
    ClickHouse service). *)
Definition held_rows {V : Type} (c : ClickHouse.Conn V) (cfg : Config) (query : string)
    (s : Pipeline.state (list FlatFile.value)) : nat :=
  length (Pipeline.buffer s)
  + length (ClickHouse.i_batch
              (ClickHouse.insert_rows c cfg query (Pipeline.received s)
                 (ClickHouse.MkInsertState [] [] 0 0 [])).1).

(** ** Progress updates before the final one *)

(** A [processing] update: not completed, and counting at most [n] rows. *)
Definition reported_below (n : Z) (u : ProgressUpdate) : Prop :=
  Completed u = false ∧ (Count u ≤ n)%Z.

(** The number of updates of a stream with [completed] set. *)
Definition completed_count (stream : list ProgressUpdate) : nat :=
  length (filter (λ u, Completed u = true) stream).

(** The counts a loop that reports every [p] rows has reported after [n]
    rows: [p], [2p], and so on up to [n]. *)
Definition multiples (p n : Z) : list Z :=
  (λ k, (Z.of_nat k * p)%Z) <$> seq 1 (Z.to_nat (n / p)).

(** The [processing] update a loop sends at the count [n]; [verb] is
    [Written], [Fetched] or [Processed]. *)
Definition processing (verb : string) (n : Z) : ProgressUpdate :=
  MkProgress "processing" (verb +:+ " " +:+ FlatFile.itoa n +:+ " rows") n false.

(** What follows the rows whose scan succeeds: nothing, or a row whose
    scan fails with [e] and the rows after it. *)
Definition rows_end {V : Type} (stop : option (string * list (ClickHouse.scan_outcome V)))
    : list (ClickHouse.scan_outcome V) :=
  match stop with
  | Some (e, rest) => ClickHouse.ScanErr e :: rest
  | None => []
  end.

(** The value lists of the rows whose scan succeeds. *)
Definition scanned {V : Type} (rows : list (ClickHouse.scan_outcome V)) : list (list V) :=
  omap (λ o, match o with ClickHouse.ScanOk rowValues => Some rowValues | _ => None end) rows.

(** ** The delimiter rule, in the claim's words *)

(** The first character of a non-empty delimiter string: the bytes of its
    first rune (one byte when they form no valid encoding). *)
Definition first_char (d : string) : string :=
  Utf8.str_take (Utf8.DecodeRuneInString d).2 d.

(** The delimiter the claim names for the string [d]: the comma for the
    empty string, the first character of [d] otherwise. *)
Definition claimed_delim (d : string) : Z :=
  if bool_decide (d = "") then 44%Z else (Utf8.DecodeRuneInString (first_char d)).1.

(** The four flat-file operations do the same with the delimiter strings
    [d] and [d'], whatever their other arguments. *)
Definition same_operations (d d' : string) : Prop :=
  (∀ order fs filePath,
      FlatFile.DiscoverSchema order fs filePath d = FlatFile.DiscoverSchema order fs filePath d')
  ∧ (∀ fs filePath columns limit,
      FlatFile.PreviewData fs filePath d columns limit
      = FlatFile.PreviewData fs filePath d' columns limit)
  ∧ (∀ fs filePath columns,
      FlatFile.ReadData fs filePath d columns = FlatFile.ReadData fs filePath d' columns)
  ∧ (∀ (V : Type) (Sprintf_v : V → string) create fs filePath columns progressReportSize data,
      FlatFile.WriteData Sprintf_v create fs filePath d columns progressReportSize data
      = FlatFile.WriteData Sprintf_v create fs filePath d' columns progressReportSize data).

(** ** The round trip through a file, its conditions *)

(** The text [WriteData] puts in the field of column [col]. *)
Definition written_text {V : Type} (Sprintf_v : V → string) (row : gmap string V)
    (col : Column) : string :=
  match row !! Name col with
  | Some v => Sprintf_v v
  | None => ""
  end.

(** No carriage return of the field is directly followed by a line feed. *)
Fixpoint crlf_free (f : string) : bool :=
  match f with
  | EmptyString => true
  | String a f' =>
      (if Ascii.eqb a Csv.CR
       then match f' with
            | String b _ => negb (Ascii.eqb b Csv.LF)
            | EmptyString => true
            end
       else true)
      && crlf_free f'
  end.

(** A record that survives the round trip: it has a field, it is not the
    single empty field (written as an empty line, which the reader skips),
    and no field holds a carriage return followed by a line feed (read
    back as a line feed alone). *)
Definition roundtrip_record (record : list string) : Prop :=
  record ≠ [] ∧ record ≠ [""] ∧ Forall (λ f, crlf_free f = true) record.

(** A delimiter that survives the round trip whatever the fields: a
    character the writer accepts and which is not white space (the
    reader, trimming leading space, would take it for padding). *)
Definition roundtrip_delim (comma : Z) : Prop :=
  Csv.validDelim comma = true ∧ Utf8.IsSpace comma = false.

(** Every field but the last holds a character. *)
Fixpoint inner_fields_filled (record : list string) : bool :=
  match record with
  | f :: (_ :: _) as record' => negb (bool_decide (f = "")) && inner_fields_filled record'
  | _ => true
  end.

(** A record that survives the round trip under the delimiter [comma]:
    with a white-space delimiter, moreover, only its last field may be
    empty (the reader, trimming leading space, takes the delimiter after
    an empty field for padding). *)
Definition roundtrip_fields (comma : Z) (record : list string) : Prop :=
  roundtrip_record record
  ∧ (Utf8.IsSpace comma = true → inner_fields_filled record = true).

(** What [Writer.Write] appends for a record, and the whole file
    [WriteData] leaves behind: the header, then one record per row. *)
Definition written_record (comma : Z) (record : list string) : string :=
  Csv.write_fields comma 0 record +:+ String Csv.LF EmptyString.

Definition written_records (comma : Z) (records : list (list string)) : string :=
  concat_strings (written_record comma <$> records).

Definition written_file {V : Type} (Sprintf_v : V → string) (comma : Z)
    (columns : list Column) (rows : list (gmap string V)) : string :=
  written_record comma (Name <$> columns)
  +:+ written_records comma (FlatFile.record_of Sprintf_v columns <$> rows).

(** The row [ReadData] makes of a record. *)
Definition row_of_record (colNameToIndex : gmap string nat) (columns : list Column)
    (record : list string) : list FlatFile.value :=
  (λ col,
     match colNameToIndex !! Name col with
     | Some idx =>
         match record !! idx with
         | Some v => FlatFile.convertValue v (Type_ col)
         | None => FlatFile.VNil
         end
     | None => FlatFile.VNil
     end) <$> columns.

(** The row [PreviewData] makes of a record. *)
Definition preview_row (colNameToIndex : gmap string nat) (selectedColumns : list Column)
    (record : list string) : gmap string FlatFile.value :=
  foldl (λ row col,
           match colNameToIndex !! Name col with
           | Some idx =>
               match record !! idx with
               | Some v => <[Name col := FlatFile.convertValue v (Type_ col)]> row
               | None => row
               end
           | None => row
           end) ∅ selectedColumns.

(** ** Auxiliary notions of the round-trip proof *)

(** The next line, cut after its line feed, with no treatment of carriage
    returns. *)
Fixpoint line_split (s : string) : string * string :=
  match s with
  | EmptyString => (EmptyString, EmptyString)
  | String a s' =>
      if Ascii.eqb a Csv.LF then (String Csv.LF EmptyString, s')
      else let '(l, r) := line_split s' in (String a l, r)
  end.

(** No carriage return is followed by a line feed or ends the text. *)
Fixpoint no_crlf (s : string) : bool :=
  match s with
  | EmptyString => true
  | String a s' =>
      (if Ascii.eqb a Csv.CR
       then match s' with
            | String b _ => negb (Ascii.eqb b Csv.LF)
            | EmptyString => false
            end
       else true)
      && no_crlf s'
  end.

Definition no_byte (a : ascii) (s : string) : Prop :=
  Csv.any_byte (λ b, Ascii.eqb b a) s = false.

(** Turns of the [parseField] loop spent inside a quoted field: one for
    each quote and each line feed of the field. *)
Fixpoint body_cost (f : string) : nat :=
  match f with
  | EmptyString => 0
  | String a f' =>
      (if Ascii.eqb a Csv.QUOTE || Ascii.eqb a Csv.LF then 1 else 0) + body_cost f'
  end.

Definition field_cost (comma : Z) (f : string) : nat :=
  if Csv.fieldNeedsQuotes comma f then 2 + body_cost f else 1.

Definition record_cost (comma : Z) (record : list string) : nat :=
  foldr (λ f n, field_cost comma f + n) 0 record.

(** The fields after the first, each behind its delimiter, and the line
    feed that ends the record. *)
Fixpoint more_fields (comma : Z) (record : list string) : string :=
  match record with
  | [] => String Csv.LF EmptyString
  | f :: record' =>
      Utf8.EncodeRune comma +:+ Csv.write_field comma f +:+ more_fields comma record'
  end.

(** ** The progress stream as the client gets it

    [ProgressUpdate.ToJSON] calls [json.Marshal], standard library like
    the packages above.  [Json] holds its string encoder with HTML
    escaping on, as [Marshal] sets it.  The source copies the stretches
    between two escapes in one piece; the loop below copies them
    character by character.  Backspace and form feed are written [\b]
    and [\f] as Go does from 1.22 on; earlier versions write [\u0008]
    and [\u000c]. *)
Module Json.
Import Strconv Utf8.

Definition BACKSLASH : ascii := ascii_of_nat 92.

(** [hex[n]], of [0123456789abcdef]. *)
Definition hex (n : Z) : ascii :=
  nth (Z.to_nat n) (String.list_ascii_of_string "0123456789abcdef") (ascii_of_nat 48).

(** [htmlSafeSet[b]]: the ASCII characters from the space on, but for
    the double quote, [&], [<], [>] and the backslash. *)
Definition htmlSafe (b : ascii) : bool :=
  (32 <=? code b)%Z && (code b <? 128)%Z
  && negb (bool_decide (code b ∈ [34; 38; 60; 62; 92]%Z)).

(** What is written for an ASCII byte outside [htmlSafeSet]. *)
Definition escape (b : ascii) : string :=
  let x := code b in
  String BACKSLASH
    (if bool_decide (x ∈ [92; 34]%Z) then String b EmptyString
     else if (x =? 8)%Z then "b"
     else if (x =? 12)%Z then "f"
     else if (x =? 10)%Z then "n"
     else if (x =? 13)%Z then "r"
     else if (x =? 9)%Z then "t"
     else String "u" (String "0" (String "0"
            (String (hex (Z.shiftr x 4)) (String (hex (Z.land x 15)) EmptyString))))).

(** The loop of [appendString]; every turn consumes a byte of [src]. *)
Fixpoint appendString_loop (fuel : nat) (src : string) : string :=
  match fuel, src with
  | S fuel', String b src' =>
      if (code b <? 128)%Z then
        if htmlSafe b then String b (appendString_loop fuel' src')
        else escape b +:+ appendString_loop fuel' src'
      else
        let '(c, size) := DecodeRuneInString src in
        if (c =? RuneError)%Z && (size =? 1) then
          String BACKSLASH "ufffd" +:+ appendString_loop fuel' (str_drop size src)
        else if (c =? 8232)%Z || (c =? 8233)%Z then
          String BACKSLASH "u202" +:+ String (hex (Z.land c 15)) EmptyString
            +:+ appendString_loop fuel' (str_drop size src)
        else str_take size src +:+ appendString_loop fuel' (str_drop size src)
  | _, _ => EmptyString
  end.

Definition appendString (src : string) : string :=
  String Csv.QUOTE (appendString_loop (String.length src) src +:+ String Csv.QUOTE EmptyString).

(** An object key with its colon. *)
Definition key (name : string) : string :=
  String Csv.QUOTE (name +:+ String Csv.QUOTE ":").

End Json.

(** [ProgressUpdate.ToJSON], lines 72-78 of the model package.
    [json.Marshal] does not fail on a struct of two strings, an int and a
    bool, so the fallback text is never returned. *)
Definition ToJSON (p : ProgressUpdate) : string :=
  "{" +:+ Json.key "status" +:+ Json.appendString (Status p)
  +:+ "," +:+ Json.key "message" +:+ Json.appendString (Message p)
  +:+ "," +:+ Json.key "count" +:+ FlatFile.itoa (Count p)
  +:+ "," +:+ Json.key "completed" +:+ (if Completed p then "true" else "false")
  +:+ "}".

(** [fmt.Sprintf("data: %s\n\n", progress.ToJSON())], the frame
    [StartIngestion] writes for an update. *)
Definition sse_frame (p : ProgressUpdate) : string :=
  "data: " +:+ ToJSON p +:+ String Csv.LF (String Csv.LF EmptyString).

(** A control character: a byte below the space. *)
Definition control (b : ascii) : bool := (Strconv.code b <? 32)%Z.

(** ** Sample inputs *)
Module Sample.
Import ClickHouse Ingest.

Definition line (s : string) : string := s +:+ String Csv.LF EmptyString.

(** A store whose queries fail and which accepts one batch, then rejects
    every further one. *)
Definition conn : Conn string :=
  MkConn (λ _, QueryFailed "connection refused")
         (λ _, None)
         (λ stored _ _, if 0 <? length stored then Some "rejected" else None).

Definition cfg : Config := MkConfig 2 5000.

Definition columns : list Column := [MkColumn "a" "Int64"].

(** A file of one column and four rows. *)
Definition fs : gmap string string :=
  {[ "in.csv" := line "a" +:+ line "1" +:+ line "2" +:+ line "3" +:+ line "4" ]}.

Definition params : FlatFileParams := MkFlatFileParams "in.csv" ",".

Definition out_params : FlatFileParams := MkFlatFileParams "out.csv" ",".

(** Two columns and two rows of text values, one with a delimiter, a
    quote and a line feed in a field, one without its second key. *)
Definition two_columns : list Column := [MkColumn "name" "String"; MkColumn "n" "Int64"].

Definition two_rows : list (gmap string string) :=
  [ {[ "name" := line "a,b" +:+ "say " +:+ String Csv.QUOTE "hi" +:+ String Csv.QUOTE EmptyString;
       "n" := "42" ]};
    {[ "name" := " padded" ]} ].

(** One column and one row whose only value is empty. *)
Definition one_column : list Column := [MkColumn "a" "String"].

(** The two bytes of U+00E9, a delimiter outside ASCII, and a row that
    holds it inside a field. *)
Definition e_acute : string := String (ascii_of_nat 195) (String (ascii_of_nat 169) EmptyString).

Definition accented_rows : list (gmap string string) :=
  [ {[ "name" := "caf" +:+ e_acute; "n" := "1" ]}; {[ "name" := "plain"; "n" := "2" ]} ].

Definition empty_row : list (gmap string string) := [ {[ "a" := "" ]} ].

End Sample.

(* ===================================================================== *)
(** * Part II: properties                                                 *)
(* ===================================================================== *)

Section dominant_type.
Import FlatFile.

Lemma map_get_insert counts t u n :
  map_get (<[t := n]> counts) u = if decide (t = u) then n else map_get counts u.
Proof.
  unfold map_get. rewrite lookup_insert. by case_decide.
Qed.

(** The counting loop computes the number of occurrences. *)
Lemma count_types_spec types t :
  map_get (count_types types) t = length (filter (λ u, u = t) types).
Proof.
  unfold count_types.
  enough (∀ acc, map_get (foldl (λ counts t0, <[t0 := S (map_get counts t0)]> counts) acc types) t
                 = map_get acc t + length (filter (λ u, u = t) types)) as H.
  { rewrite H. unfold map_get at 1. by rewrite lookup_empty. }
  induction types as [|u types IH]; intros acc; simpl.
  - lia.
  - rewrite IH, map_get_insert. rewrite filter_cons.
    case_decide; subst; simpl; lia.
Qed.

Lemma count_types_pos types t :
  t ∈ types → 0 < map_get (count_types types) t.
Proof.
  intros Hin. rewrite count_types_spec.
  assert (t ∈ filter (λ u, u = t) types) as Hf by (by apply list_elem_of_filter).
  destruct (filter (λ u, u = t) types); [by apply elem_of_nil in Hf | simpl; lia].
Qed.

Lemma count_types_zero types t :
  t ∉ types → map_get (count_types types) t = 0.
Proof.
  intros Hnin. rewrite count_types_spec.
  induction types as [|u types IH]; [done|].
  apply not_elem_of_cons in Hnin as [Hne Hnin].
  rewrite filter_cons_False by done. auto.
Qed.
End dominant_type.

(** C4: as soon as both [Int64] and [Float64] occur among the
    classifications, [getDominantType] answers [Float64], whatever the
    counts, the other types present, and the order of the map iteration. *)
Theorem C4_int_and_float_widen_to_float
    (order : list (string * nat)) (types : list string) :
  "Int64" ∈ types → "Float64" ∈ types →
  FlatFile.getDominantType order types = "Float64".
Proof.
  intros Hi Hf. unfold FlatFile.getDominantType.
  destruct types as [|t types]; [by apply elem_of_nil in Hi|].
  cbn [length Nat.eqb].
  apply count_types_pos in Hi, Hf.
  apply Nat.ltb_lt in Hi, Hf. by rewrite Hi, Hf.
Qed.

(** The widening at work on a sample dominated by [String]. *)
Lemma C4_witness :
  FlatFile.getDominantType [("String", 5); ("Int64", 2); ("Float64", 1)]
    ["String"; "Int64"; "String"; "Float64"; "String"; "Int64"; "String"; "String"]
  = "Float64".
Proof.
  apply C4_int_and_float_widen_to_float; set_solver.
Defined.




(** The positive half of the nullable rule: with an empty sample present
    and no numeric widening, a dominant type other than [String] is
    wrapped. *)
Lemma getDominantType_wraps_nullable (order : list (string * nat)) (types : list string) :
  "Nullable(String)" ∈ types →
  ¬ ("Int64" ∈ types ∧ "Float64" ∈ types) →
  (FlatFile.most_common order).2 ≠ "String" →
  FlatFile.getDominantType order types
  = "Nullable(" +:+ (FlatFile.most_common order).2 +:+ ")".
Proof.
  intros Hn Hnum Hdom. unfold FlatFile.getDominantType.
  destruct types as [|t types]; [by apply elem_of_nil in Hn|].
  cbn [length Nat.eqb].
  assert ((0 <? FlatFile.map_get (FlatFile.count_types (t :: types)) "Int64")
          && (0 <? FlatFile.map_get (FlatFile.count_types (t :: types)) "Float64") = false) as ->.
  { apply andb_false_iff. rewrite !Nat.ltb_ge.
    destruct (decide ("Int64" ∈ t :: types)) as [Hi|Hi];
      destruct (decide ("Float64" ∈ t :: types)) as [Hf|Hf];
      [tauto | right | left | left]; by rewrite count_types_zero. }
  apply count_types_pos, Nat.ltb_lt in Hn. rewrite Hn.
  by rewrite bool_decide_eq_false_2.
Qed.

(** C3: a column sampled as an integer, a fractional number and an empty
    value is reduced to plain [Float64]: the widening rule returns before
    the nullable rule is reached, for every order of the map iteration. *)
Theorem C3_widening_returns_before_nullable (order : list (string * nat)) :
  let types := [FlatFile.inferType "7"; FlatFile.inferType "2.5"; FlatFile.inferType ""] in
  types = ["Int64"; "Float64"; "Nullable(String)"]
  ∧ FlatFile.getDominantType order types = "Float64"
  ∧ FlatFile.getDominantType order types ≠ "Nullable(Float64)".
Proof.
  cbv zeta. split; [reflexivity|].
  assert (FlatFile.getDominantType order
            [FlatFile.inferType "7"; FlatFile.inferType "2.5"; FlatFile.inferType ""]
          = "Float64") as ->; [|done].
  change (FlatFile.inferType "7") with "Int64".
  change (FlatFile.inferType "2.5") with "Float64".
  change (FlatFile.inferType "") with "Nullable(String)".
  unfold FlatFile.getDominantType. cbn [length Nat.eqb].
  assert (0 < FlatFile.map_get
                (FlatFile.count_types ["Int64"; "Float64"; "Nullable(String)"]) "Int64")
    as Hi%Nat.ltb_lt by (apply count_types_pos; set_solver).
  assert (0 < FlatFile.map_get
                (FlatFile.count_types ["Int64"; "Float64"; "Nullable(String)"]) "Float64")
    as Hf%Nat.ltb_lt by (apply count_types_pos; set_solver).
  by rewrite Hi, Hf.
Qed.

Section first_format.
Import FlatFile.

(** The loop over the layouts stops at the first one that parses. *)
Lemma first_format_Some formats v t :
  first_format formats v = Some t →
  ∃ pre format post,
    formats = pre ++ format :: post
    ∧ GoTime.Parse format v = Some t
    ∧ Forall (λ g, GoTime.Parse g v = None) pre.
Proof.
  induction formats as [|f formats IH]; simpl; [done|].
  destruct (GoTime.Parse f v) as [t'|] eqn:Hf.
  - intros [= ->]. by exists [], f, formats.
  - intros (pre & g & post & -> & Hg & Hpre)%IH.
    exists (f :: pre), g, post. split_and!; [done | done | by constructor].
Qed.

Lemma first_format_None formats v :
  first_format formats v = None ↔ Forall (λ g, GoTime.Parse g v = None) formats.
Proof.
  induction formats as [|f formats IH]; simpl.
  - split; [constructor | done].
  - destruct (GoTime.Parse f v) eqn:Hf.
    + split; [done | by inversion 1; congruence].
    + rewrite IH. split; [by constructor | by inversion 1].
Qed.

Lemma first_format_is_Some formats v :
  is_Some (first_format formats v)
  ↔ ∃ format, format ∈ formats ∧ is_Some (GoTime.Parse format v).
Proof.
  split.
  - intros [t (pre & f & post & -> & Hf & _)%first_format_Some].
    exists f. split; [set_solver | by eexists].
  - intros (f & Hin & Hf).
    destruct (first_format formats v) eqn:E; [by eexists|].
    apply first_format_None in E. rewrite Forall_forall in E.
    rewrite (E f Hin) in Hf. by destruct Hf.
Qed.
End first_format.

(** C5: [inferType] applies the first rule that matches, in the order
    empty, integer, float, date layouts, string; the five sample values
    classify as stated; a value that parses both as an integer and as a
    float is an [Int64]. *)
Theorem C5_inferType_first_matching_rule :
  (∀ v : string,
      (v = "" → FlatFile.inferType v = "Nullable(String)")
      ∧ (v ≠ "" → is_Some (Strconv.ParseInt v) → FlatFile.inferType v = "Int64")
      ∧ (v ≠ "" → Strconv.ParseInt v = None → is_Some (Strconv.ParseFloat v) →
         FlatFile.inferType v = "Float64")
      ∧ (v ≠ "" → Strconv.ParseInt v = None → Strconv.ParseFloat v = None →
         (∃ format, format ∈ FlatFile.dateFormats ∧ is_Some (GoTime.Parse format v)) →
         FlatFile.inferType v = "DateTime")
      ∧ (v ≠ "" → Strconv.ParseInt v = None → Strconv.ParseFloat v = None →
         (∀ format, format ∈ FlatFile.dateFormats → GoTime.Parse format v = None) →
         FlatFile.inferType v = "String")
      ∧ (is_Some (Strconv.ParseInt v) → is_Some (Strconv.ParseFloat v) →
         FlatFile.inferType v = "Int64"))
  ∧ FlatFile.inferType "" = "Nullable(String)"
  ∧ FlatFile.inferType "42" = "Int64"
  ∧ FlatFile.inferType "3.14" = "Float64"
  ∧ FlatFile.inferType "2024-01-02" = "DateTime"
  ∧ FlatFile.inferType "abc" = "String".
Proof.
  split; [|by repeat split].
  intros v. unfold FlatFile.inferType.
  split_and!.
  - intros ->. done.
  - intros Hne [i ->]. by rewrite bool_decide_eq_false_2.
  - intros Hne -> [f ->]. by rewrite bool_decide_eq_false_2.
  - intros Hne -> -> Hex. rewrite bool_decide_eq_false_2 by done.
    apply first_format_is_Some in Hex as [t ->]. done.
  - intros Hne -> -> Hall. rewrite bool_decide_eq_false_2 by done.
    assert (FlatFile.first_format FlatFile.dateFormats v = None) as ->; [|done].
    apply first_format_None, Forall_forall. auto.
  - intros [i Hi] _. destruct v as [|c v]; [done|].
    rewrite bool_decide_eq_false_2 by done. by rewrite Hi.
Qed.

(** An all-empty sample counts one key. *)
Lemma range_order_single_empty (order : list (string * nat)) :
  FlatFile.range_order (FlatFile.count_types [FlatFile.inferType ""]) order →
  order = [("Nullable(String)", 1)].
Proof.
  unfold FlatFile.range_order.
  assert (FlatFile.count_types [FlatFile.inferType ""] = {["Nullable(String)" := 1]}) as ->.
  { unfold FlatFile.count_types. simpl. unfold FlatFile.map_get.
    by rewrite lookup_empty, insert_empty. }
  rewrite map_to_list_singleton. apply Permutation_singleton_r.
Qed.

(** C8: a column whose only sampled value is empty is reduced to
    [Nullable(Nullable(String))], which lies outside the taxonomy; this
    holds for every order of the map iteration. *)
Theorem C8_empty_column_is_doubly_nullable (order : list (string * nat)) :
  FlatFile.range_order (FlatFile.count_types [FlatFile.inferType ""]) order →
  FlatFile.getDominantType order [FlatFile.inferType ""] = "Nullable(Nullable(String))"
  ∧ in_taxonomy (FlatFile.getDominantType order [FlatFile.inferType ""]) = false.
Proof.
  intros ->%range_order_single_empty. by vm_compute.
Qed.

(** The only order a one-key map can be ranged over. *)
Lemma C8_witness :
  FlatFile.getDominantType [("Nullable(String)", 1)] [FlatFile.inferType ""]
  = "Nullable(Nullable(String))"
  ∧ in_taxonomy (FlatFile.getDominantType [("Nullable(String)", 1)] [FlatFile.inferType ""])
    = false.
Proof.
  apply C8_empty_column_is_doubly_nullable.
  unfold FlatFile.range_order. simpl. unfold FlatFile.count_types. simpl.
  unfold FlatFile.map_get. rewrite lookup_empty, insert_empty. simpl.
  by rewrite map_to_list_singleton.
Defined.

(** ** Strings *)

Lemma string_app_cons (c : ascii) (s t : string) : String c s +:+ t = String c (s +:+ t).
Proof. reflexivity. Qed.

Lemma string_app_nil_l (s : string) : "" +:+ s = s.
Proof. reflexivity. Qed.

Lemma string_app_nil_r (s : string) : s +:+ "" = s.
Proof. induction s as [|c s IH]; [done|]. by rewrite string_app_cons, IH. Qed.

Lemma string_app_assoc (s1 s2 s3 : string) : (s1 +:+ s2) +:+ s3 = s1 +:+ s2 +:+ s3.
Proof. induction s1 as [|c s1 IH]; [done|]. by rewrite !string_app_cons, IH. Qed.

Section join_query.
Import JoinTableInfo ClickHouse.

Lemma selected_columns_spec tables :
  selected_columns tables = qualified_columns tables.
Proof.
  unfold selected_columns.
  enough (∀ acc,
    foldl (λ allColumns table,
             foldl (λ allColumns col, allColumns ++ [Name table +:+ "." +:+ col])
                   allColumns (SelectedColumns table)) acc tables
    = acc ++ qualified_columns tables) as H by apply H.
  induction tables as [|t tables IH]; intros acc.
  - by rewrite app_nil_r.
  - cbn [foldl]. rewrite IH. unfold qualified_columns. cbn [mbind list_bind].
    rewrite (assoc_L (++)). f_equal.
    generalize (SelectedColumns t) acc. clear.
    intros cols. induction cols as [|c cols IH]; intros acc.
    + by rewrite app_nil_r.
    + cbn [foldl]. rewrite IH. rewrite <- (assoc_L (++)). done.
Qed.

Lemma qualified_columns_nil tables :
  qualified_columns tables = [] ↔ Forall (λ t, SelectedColumns t = []) tables.
Proof.
  unfold qualified_columns. induction tables as [|t tables IH].
  - split; [constructor | done].
  - cbn [mbind list_bind]. rewrite app_nil, IH.
    split.
    + intros [Ht%fmap_nil_inv ?]. by constructor.
    + inversion 1 as [|?? Ht ?]; subst. by rewrite Ht.
Qed.

Lemma add_joins_Err joinTables query :
  (∃ msg, add_joins joinTables query = Err msg)
  ↔ Exists (λ t, JoinCondition t = "") joinTables.
Proof.
  revert query. induction joinTables as [|t ts IH]; intros query; cbn [add_joins].
  - split; [by intros [? ?] | by inversion 1].
  - case_bool_decide as Hc.
    + split; [by left | by eexists].
    + rewrite IH. split; [by right | by inversion 1].
Qed.

Lemma add_joins_Ok joinTables query q :
  add_joins joinTables query = Ok q →
  q = query +:+ concat_strings (join_clause <$> joinTables).
Proof.
  revert query. induction joinTables as [|t ts IH]; intros query; cbn [add_joins].
  - intros [= <-]. cbn [fmap list_fmap concat_strings]. by rewrite string_app_nil_r.
  - case_bool_decide as Hc; [done|]. intros ->%IH.
    cbn [fmap list_fmap concat_strings]. unfold join_clause.
    rewrite !string_app_assoc. do 2 f_equal.
    repeat case_bool_decide; done.
Qed.
End join_query.

(** C6: [BuildJoinQuery] fails exactly when there are fewer than two
    tables, or a non-driving table has an empty join condition, or no
    column is selected in any table; when it succeeds the query is the
    table-qualified column list, the driving table, one join clause per
    further table in the order given ([INNER JOIN] by default), and the
    filter clause after [WHERE] when there is one. *)
Theorem C6_BuildJoinQuery_error_iff_and_shape (params : JoinParams) :
  ((∃ msg, ClickHouse.BuildJoinQuery params = Err msg)
   ↔ length (Tables params) < 2
     ∨ Exists (λ t, JoinTableInfo.JoinCondition t = "") (tail (Tables params))
     ∨ Forall (λ t, JoinTableInfo.SelectedColumns t = []) (Tables params))
  ∧ (∀ query, ClickHouse.BuildJoinQuery params = Ok query → query = join_query params).
Proof.
  unfold ClickHouse.BuildJoinQuery, join_query.
  destruct params as [tables whereClause]; cbn [Tables WhereClause].
  rewrite selected_columns_spec.
  destruct (length tables <? 2) eqn:Hlen.
  { apply Nat.ltb_lt in Hlen. split; [|done]. split; [auto | by eexists]. }
  apply Nat.ltb_ge in Hlen.
  destruct tables as [|mainTable joinTables]; [simpl in Hlen; lia|].
  cbn [tail head from_option].
  destruct (length (qualified_columns (mainTable :: joinTables)) =? 0) eqn:Hcols.
  { apply Nat.eqb_eq, length_zero_iff_nil, qualified_columns_nil in Hcols.
    split; [|done]. split; [auto | by eexists]. }
  apply Nat.eqb_neq in Hcols.
  assert (¬ Forall (λ t, JoinTableInfo.SelectedColumns t = []) (mainTable :: joinTables)) as Hsel.
  { intros H%qualified_columns_nil. by rewrite H in Hcols. }
  destruct (ClickHouse.add_joins joinTables _) as [q|msg] eqn:Hjoin.
  - split.
    + split.
      * intros [msg Hmsg]. by case_bool_decide.
      * intros [?|[Hex|?]]; [lia | | done].
        apply (add_joins_Err _ ("SELECT " +:+ Join (qualified_columns (mainTable :: joinTables)) ", "
                                 +:+ " FROM " +:+ JoinTableInfo.Name mainTable)) in Hex.
        destruct Hex as [msg Hmsg]. congruence.
    + intros query Hq. apply add_joins_Ok in Hjoin as ->.
      destruct (decide (whereClause = "")) as [->|Hw].
      * rewrite bool_decide_eq_false_2 in Hq by auto. injection Hq as <-.
        rewrite bool_decide_eq_true_2 by done.
        by rewrite !string_app_assoc, string_app_nil_r.
      * rewrite bool_decide_eq_true_2 in Hq by done. injection Hq as <-.
        rewrite bool_decide_eq_false_2 by done.
        by rewrite !string_app_assoc.
  - split; [|done]. split; [|by eexists].
    intros _. right; left. eapply add_joins_Err. by eexists.
Qed.




(** ** Batched insert and the file-to-store transfer *)

Section insert_data.
Import ClickHouse Ingest Handler.
Context {V : Type}.

(** The loop keeps the count equal to the number of rows stored, stores
    the rows in the order received, and stops at the first rejected
    batch, which it leaves out of the store. *)
Lemma insert_rows_spec (c : Conn V) cfg query data st st' err :
  insert_rows c cfg query data st = (st', err) →
  i_totalRows st = Z.of_nat (length (concat (i_stored st))) →
  Forall (reported_below (i_totalRows st)) (i_events st) →
  i_totalRows st' = Z.of_nat (length (concat (i_stored st')))
  ∧ Forall (reported_below (i_totalRows st')) (i_events st')
  ∧ (∃ rest, concat (i_stored st) ++ i_batch st ++ data
             = concat (i_stored st') ++ i_batch st' ++ rest
             ∧ (err = None → rest = []))
  ∧ (∀ e, err = Some e →
       ∃ e', e = "failed to insert batch: " +:+ e'
             ∧ AsyncInsert c (i_stored st') query (i_batch st') = Some e'
             ∧ i_batch st' ≠ []).
Proof.
  revert st. induction data as [|rowData data IH]; intros st; cbn [insert_rows].
  - intros [= <- <-] Hcount Hev. split_and!; [done | done | | done].
    exists []. by rewrite !app_nil_r.
  - destruct (BatchSize cfg <=? length (i_batch st ++ [rowData])) eqn:Hfull.
    + destruct (AsyncInsert c (i_stored st) query (i_batch st ++ [rowData])) as [e'|] eqn:Hins.
      * intros [= <- <-] Hcount Hev. cbn. split_and!; [done | done | |].
        -- exists data. split; [|done]. by rewrite <- !(assoc_L (++)).
        -- intros e [= <-]. eexists. split_and!; [done | done |].
           by destruct (i_batch st).
      * intros Hrun Hcount Hev. apply IH in Hrun; cbn.
        -- destruct Hrun as (Hc & He & (rest & Hrest & Hnone) & Herr).
           split_and!; [done | done | | done].
           exists rest. split; [|done]. rewrite <- Hrest. cbn.
           rewrite concat_app. cbn. by rewrite !app_nil_r, <- !(assoc_L (++)).
        -- cbn. rewrite concat_app. cbn. rewrite app_nil_r, !length_app. cbn. lia.
        -- assert (Forall (reported_below
                             (i_totalRows st + Z.of_nat (length (i_batch st ++ [rowData]))))
                     (i_events st)) as Hev'.
           { eapply Forall_impl; [exact Hev|]. intros u [? ?]. split; [done | lia]. }
           destruct (_ <=? _)%Z; [|done].
           apply Forall_app. split; [done|]. constructor; [|done]. split; cbn; [done | lia].
    + intros Hrun Hcount Hev. apply IH in Hrun; cbn; [|done..].
      destruct Hrun as (Hc & He & (rest & Hrest & Hnone) & Herr).
      split_and!; [done | done | | done].
      exists rest. split; [|done]. rewrite <- Hrest. cbn. by rewrite <- !(assoc_L (++)).
Qed.

(** [InsertData] as a whole: the count it returns is the number of rows
    in the store, these are the first rows received, and every event it
    sent is a [processing] event with a count not above it. *)
Lemma InsertData_spec (c : Conn V) cfg tableName columns data :
  let r := InsertData (Some c) cfg tableName columns data in
  ir_count r = Z.of_nat (length (concat (ir_stored r)))
  ∧ concat (ir_stored r) `prefix_of` data
  ∧ Forall (reported_below (ir_count r)) (ir_events r)
  ∧ (ir_err r = None → concat (ir_stored r) = data)
  ∧ (ir_err r ≠ None →
       ∃ query batch e', AsyncInsert c (ir_stored r) query batch = Some e'
                         ∧ batch ≠ []
                         ∧ concat (ir_stored r) ++ batch `prefix_of` data).
Proof.
  cbv zeta. unfold InsertData.
  destruct (insert_rows _ _ _ _ _) as [st err] eqn:Hrun.
  apply insert_rows_spec in Hrun as (Hc & Hev & (rest & Hrest & Hnone) & Herr); [|done..].
  cbn in Hrest.
  destruct err as [e|].
  - cbn. split_and!; [done | by eexists; rewrite Hrest | done | done |].
    intros _. destruct (Herr e eq_refl) as (e' & -> & Hins & Hne).
    eexists _, (i_batch st), e'.
    split_and!; [done | done | by exists rest; rewrite Hrest, (assoc_L (++))].
  - specialize (Hnone eq_refl). subst rest. rewrite app_nil_r in Hrest.
    destruct (0 <? length (i_batch st)) eqn:Hlen.
    + destruct (AsyncInsert c (i_stored st) _ (i_batch st)) as [e'|] eqn:Hins; cbn.
      * split_and!; [done | by eexists; rewrite Hrest | done | done |].
        intros _. eexists _, (i_batch st), e'. split_and!; [done | | by rewrite Hrest].
        intros Hnil. rewrite Hnil in Hlen. done.
      * split_and!.
        -- rewrite concat_app. cbn. rewrite app_nil_r, !length_app. lia.
        -- rewrite concat_app. cbn. by rewrite app_nil_r, Hrest.
        -- eapply Forall_impl; [exact Hev|]. intros u [? ?]. split; [done | lia].
        -- intros _. rewrite concat_app. cbn. by rewrite app_nil_r.
        -- done.
    + cbn. apply Nat.ltb_ge in Hlen.
      assert (i_batch st = []) as Hb by (destruct (i_batch st); [done | simpl in Hlen; lia]).
      rewrite Hb, app_nil_r in Hrest.
      split_and!; [done | by rewrite Hrest | done | done | done].
Qed.
End insert_data.

Section transfers.
Import ClickHouse Ingest Handler.
Context {V : Type}.

Lemma InsertData_events_not_completed (conn : option (Conn V)) cfg tableName columns data :
  Forall (λ u, Completed u = false) (ir_events (InsertData conn cfg tableName columns data)).
Proof.
  destruct conn as [c|]; [|by constructor].
  destruct (InsertData_spec c cfg tableName columns data) as (_ & _ & Hev & _).
  eapply Forall_impl; [exact Hev|]. by intros u [? _].
Qed.

(** A file-to-store transfer sends one completed update, and sends it
    last. *)
Lemma file_to_store_stream_one_final (conn : option (Conn V)) cfg fs params tableName columns :
  ∃ events final,
    file_to_store_stream conn cfg fs params tableName columns = events ++ [final]
    ∧ Completed final = true
    ∧ Forall (λ u, Completed u = false) events.
Proof.
  unfold file_to_store_stream, IngestFlatFileToClickHouse.
  destruct (CreateTable conn tableName columns) as [e|].
  { exists [], (MkProgress "error" ("failed to create table: " +:+ e) 0 true). by repeat split. }
  destruct (FlatFile.ReadData _ _ _ _) as [data|e].
  - cbn. eexists _, _. split; [done|]. split.
    + by destruct (ir_err _).
    + apply InsertData_events_not_completed.
  - exists [], (MkProgress "error" ("failed to read data: " +:+ e) 0 true). by repeat split.
Qed.

Lemma interleave_nil_r {A} (l m : list A) : interleave l [] m → m = l.
Proof.
  revert m. induction l as [|a l IH]; intros m; inversion 1; subst; [done|].
  f_equal. auto.
Qed.

Lemma interleave_Forall {A} (P : A → Prop) (l r m : list A) :
  interleave l r m → Forall P l → Forall P r → Forall P m.
Proof.
  induction 1; intros Hl Hr; [done | |].
  - apply Forall_cons in Hl as [? ?]. constructor; auto.
  - apply Forall_cons in Hr as [? ?]. constructor; auto.
Qed.

Lemma interleave_completed_count (l r m : list ProgressUpdate) :
  interleave l r m → completed_count m = completed_count l + completed_count r.
Proof.
  unfold completed_count. induction 1 as [|a l r m _ IH|a l r m _ IH]; [done | |].
  - rewrite !filter_cons. case_decide; cbn; rewrite IH; lia.
  - rewrite !filter_cons. case_decide; cbn; rewrite IH; lia.
Qed.

Lemma completed_count_none (events : list ProgressUpdate) :
  Forall (λ u, Completed u = false) events → completed_count events = 0.
Proof.
  unfold completed_count. induction 1 as [|u events Hu _ IH]; [done|].
  rewrite filter_cons_False by (by rewrite Hu). done.
Qed.

Lemma completed_count_app (l r : list ProgressUpdate) :
  completed_count (l ++ r) = completed_count l + completed_count r.
Proof. unfold completed_count. by rewrite filter_app, length_app. Qed.

(** The fetch loop sends [processing] updates only. *)
Lemma fetch_rows_events columnNames progressReportSize (rows : list (scan_outcome V)) :
  ∀ totalRows acc,
    Forall (λ u, Completed u = false) (f_events acc) →
    Forall (λ u, Completed u = false)
      (f_events (fetch_rows columnNames progressReportSize rows totalRows acc).1).
Proof.
  induction rows as [|[rowValues|e] rows IH]; intros totalRows acc Hacc; cbn [fetch_rows].
  - done.
  - destruct (progressReportSize =? 0)%Z; [done|].
    apply IH. cbn [f_events]. destruct (_ =? 0)%Z; [|done].
    apply Forall_app. split; [done|]. by repeat constructor.
  - by apply IH.
Qed.

(** So does the write loop. *)
Lemma write_rows_events (Sprintf_v : V → string) delim columns progressReportSize
    (data : list (gmap string V)) :
  ∀ st,
    Forall (λ u, Completed u = false) (FlatFile.w_events st) →
    Forall (λ u, Completed u = false)
      (FlatFile.w_events
         (FlatFile.write_rows Sprintf_v delim columns progressReportSize data st).1).
Proof.
  induction data as [|row data IH]; intros st Hst; cbn [FlatFile.write_rows]; [done|].
  destruct (Csv.Write delim _); [|done].
  apply IH. cbn [FlatFile.w_events]. destruct (_ <=? _)%Z; [|done].
  apply Forall_app. split; [done|]. by repeat constructor.
Qed.

Lemma WriteData_events (Sprintf_v : V → string) create fs filePath delimiter columns
    progressReportSize (data : list (gmap string V)) :
  Forall (λ u, Completed u = false)
    (FlatFile.wr_events
       (FlatFile.WriteData Sprintf_v create fs filePath delimiter columns progressReportSize
          data)).
Proof.
  unfold FlatFile.WriteData. destruct create; [|done..].
  destruct (Csv.Write _ _) as [header|]; [|done].
  pose proof (write_rows_events Sprintf_v (FlatFile.delim_of delimiter) columns
                progressReportSize data (FlatFile.MkWriteState header 0 0 [])) as Hev.
  destruct (FlatFile.write_rows _ _ _ _ _ _) as [st err]. cbn in *. by apply Hev.
Qed.

(** With a report size other than zero the fetch loop does not panic. *)
Lemma fetch_rows_no_panic columnNames progressReportSize (rows : list (scan_outcome V)) :
  progressReportSize ≠ 0%Z →
  ∀ totalRows acc,
    f_panic acc = false →
    f_panic (fetch_rows columnNames progressReportSize rows totalRows acc).1 = false.
Proof.
  intros Hp. induction rows as [|[rowValues|e] rows IH]; intros totalRows acc Hacc;
    cbn [fetch_rows]; [done | | by apply IH].
  rewrite (proj2 (Z.eqb_neq _ _) Hp). by apply IH.
Qed.

Lemma fetch_no_panic (outcome : query_outcome V) progressReportSize :
  progressReportSize ≠ 0%Z → f_panic (fetch outcome progressReportSize) = false.
Proof.
  intros Hp. destruct outcome as [e|columnNames rows rowsErr]; [done|]. unfold fetch.
  pose proof (fetch_rows_no_panic columnNames progressReportSize rows Hp 0
                (MkFetch [] [] false) eq_refl) as Hpanic.
  destruct (fetch_rows _ _ _ _ _) as [acc totalRows]. cbn [fst] in Hpanic.
  rewrite Hpanic. by destruct rowsErr.
Qed.


(** A store-to-file transfer whose file is created and whose delimiter is
    accepted, with a report size other than zero. *)
Lemma store_to_file_stream_receiving (Sprintf_v : V → string) (c : Conn V) cfg fs tableName
    columns params query stream :
  Csv.validDelim (FlatFile.delim_of (Delimiter params)) = true →
  ProgressReportSize cfg ≠ 0%Z →
  store_to_file_stream Sprintf_v c cfg FlatFile.Created fs tableName columns params query stream
  ↔ let t := IngestClickHouseToFlatFile Sprintf_v c cfg FlatFile.Created fs tableName columns
               params query in
    ∃ m, interleave (f_events (sf_fetch t)) (FlatFile.wr_events (sf_write t)) m
         ∧ stream = m ++ [final_update (sf_result t)].
Proof.
  intros Hvalid Hp.
  assert (f_panic (sf_fetch (IngestClickHouseToFlatFile Sprintf_v c cfg FlatFile.Created fs
                               tableName columns params query)) = false) as Hpanic.
  { by apply fetch_no_panic. }
  unfold store_to_file_stream, receives. cbv zeta. rewrite Hvalid, Hpanic.
  unfold two_senders, cut_short. split.
  - intros (whole & (m & Hm & ->) & ->). by exists m.
  - intros (m & Hm & ->). eexists. split; [by exists m | done].
Qed.

(** A store-to-file transfer whose query and row iteration succeed sends
    one completed update, and sends it last. *)
Lemma store_to_file_stream_one_final (Sprintf_v : V → string) (c : Conn V) cfg fs tableName
    columns params query columnNames rows stream :
  (∀ q, Query c q = QueryRows columnNames rows None) →
  Csv.validDelim (FlatFile.delim_of (Delimiter params)) = true →
  ProgressReportSize cfg ≠ 0%Z →
  store_to_file_stream Sprintf_v c cfg FlatFile.Created fs tableName columns params query stream →
  ∃ events final,
    stream = events ++ [final]
    ∧ Completed final = true
    ∧ Forall (λ u, Completed u = false) events.
Proof.
  intros Hquery Hvalid Hp Hs.
  apply store_to_file_stream_receiving in Hs as (m & Hm & ->); [|done..].
  eexists m, _. split; [done|]. split.
  - unfold final_update. by destruct (sf_result _).
  - eapply interleave_Forall; [exact Hm | | apply WriteData_events].
    unfold IngestClickHouseToFlatFile. cbn [sf_fetch]. rewrite Hquery. unfold fetch.
    pose proof (fetch_rows_events columnNames (ProgressReportSize cfg) rows 0
                  (MkFetch [] [] false)) as Hev.
    destruct (fetch_rows _ _ _ _ _) as [acc totalRows]. cbn in Hev.
    destruct (f_panic acc); by apply Hev.
Qed.

(** An error of the row iteration doubles the completed update just as a
    failed query does. *)
Lemma store_to_file_stream_rows_error (Sprintf_v : V → string) (c : Conn V) cfg fs tableName
    columns params query columnNames rows e stream :
  (∀ q, Query c q = QueryRows columnNames rows (Some e)) →
  Csv.validDelim (FlatFile.delim_of (Delimiter params)) = true →
  ProgressReportSize cfg ≠ 0%Z →
  store_to_file_stream Sprintf_v c cfg FlatFile.Created fs tableName columns params query stream →
  completed_count stream = 2.
Proof.
  intros Hquery Hvalid Hp Hs.
  apply store_to_file_stream_receiving in Hs as (m & Hm & ->); [|done..].
  unfold IngestClickHouseToFlatFile in Hm |- *.
  cbn [sf_fetch sf_write sf_result] in Hm |- *. rewrite Hquery in Hm |- *.
  rewrite completed_count_app, (interleave_completed_count _ _ _ Hm).
  rewrite (completed_count_none _ (WriteData_events _ _ _ _ _ _ _ _)).
  assert (∀ res, completed_count [final_update res] = 1) as -> by (by intros []).
  pose proof (fetch_rows_no_panic columnNames (ProgressReportSize cfg) rows Hp 0
                (MkFetch [] [] false) eq_refl) as Hpanic.
  unfold fetch.
  pose proof (fetch_rows_events columnNames (ProgressReportSize cfg) rows 0
                (MkFetch [] [] false)) as Hev.
  destruct (fetch_rows _ _ _ _ _) as [acc totalRows]. cbn in Hev, Hpanic.
  rewrite Hpanic. cbn [f_events].
  rewrite completed_count_app, (completed_count_none _ (Hev (Forall_nil_2 _))). done.
Qed.
End transfers.

(** C2, as amended: when the sink rejects a batch, [InsertData] stops,
    the store keeps the batches accepted before and nothing else, and the
    count returned with the error is the number of those rows; the
    transfer's final update is an [error] update with [completed] set and
    count 0, the count having been reported only by the [processing]
    updates sent before. *)
Theorem C2_batch_failure_count_returned_final_update_zero
    {V : Type} (c : ClickHouse.Conn V) (cfg : Config) (fs : gmap string string)
    (params : Ingest.FlatFileParams) (tableName : string) (columns : list Column)
    (data : list (list FlatFile.value)) (e : string) :
  ClickHouse.CreateTable (Some c) tableName columns = None →
  FlatFile.ReadData fs (Ingest.FilePath params) (Ingest.Delimiter params) columns = Ok data →
  ClickHouse.ir_err (ClickHouse.InsertData (Some c) cfg tableName columns data) = Some e →
  let r := ClickHouse.InsertData (Some c) cfg tableName columns data in
  let t := Ingest.IngestFlatFileToClickHouse (Some c) cfg fs params tableName columns in
  Ingest.fs_stored t = ClickHouse.ir_stored r
  ∧ ClickHouse.ir_count r = Z.of_nat (length (concat (ClickHouse.ir_stored r)))
  ∧ (∃ query batch e',
        ClickHouse.AsyncInsert c (ClickHouse.ir_stored r) query batch = Some e'
        ∧ batch ≠ []
        ∧ concat (ClickHouse.ir_stored r) ++ batch `prefix_of` data)
  ∧ Handler.file_to_store_stream (Some c) cfg fs params tableName columns
    = ClickHouse.ir_events r
      ++ [MkProgress "error" ("failed to insert data: " +:+ e) 0 true]
  ∧ Forall (reported_below (ClickHouse.ir_count r)) (ClickHouse.ir_events r).
Proof.
  intros Hcreate Hread Herr. cbv zeta.
  destruct (InsertData_spec c cfg tableName columns data) as (Hcount & _ & Hev & _ & Hfail).
  unfold Handler.file_to_store_stream, Ingest.IngestFlatFileToClickHouse.
  rewrite Hcreate, Hread.
  cbn [Ingest.fs_stored Ingest.fs_events Ingest.fs_result]. rewrite Herr.
  split_and!; [done | done | | done | done].
  apply Hfail. by rewrite Herr.
Qed.

(** The amended statement on the sample file: batches of two rows, the
    second rejected. *)
Lemma C2_witness :
  let r := ClickHouse.InsertData (Some Sample.conn) Sample.cfg "t" Sample.columns
             [[FlatFile.VInt64 1]; [FlatFile.VInt64 2]; [FlatFile.VInt64 3]; [FlatFile.VInt64 4]] in
  let t := Ingest.IngestFlatFileToClickHouse (Some Sample.conn) Sample.cfg Sample.fs
             Sample.params "t" Sample.columns in
  Ingest.fs_stored t = ClickHouse.ir_stored r
  ∧ ClickHouse.ir_count r = Z.of_nat (length (concat (ClickHouse.ir_stored r)))
  ∧ (∃ query batch e',
        ClickHouse.AsyncInsert Sample.conn (ClickHouse.ir_stored r) query batch = Some e'
        ∧ batch ≠ []
        ∧ concat (ClickHouse.ir_stored r) ++ batch
          `prefix_of` [[FlatFile.VInt64 1]; [FlatFile.VInt64 2]; [FlatFile.VInt64 3];
                       [FlatFile.VInt64 4]])
  ∧ Handler.file_to_store_stream (Some Sample.conn) Sample.cfg Sample.fs Sample.params "t"
      Sample.columns
    = ClickHouse.ir_events r
      ++ [MkProgress "error" ("failed to insert data: " +:+ "failed to insert batch: rejected")
            0 true]
  ∧ Forall (reported_below (ClickHouse.ir_count r)) (ClickHouse.ir_events r).
Proof.
  apply (C2_batch_failure_count_returned_final_update_zero
           Sample.conn Sample.cfg Sample.fs Sample.params "t" Sample.columns
           [[FlatFile.VInt64 1]; [FlatFile.VInt64 2]; [FlatFile.VInt64 3]; [FlatFile.VInt64 4]]
           "failed to insert batch: rejected").
  - reflexivity.
  - vm_compute. reflexivity.
  - vm_compute. reflexivity.
Defined.

(** C2 as stated fails: with batches of two rows and a sink that rejects
    the second batch, two rows are in the store and [InsertData] returns
    the count 2, but the final update of the transfer carries count 0. *)
Lemma C2_counterexample :
  FlatFile.ReadData Sample.fs "in.csv" "," Sample.columns
  = Ok [[FlatFile.VInt64 1]; [FlatFile.VInt64 2]; [FlatFile.VInt64 3]; [FlatFile.VInt64 4]]
  ∧ ClickHouse.ir_count
      (ClickHouse.InsertData (Some Sample.conn) Sample.cfg "t" Sample.columns
         [[FlatFile.VInt64 1]; [FlatFile.VInt64 2]; [FlatFile.VInt64 3]; [FlatFile.VInt64 4]])
    = 2%Z
  ∧ Ingest.fs_stored
      (Ingest.IngestFlatFileToClickHouse (Some Sample.conn) Sample.cfg Sample.fs Sample.params
         "t" Sample.columns)
    = [[[FlatFile.VInt64 1]; [FlatFile.VInt64 2]]]
  ∧ ∃ final,
      last (Handler.file_to_store_stream (Some Sample.conn) Sample.cfg Sample.fs Sample.params
              "t" Sample.columns) = Some final
      ∧ Completed final = true
      ∧ Count final = 0%Z
      ∧ Count final ≠ 2%Z.
Proof.
  split_and!; [by vm_compute | by vm_compute | by vm_compute |].
  eexists. split; [by vm_compute|]. done.
Qed.

(** C1: when the query of a store-to-file transfer fails, the goroutine
    sends an [error] update with [completed] set, closes the data channel,
    [WriteData] then returns zero rows without error, and the handler
    sends a [success] update with [completed] set: the stream holds two
    completed updates and the first of them is not the last event. *)
Theorem C1_failed_query_sends_two_completed_updates
    {V : Type} (Sprintf_v : V → string) (c : ClickHouse.Conn V) (cfg : Config)
    (fs : gmap string string) (tableName : string) (columns : list Column)
    (params : Ingest.FlatFileParams) (query e : string) (stream : list ProgressUpdate) :
  Csv.validDelim (FlatFile.delim_of (Ingest.Delimiter params)) = true →
  (∀ q, ClickHouse.Query c q = ClickHouse.QueryFailed e) →
  Handler.store_to_file_stream Sprintf_v c cfg FlatFile.Created fs tableName columns params
    query stream
  ↔ stream = [ MkProgress "error" ("Failed to execute query: " +:+ e) 0 true;
               MkProgress "success" "Ingestion completed successfully" 0 true ].
Proof.
  intros Hdelim Hquery.
  unfold Handler.store_to_file_stream, Handler.receives, Ingest.IngestClickHouseToFlatFile.
  cbv zeta. rewrite Hdelim, Hquery.
  cbn [Ingest.fetch Ingest.f_sent Ingest.f_events Ingest.f_panic
       Ingest.sf_fetch Ingest.sf_write Ingest.sf_result].
  unfold FlatFile.WriteData, Csv.Write. rewrite Hdelim.
  cbn [negb FlatFile.write_rows FlatFile.wr_events FlatFile.wr_err FlatFile.wr_count
       FlatFile.w_events FlatFile.w_totalRows Handler.final_update].
  unfold Handler.two_senders, Handler.cut_short.
  split.
  - intros (whole & (m & Hm & ->) & ->). apply interleave_nil_r in Hm. by subst m.
  - intros ->. eexists. split; [|reflexivity].
    eexists [_]. split; [repeat constructor | reflexivity].
Qed.

(** The two completed updates of a transfer from a store that refuses
    the query. *)
Lemma C1_witness :
  Handler.store_to_file_stream (λ v : string, v) Sample.conn Sample.cfg FlatFile.Created ∅ "t"
    Sample.columns Sample.out_params ""
    [ MkProgress "error" ("Failed to execute query: " +:+ "connection refused") 0 true;
      MkProgress "success" "Ingestion completed successfully" 0 true ].
Proof.
  apply (C1_failed_query_sends_two_completed_updates (λ v : string, v) Sample.conn Sample.cfg ∅
           "t" Sample.columns Sample.out_params "" "connection refused").
  - reflexivity.
  - intros q. reflexivity.
  - reflexivity.
Defined.

(** ** Back-pressure *)

Section backpressure.
Import Pipeline.
Context {A : Type}.

Lemma step_buffer_bound (s s' : state A) :
  step s s' → length (buffer s) ≤ capacity → length (buffer s') ≤ capacity.
Proof.
  destruct 1; cbn; intros Hle; try done.
  - rewrite length_app. cbn. lia.
  - lia.
Qed.

End backpressure.

Section consumer_batch.
Import ClickHouse Pipeline.
Context {V : Type}.

(** Rows sent into an empty channel stay there until they are received,
    as long as the channel has room for them. *)
Lemma reachable_buffered {A : Type} (buf : list A) :
  ∀ pend, length buf ≤ capacity →
    rtc step (init (buf ++ pend)) (MkState pend buf false [] false false).
Proof.
  induction buf as [|x buf IH] using rev_ind; intros pend Hlen; [apply rtc_refl|].
  rewrite length_app in Hlen. cbn [length] in Hlen. rewrite <- (assoc_L (++)). cbn [app].
  eapply rtc_r; [apply IH; lia|]. apply step_send. lia.
Qed.

(** Every split of the rows into received, buffered and pending ones is
    reached, as long as the buffered ones fit the channel. *)
Lemma reachable_split {A : Type} (rcv : list A) :
  ∀ buf pend, length buf ≤ capacity →
    reachable (rcv ++ buf ++ pend) (MkState pend buf false rcv false false).
Proof.
  unfold reachable. induction rcv as [|x rcv IH] using rev_ind; intros buf pend Hlen.
  - apply (reachable_buffered buf pend Hlen).
  - destruct buf as [|y buf _] using rev_ind.
    + eapply rtc_r; [|apply step_receive]. rewrite <- (assoc_L (++)).
      apply (IH [x]). unfold capacity. cbn [length]. lia.
    + rewrite length_app in Hlen. cbn [length] in Hlen.
      eapply rtc_r; [|apply step_send; lia].
      eapply rtc_r; [|apply step_receive].
      replace ((rcv ++ [x]) ++ (buf ++ [y]) ++ pend) with (rcv ++ (x :: buf) ++ y :: pend)
        by (by rewrite <- !(assoc_L (++))).
      apply IH. cbn [length]. lia.
Qed.

(** The batch of [InsertData] never holds more rows than the batch size,
    a size below one counting as one. *)
Lemma insert_rows_batch_bound (c : Conn V) (cfg : Config) (query : string)
    (data : list (list FlatFile.value)) :
  ∀ st,
    length (i_batch st) < Nat.max 1 (BatchSize cfg) →
    length (i_batch (insert_rows c cfg query data st).1) ≤ Nat.max 1 (BatchSize cfg).
Proof.
  induction data as [|rowData data IH]; intros st Hst; cbn [insert_rows]; [cbn; lia|].
  destruct (BatchSize cfg <=? length (i_batch st ++ [rowData])) eqn:Hfull.
  - apply Nat.leb_le in Hfull. rewrite length_app in Hfull. cbn [length] in Hfull.
    destruct (AsyncInsert c (i_stored st) query (i_batch st ++ [rowData])) as [e|].
    + cbn. rewrite length_app. cbn. lia.
    + apply IH. cbn. lia.
  - apply Nat.leb_gt in Hfull. rewrite length_app in Hfull. cbn [length] in Hfull.
    apply IH. cbn [i_batch]. rewrite length_app. cbn [length]. lia.
Qed.

(** Below the batch size nothing is submitted: every row received is in
    the batch. *)
Lemma insert_rows_below_size (c : Conn V) (cfg : Config) (query : string)
    (data : list (list FlatFile.value)) :
  ∀ st,
    length (i_batch st) + length data < BatchSize cfg →
    insert_rows c cfg query data st
    = (MkInsertState (i_stored st) (i_batch st ++ data) (i_totalRows st)
         (i_lastReportedCount st) (i_events st), None).
Proof.
  induction data as [|rowData data IH]; intros st Hlen; cbn [insert_rows].
  - rewrite app_nil_r. by destruct st.
  - cbn [length] in Hlen.
    rewrite (proj2 (Nat.leb_gt _ _)) by (rewrite length_app; cbn [length]; lia).
    rewrite IH by (cbn [i_batch]; rewrite length_app; cbn [length]; lia).
    cbn [i_stored i_batch i_totalRows i_lastReportedCount i_events].
    by rewrite <- (assoc_L (++)).
Qed.
End consumer_batch.

(** C9, as amended: in every state a transfer can reach, the data channel
    buffers at most 100 rows; while it holds 100, no step adds a row to it
    or takes one from the producer, the only step that changes the buffer
    being the consumer's receive of its oldest row, after which the
    producer can send again.  The rows in memory are more than those in
    the channel: in a file-to-store transfer [InsertData] keeps the rows
    it has received in its batch, up to the batch size (one for a size
    below one), so the rows between file and store are bounded by 100
    plus the batch size, and by nothing less; as long as fewer rows have
    been received than the batch size, all of them are in that batch. *)
Theorem C9_held_rows_bounded_by_capacity_and_batch
    {V : Type} (c : ClickHouse.Conn V) (cfg : Config) (query : string)
    (rows : list (list FlatFile.value)) (s : Pipeline.state (list FlatFile.value)) :
  Pipeline.reachable rows s →
  length (Pipeline.buffer s) ≤ 100
  ∧ (length (Pipeline.buffer s) = 100 →
     ∀ s', Pipeline.step s s' →
       Pipeline.pending s' = Pipeline.pending s
       ∧ (Pipeline.buffer s' = Pipeline.buffer s
          ∨ (∃ row, Pipeline.buffer s = row :: Pipeline.buffer s'
                    ∧ Pipeline.received s' = Pipeline.received s ++ [row]
                    ∧ length (Pipeline.buffer s') < Pipeline.capacity)))
  ∧ held_rows c cfg query s ≤ 100 + Nat.max 1 (BatchSize cfg)
  ∧ (length (Pipeline.received s) < BatchSize cfg →
     held_rows c cfg query s
     = length (Pipeline.buffer s) + length (Pipeline.received s)).
Proof.
  intros Hs.
  assert (length (Pipeline.buffer s) ≤ 100) as Hbuffer.
  { change 100 with Pipeline.capacity.
    unfold Pipeline.reachable in Hs. revert s Hs. apply rtc_ind_r.
    + cbn. unfold Pipeline.capacity. lia.
    + eauto using step_buffer_bound. }
  split_and!.
  - done.
  - intros Hfull s' Hstep.
    destruct Hstep; cbn in *; try (split; [done | by left]).
    + unfold Pipeline.capacity in *. lia.
    + split; [done|]. right. exists row. split_and!; [done | done |].
      unfold Pipeline.capacity. lia.
  - unfold held_rows.
    pose proof (insert_rows_batch_bound c cfg query (Pipeline.received s)
                  (ClickHouse.MkInsertState [] [] 0 0 [])) as Hbatch.
    cbn [ClickHouse.i_batch length] in Hbatch. lia.
  - intros Hfew. unfold held_rows.
    rewrite insert_rows_below_size by (cbn; lia). done.
Qed.

(** A full channel: 100 rows are buffered, three are with the consumer,
    in a batch of five, and two are still to be sent. *)
Lemma C9_witness :
  let row := [FlatFile.VInt64 0] in
  let cfg := MkConfig 5 5000 in
  let s := Pipeline.MkState (replicate 2 row) (replicate 100 row) false (replicate 3 row)
             false false in
  length (Pipeline.buffer s) ≤ 100
  ∧ (length (Pipeline.buffer s) = 100 →
     ∀ s', Pipeline.step s s' →
       Pipeline.pending s' = Pipeline.pending s
       ∧ (Pipeline.buffer s' = Pipeline.buffer s
          ∨ (∃ row, Pipeline.buffer s = row :: Pipeline.buffer s'
                    ∧ Pipeline.received s' = Pipeline.received s ++ [row]
                    ∧ length (Pipeline.buffer s') < Pipeline.capacity)))
  ∧ held_rows Sample.conn cfg "INSERT" s ≤ 100 + Nat.max 1 (BatchSize cfg)
  ∧ (length (Pipeline.received s) < BatchSize cfg →
     held_rows Sample.conn cfg "INSERT" s
     = length (Pipeline.buffer s) + length (Pipeline.received s)).
Proof.
  apply (C9_held_rows_bounded_by_capacity_and_batch Sample.conn (MkConfig 5 5000) "INSERT"
           (replicate 3 [FlatFile.VInt64 0] ++ replicate 100 [FlatFile.VInt64 0]
              ++ replicate 2 [FlatFile.VInt64 0])).
  apply reachable_split. vm_compute. lia.
Defined.

(** C9 as stated fails for the memory it bounds: with a batch size of
    1000, a transfer of 250 rows reaches a state in which the channel
    holds its 100 rows while [InsertData] holds 150 more in its batch and
    the store has none; 250 rows are in memory, not 100. *)
Lemma C9_counterexample :
  let row := [FlatFile.VInt64 0] in
  let cfg := MkConfig 1000 5000 in
  let s := Pipeline.MkState [] (replicate 100 row) false (replicate 150 row) false false in
  let consumer :=
    (ClickHouse.insert_rows Sample.conn cfg "INSERT" (Pipeline.received s)
       (ClickHouse.MkInsertState [] [] 0 0 [])).1 in
  Pipeline.reachable (replicate 250 row) s
  ∧ length (Pipeline.buffer s) = Pipeline.capacity
  ∧ ClickHouse.i_stored consumer = []
  ∧ length (ClickHouse.i_batch consumer) = 150
  ∧ held_rows Sample.conn cfg "INSERT" s = 250
  ∧ ¬ held_rows Sample.conn cfg "INSERT" s ≤ Pipeline.capacity.
Proof.
  cbv zeta. split_and!.
  - apply (reachable_split (replicate 150 [FlatFile.VInt64 0])
             (replicate 100 [FlatFile.VInt64 0]) []).
    vm_compute. lia.
  - by vm_compute.
  - by vm_compute.
  - by vm_compute.
  - by vm_compute.
  - vm_compute. lia.
Qed.

(** ** Bytes, runes and lines *)

Section bytes.
Import Strconv Utf8 Csv.

Lemma code_range (a : ascii) : (0 ≤ code a < 256)%Z.
Proof. unfold code. pose proof (N_ascii_bounded a). lia. Qed.

Lemma byte_of_code (a : ascii) : byte_of (code a) = a.
Proof. unfold byte_of, code. by rewrite N2Z.id, ascii_N_embedding. Qed.

Lemma code_byte_of (z : Z) : (0 ≤ z < 256)%Z → code (byte_of z) = z.
Proof. intros Hz. unfold byte_of, code. rewrite N_ascii_embedding; lia. Qed.

Lemma eqb_code (a b : ascii) : Ascii.eqb a b = (code a =? code b)%Z.
Proof.
  destruct (Ascii.eqb_spec a b) as [->|Hne].
  - by rewrite Z.eqb_refl.
  - symmetry. apply Z.eqb_neq. intros Heq. apply Hne.
    by rewrite <- (byte_of_code a), <- (byte_of_code b), Heq.
Qed.

Lemma string_length_app (s t : string) :
  String.length (s +:+ t) = String.length s + String.length t.
Proof. induction s as [|a s IH]; [done|]. rewrite string_app_cons. cbn. by rewrite IH. Qed.

Lemma any_byte_app (p : ascii → bool) (s t : string) :
  any_byte p (s +:+ t) = any_byte p s || any_byte p t.
Proof.
  induction s as [|a s IH]; [done|]. rewrite string_app_cons. cbn.
  by rewrite IH, orb_assoc.
Qed.

Lemma decode_ascii (a : ascii) (s : string) :
  (code a < 128)%Z → DecodeRuneInString (String a s) = (code a, 1).
Proof. intros Ha. unfold DecodeRuneInString. by rewrite (proj2 (Z.ltb_lt _ _) Ha). Qed.

Lemma cut_byte_found (a : ascii) (x s : string) :
  no_byte a x → cut (String a "") (x +:+ String a s) = Some (x, s).
Proof.
  unfold no_byte. induction x as [|b x IH]; intros Hx.
  - rewrite string_app_nil_l. cbn. by rewrite Ascii.eqb_refl.
  - cbn in Hx. apply orb_false_iff in Hx as [Hb Hx].
    rewrite string_app_cons. cbn. rewrite Ascii.eqb_sym, Hb.
    by rewrite (IH Hx).
Qed.

Lemma cut_byte_none (a : ascii) (x : string) :
  no_byte a x → cut (String a "") x = None.
Proof.
  unfold no_byte. induction x as [|b x IH]; intros Hx; [done|].
  cbn in Hx. apply orb_false_iff in Hx as [Hb Hx].
  cbn. rewrite Ascii.eqb_sym, Hb. by rewrite (IH Hx).
Qed.

Lemma no_byte_app (a : ascii) (s t : string) :
  no_byte a (s +:+ t) ↔ no_byte a s ∧ no_byte a t.
Proof. unfold no_byte. rewrite any_byte_app. apply orb_false_iff. Qed.

Lemma line_split_app (x s : string) :
  no_byte LF x → line_split (x +:+ s) = (x +:+ (line_split s).1, (line_split s).2).
Proof.
  unfold no_byte. induction x as [|b x IH]; intros Hx.
  - rewrite !string_app_nil_l. by destruct (line_split s).
  - cbn in Hx. apply orb_false_iff in Hx as [Hb Hx].
    rewrite !string_app_cons. cbn [line_split]. rewrite Hb, (IH Hx). done.
Qed.

Lemma readLine_loop_no_crlf (s : string) :
  no_crlf s = true → readLine_loop s = line_split s.
Proof.
  induction s as [|a s IH]; [done|]. cbn [no_crlf readLine_loop line_split].
  intros [Ha Hs]%andb_true_iff. rewrite (IH Hs).
  destruct (Ascii.eqb a LF) eqn:HLF; [done|].
  destruct (Ascii.eqb a CR) eqn:HCR; [|done].
  destruct s as [|b s]; [done|]. apply negb_true_iff in Ha. by rewrite Ha.
Qed.

Lemma no_crlf_app_r (x s : string) : no_crlf (x +:+ s) = true → no_crlf s = true.
Proof.
  induction x as [|a x IH]; [done|]. rewrite string_app_cons. cbn [no_crlf].
  intros [_ H]%andb_true_iff. auto.
Qed.

Lemma lengthNL_le (s : string) : lengthNL s ≤ 1.
Proof. unfold lengthNL. destruct (ends_with_LF s); lia. Qed.

Lemma not_empty_line (a : ascii) (l : string) :
  Ascii.eqb a LF = false → (String.length (String a l) =? lengthNL (String a l)) = false.
Proof.
  intros Ha. apply Nat.eqb_neq. destruct l as [|b l].
  - unfold lengthNL. cbn. rewrite Ha. done.
  - pose proof (lengthNL_le (String a (String b l))). cbn in *. lia.
Qed.

Lemma ends_with_LF_app (x : string) : ends_with_LF (x +:+ String LF "") = true.
Proof.
  induction x as [|a x IH]; [done|]. rewrite string_app_cons. cbn [ends_with_LF].
  destruct (x +:+ String LF "") eqn:E; [by destruct x|done].
Qed.

Lemma str_take_app (x y : string) : str_take (String.length x) (x +:+ y) = x.
Proof.
  induction x as [|a x IH]; [by destruct y|]. rewrite string_app_cons. cbn. by rewrite IH.
Qed.
End bytes.

(** ** The encoding of a rune and its decoding *)

Section utf8_encoding.
Import Strconv Utf8 Csv.

Lemma lor_low (a b n : Z) :
  (0 ≤ n)%Z → (0 ≤ b < 2 ^ n)%Z → Z.lor (a * 2 ^ n) b = (a * 2 ^ n + b)%Z.
Proof.
  intros Hn Hb.
  assert (Z.land (a * 2 ^ n) b = 0%Z) as Hland.
  { apply Z.bits_inj'. intros m Hm. rewrite Z.land_spec, Z.bits_0.
    destruct (Z.lt_ge_cases m n) as [Hlt|Hge].
    - by rewrite Z.mul_pow2_bits_low.
    - destruct (Z.eq_dec b 0%Z) as [->|Hb0]; [by rewrite Z.bits_0, andb_false_r|].
      assert (Z.log2 b < n)%Z by (apply Z.log2_lt_pow2; lia).
      rewrite (Z.bits_above_log2 b m), andb_false_r; [done | lia | lia]. }
  by rewrite <- Z.lxor_lor, <- Z.add_nocarry_lxor.
Qed.

Lemma lor_128 (q : Z) : (0 ≤ q < 128)%Z → Z.lor 128 q = (128 + q)%Z.
Proof. intros Hq. apply (lor_low 1 q 7); [done|]. by change (2 ^ 7)%Z with 128%Z. Qed.

Lemma lor_192 (q : Z) : (0 ≤ q < 64)%Z → Z.lor 192 q = (192 + q)%Z.
Proof. intros Hq. apply (lor_low 3 q 6); [done|]. by change (2 ^ 6)%Z with 64%Z. Qed.

Lemma lor_224 (q : Z) : (0 ≤ q < 32)%Z → Z.lor 224 q = (224 + q)%Z.
Proof. intros Hq. apply (lor_low 7 q 5); [done|]. by change (2 ^ 5)%Z with 32%Z. Qed.

Lemma lor_240 (q : Z) : (0 ≤ q < 16)%Z → Z.lor 240 q = (240 + q)%Z.
Proof. intros Hq. apply (lor_low 15 q 4); [done|]. by change (2 ^ 4)%Z with 16%Z. Qed.

Lemma lor_shiftl_6 (a b : Z) : (0 ≤ b < 64)%Z → Z.lor (Z.shiftl a 6) b = (a * 64 + b)%Z.
Proof. intros Hb. rewrite Z.shiftl_mul_pow2 by done. by apply (lor_low a b 6). Qed.

Lemma lor_shiftl_12 (a b : Z) : (0 ≤ b < 4096)%Z → Z.lor (Z.shiftl a 12) b = (a * 4096 + b)%Z.
Proof. intros Hb. rewrite Z.shiftl_mul_pow2 by done. by apply (lor_low a b 12). Qed.

Lemma lor_shiftl_18 (a b : Z) :
  (0 ≤ b < 262144)%Z → Z.lor (Z.shiftl a 18) b = (a * 262144 + b)%Z.
Proof. intros Hb. rewrite Z.shiftl_mul_pow2 by done. by apply (lor_low a b 18). Qed.

Lemma land_7 (a : Z) : Z.land a 7 = (a mod 8)%Z.
Proof. apply (Z.land_ones a 3). done. Qed.

Lemma land_15 (a : Z) : Z.land a 15 = (a mod 16)%Z.
Proof. apply (Z.land_ones a 4). done. Qed.

Lemma land_31 (a : Z) : Z.land a 31 = (a mod 32)%Z.
Proof. apply (Z.land_ones a 5). done. Qed.

Lemma land_63 (a : Z) : Z.land a 63 = (a mod 64)%Z.
Proof. apply (Z.land_ones a 6). done. Qed.

Lemma shiftr_6 (a : Z) : Z.shiftr a 6 = (a / 64)%Z.
Proof. by rewrite Z.shiftr_div_pow2. Qed.

Lemma shiftr_12 (a : Z) : Z.shiftr a 12 = (a / 4096)%Z.
Proof. by rewrite Z.shiftr_div_pow2. Qed.

Lemma shiftr_18 (a : Z) : Z.shiftr a 18 = (a / 262144)%Z.
Proof. by rewrite Z.shiftr_div_pow2. Qed.

(** The bytes of a rune of two, three or four bytes. *)
Lemma encode_2 (r : Z) :
  (128 ≤ r ≤ 2047)%Z →
  EncodeRune r
  = String (byte_of (192 + r / 64)) (String (byte_of (128 + r mod 64)) "").
Proof.
  intros Hr. unfold EncodeRune, between.
  rewrite (proj2 (andb_false_iff _ _)) by (right; lia).
  rewrite (proj2 (andb_true_iff _ _)) by (split; lia).
  rewrite shiftr_6, land_63, lor_192, lor_128; [done | |];
    Z.div_mod_to_equations; lia.
Qed.

Lemma encode_3 (r : Z) :
  (2048 ≤ r ≤ 65535)%Z → ValidRune r = true →
  EncodeRune r
  = String (byte_of (224 + r / 4096))
      (String (byte_of (128 + (r / 64) mod 64)) (String (byte_of (128 + r mod 64)) "")).
Proof.
  intros Hr Hvalid. unfold EncodeRune. rewrite Hvalid. unfold between.
  rewrite !(proj2 (andb_false_iff _ _)) by (right; lia).
  cbn [negb]. rewrite (proj2 (Z.leb_le _ _)) by lia.
  rewrite shiftr_12, shiftr_6, !land_63, lor_224, !lor_128; [done | | |];
    Z.div_mod_to_equations; lia.
Qed.

Lemma encode_4 (r : Z) :
  (65536 ≤ r ≤ 1114111)%Z →
  EncodeRune r
  = String (byte_of (240 + r / 262144))
      (String (byte_of (128 + (r / 4096) mod 64))
         (String (byte_of (128 + (r / 64) mod 64)) (String (byte_of (128 + r mod 64)) ""))).
Proof.
  intros Hr. unfold EncodeRune, ValidRune, MaxRune, between.
  rewrite !(proj2 (andb_false_iff _ _)) by (right; lia).
  rewrite (proj2 (andb_true_iff _ _)) by (split; lia).
  cbn [orb negb]. rewrite (proj2 (Z.leb_gt _ _)) by lia.
  rewrite shiftr_18, shiftr_12, shiftr_6, !land_63, lor_240, !lor_128; [done | | | |];
    Z.div_mod_to_equations; lia.
Qed.
End utf8_encoding.

(** Decides the comparisons of a goal between terms built with division
    and remainder by constants. *)
Ltac solve_div_mod := Z.div_mod_to_equations; lia.

Ltac decide_comparisons :=
  repeat match goal with
         | |- context [(?a <=? ?b)%Z] =>
             first [ rewrite (proj2 (Z.leb_le a b)) by solve_div_mod
                   | rewrite (proj2 (Z.leb_gt a b)) by solve_div_mod ]
         | |- context [(?a <? ?b)%Z] =>
             first [ rewrite (proj2 (Z.ltb_lt a b)) by solve_div_mod
                   | rewrite (proj2 (Z.ltb_ge a b)) by solve_div_mod ]
         | |- context [(?a =? ?b)%Z] =>
             first [ rewrite (proj2 (Z.eqb_eq a b)) by solve_div_mod
                   | rewrite (proj2 (Z.eqb_neq a b)) by solve_div_mod ]
         end.

Section utf8_decoding.
Import Strconv Utf8 Csv.

Lemma valid_rune_range (r : Z) :
  ValidRune r = true → (0 ≤ r ≤ 55295 ∨ 57344 ≤ r ≤ 1114111)%Z.
Proof. unfold ValidRune, between, MaxRune. lia. Qed.

Lemma encode_1 (r : Z) : (0 ≤ r ≤ 127)%Z → EncodeRune r = String (byte_of r) "".
Proof.
  intros Hr. unfold EncodeRune, between.
  by rewrite (proj2 (andb_true_iff _ _)) by (split; lia).
Qed.

(** Decoding gives back the rune that was encoded, whatever follows. *)
Lemma decode_encode (r : Z) (s : string) :
  ValidRune r = true →
  DecodeRuneInString (EncodeRune r +:+ s) = (r, String.length (EncodeRune r)).
Proof.
  intros Hvalid. pose proof (valid_rune_range r Hvalid) as Hr.
  destruct (Z.le_gt_cases r 127) as [H1|H1];
    [|destruct (Z.le_gt_cases r 2047) as [H2|H2];
      [|destruct (Z.le_gt_cases r 65535) as [H3|H3]]].
  - rewrite encode_1 by lia. cbn [String.length].
    rewrite string_app_cons, decode_ascii; rewrite code_byte_of by lia; [done | lia].
  - rewrite encode_2 by lia. cbn [String.length]. rewrite !string_app_cons.
    unfold DecodeRuneInString, cont, low6, between.
    rewrite !code_byte_of by solve_div_mod.
    decide_comparisons. cbn [andb]. rewrite land_31, land_63, lor_shiftl_6 by solve_div_mod.
    f_equal. solve_div_mod.
  - rewrite encode_3 by (done || lia). cbn [String.length]. rewrite !string_app_cons.
    unfold DecodeRuneInString, cont, low6, between.
    rewrite !code_byte_of by solve_div_mod.
    assert (r / 4096 = 0 ∨ r / 4096 = 13 ∨ (r / 4096 ≠ 0 ∧ r / 4096 ≠ 13))%Z
      as [H0|[H13|[H0 H13]]] by lia.
    + rewrite H0 in *. cbn [Z.add]. decide_comparisons. cbn [andb].
      rewrite land_15, !land_63, lor_shiftl_6, lor_shiftl_12 by solve_div_mod.
      f_equal. solve_div_mod.
    + rewrite H13 in *. cbn [Z.add]. decide_comparisons. cbn [andb].
      rewrite land_15, !land_63, lor_shiftl_6, lor_shiftl_12 by solve_div_mod.
      f_equal. solve_div_mod.
    + decide_comparisons. cbn [andb].
      rewrite land_15, !land_63, lor_shiftl_6, lor_shiftl_12 by solve_div_mod.
      f_equal. solve_div_mod.
  - rewrite encode_4 by lia. cbn [String.length]. rewrite !string_app_cons.
    unfold DecodeRuneInString, cont, low6, between.
    rewrite !code_byte_of by solve_div_mod.
    assert (r / 262144 = 0 ∨ r / 262144 = 4 ∨ (r / 262144 ≠ 0 ∧ r / 262144 ≠ 4))%Z
      as [H0|[H4|[H0 H4]]] by lia.
    + rewrite H0 in *. cbn [Z.add]. decide_comparisons. cbn [andb].
      rewrite land_7, !land_63, lor_shiftl_6, lor_shiftl_12, lor_shiftl_18 by solve_div_mod.
      f_equal. solve_div_mod.
    + rewrite H4 in *. cbn [Z.add]. decide_comparisons. cbn [andb].
      rewrite land_7, !land_63, lor_shiftl_6, lor_shiftl_12, lor_shiftl_18 by solve_div_mod.
      f_equal. solve_div_mod.
    + decide_comparisons. cbn [andb].
      rewrite land_7, !land_63, lor_shiftl_6, lor_shiftl_12, lor_shiftl_18 by solve_div_mod.
      f_equal. solve_div_mod.
Qed.
End utf8_decoding.

(** ** Searching a text for the delimiter *)

Section search.
Import Strconv Utf8 Csv.

Lemma no_byte_head (a b : ascii) (s : string) :
  no_byte a (String b s) → Ascii.eqb b a = false.
Proof. unfold no_byte. cbn. by intros [? _]%orb_false_iff. Qed.

Lemma encode_shape (r : Z) :
  ValidRune r = true →
  ∃ e0 erest,
    EncodeRune r = String e0 erest
    ∧ ((r < 128 ∧ code e0 = r ∧ erest = "")%Z
       ∨ (128 ≤ r ∧ 192 ≤ code e0
          ∧ any_byte (λ b, negb (between 128 (code b) 191)) erest = false)%Z).
Proof.
  intros Hvalid. pose proof (valid_rune_range r Hvalid) as Hr.
  destruct (Z.le_gt_cases r 127) as [H1|H1];
    [|destruct (Z.le_gt_cases r 2047) as [H2|H2];
      [|destruct (Z.le_gt_cases r 65535) as [H3|H3]]].
  - rewrite encode_1 by lia. eexists _, _. split; [done|]. left.
    rewrite code_byte_of by lia. split_and!; [lia | done | done].
  - rewrite encode_2 by lia. eexists _, _. split; [done|]. right.
    cbn [any_byte]. unfold between. rewrite !code_byte_of by solve_div_mod.
    split_and!; [lia | solve_div_mod |]. decide_comparisons. done.
  - rewrite encode_3 by (done || lia). eexists _, _. split; [done|]. right.
    cbn [any_byte]. unfold between. rewrite !code_byte_of by solve_div_mod.
    split_and!; [lia | solve_div_mod |]. decide_comparisons. done.
  - rewrite encode_4 by lia. eexists _, _. split; [done|]. right.
    cbn [any_byte]. unfold between. rewrite !code_byte_of by solve_div_mod.
    split_and!; [lia | solve_div_mod |]. decide_comparisons. done.
Qed.

(** A byte that is neither ASCII nor a lead byte cannot follow a text
    without changing its first rune; every other byte can. *)
Lemma decode_app_lead (f : string) (a : ascii) (s : string) :
  f ≠ "" → (code a < 128 ∨ 191 < code a)%Z →
  (DecodeRuneInString (f +:+ String a s)).1 = (DecodeRuneInString f).1.
Proof.
  intros Hf Ha.
  assert (cont a = false) as Hcont by (unfold cont, between; lia).
  assert (∀ lo hi, (128 ≤ lo)%Z → (hi ≤ 191)%Z → between lo (code a) hi = false) as Hbtw.
  { intros lo hi Hlo Hhi. unfold between. lia. }
  destruct f as [|p0 f]; [done|]. rewrite string_app_cons.
  unfold DecodeRuneInString.
  destruct (code p0 <? 128)%Z; [done|].
  repeat (rewrite ?string_app_cons, ?string_app_nil_l, ?Hcont, ?andb_false_r;
          rewrite ?Hbtw by lia; try done;
          match goal with
          | |- context [match ?x with EmptyString => _ | String _ _ => _ end] =>
              is_var x; destruct x
          | |- context [if ?b then _ else _] => destruct b
          end).
Qed.

Lemma str_drop_app (x y : string) : str_drop (String.length x) (x +:+ y) = y.
Proof. induction x as [|a x IH]; [by destruct y|]. by rewrite string_app_cons. Qed.

Lemma strip_prefix_app (pat s : string) : strip_prefix pat (pat +:+ s) = Some s.
Proof.
  induction pat as [|p pat IH]; [by destruct s|].
  rewrite string_app_cons. cbn. by rewrite Ascii.eqb_refl.
Qed.

(** A pattern found at the front of [g +:+ t] but not of [g] runs over the
    end of [g]: the first byte of [t] is the byte of the pattern after
    [g]. *)
Lemma strip_prefix_split (pat : string) :
  ∀ g t r,
    strip_prefix pat (g +:+ t) = Some r → strip_prefix pat g = None →
    ∃ b rest t', pat = g +:+ String b rest ∧ t = String b t'.
Proof.
  induction pat as [|p pat IH]; intros g t r Hfound Hnone; [by destruct g|].
  destruct g as [|a g].
  - rewrite string_app_nil_l in *. destruct t as [|b t']; [done|]. cbn in Hfound.
    destruct (Ascii.eqb p b) eqn:Hpb; [|done]. apply Ascii.eqb_eq in Hpb as ->.
    by exists b, pat, t'.
  - rewrite string_app_cons in Hfound. cbn in Hfound, Hnone.
    destruct (Ascii.eqb p a) eqn:Hpa; [|done]. apply Ascii.eqb_eq in Hpa as ->.
    destruct (IH g t r Hfound Hnone) as (b & rest & t' & -> & ->).
    by exists b, rest, t'.
Qed.

Lemma cut_cons_None (pat : string) (a : ascii) (f : string) :
  cut pat (String a f) = None → strip_prefix pat (String a f) = None ∧ cut pat f = None.
Proof.
  cbn [cut]. destruct (strip_prefix pat (String a f)); [done|].
  destruct (cut pat f) as [[before after]|]; done.
Qed.

(** The first occurrence of a pattern after a text that holds none, when
    the byte the pattern starts with occurs nowhere else in it. *)
Lemma cut_app_found (pat : string) (b : ascii) (rest f s : string) :
  pat = String b rest → no_byte b rest → cut pat f = None →
  cut pat (f +:+ pat +:+ s) = Some (f, s).
Proof.
  intros Hpat Hrest. induction f as [|a f IH]; intros Hnone.
  - rewrite string_app_nil_l. pose proof (strip_prefix_app pat s) as Hfront.
    rewrite Hpat in *. rewrite string_app_cons in *. cbn [cut]. by rewrite Hfront.
  - apply cut_cons_None in Hnone as [Hfront Hnone]. specialize (IH Hnone).
    rewrite string_app_cons. cbn [cut]. rewrite <- string_app_cons.
    destruct (strip_prefix pat (String a f +:+ pat +:+ s)) as [r|] eqn:Hfound.
    + exfalso.
      destruct (strip_prefix_split _ _ _ _ Hfound Hfront) as (b' & rest' & t' & Hsplit & Ht).
      rewrite Hpat, string_app_cons in Ht. injection Ht as <- _.
      rewrite Hpat, string_app_cons in Hsplit. injection Hsplit as _ Hsplit.
      rewrite Hsplit in Hrest. apply no_byte_app in Hrest as [_ Hrest].
      unfold no_byte in Hrest. cbn in Hrest. by rewrite Ascii.eqb_refl in Hrest.
    + by rewrite IH.
Qed.

(** A byte that is not in the pattern does not complete an occurrence. *)
Lemma cut_app_none (pat : string) (b : ascii) (f : string) :
  no_byte b pat → cut pat f = None → cut pat (f +:+ String b "") = None.
Proof.
  intros Hb. induction f as [|a f IH]; intros Hnone.
  - rewrite string_app_nil_l. destruct pat as [|p pat]; [done|].
    cbn. by rewrite (no_byte_head _ _ _ Hb).
  - apply cut_cons_None in Hnone as [Hfront Hnone]. specialize (IH Hnone).
    rewrite string_app_cons. cbn [cut]. rewrite <- string_app_cons.
    destruct (strip_prefix pat (String a f +:+ String b "")) as [r|] eqn:Hfound.
    + exfalso.
      destruct (strip_prefix_split _ _ _ _ Hfound Hfront) as (b' & rest' & t' & Hsplit & Ht).
      injection Ht as <- _. rewrite Hsplit in Hb. apply no_byte_app in Hb as [_ Hb].
      unfold no_byte in Hb. cbn in Hb. by rewrite Ascii.eqb_refl in Hb.
    + by rewrite IH.
Qed.
End search.

(** ** Reading back what the writer wrote *)

Section csv_roundtrip.
Import Strconv Utf8 Csv.
Context (comma : Z) (Hvalid : validDelim comma = true).

Local Abbreviation enc := (EncodeRune comma).

Lemma comma_plain : comma ≠ 0%Z ∧ comma ≠ 34%Z ∧ comma ≠ 13%Z ∧ comma ≠ 10%Z.
Proof.
  pose proof Hvalid as Hv. unfold validDelim in Hv.
  repeat (apply andb_true_iff in Hv as [Hv ?]).
  repeat match goal with H : negb _ = true |- _ => apply negb_true_iff, Z.eqb_neq in H end.
  done.
Qed.

Lemma comma_rune : ValidRune comma = true.
Proof.
  pose proof Hvalid as Hv. unfold validDelim in Hv.
  by repeat (apply andb_true_iff in Hv as [Hv ?]).
Qed.

Lemma any_byte_weaken (p q : ascii → bool) (s : string) :
  (∀ b, q b = true → p b = true) → any_byte p s = false → any_byte q s = false.
Proof.
  intros Hpq. induction s as [|a s IH]; [done|]. cbn.
  intros [Ha Hs]%orb_false_iff. rewrite (IH Hs), orb_false_r.
  destruct (q a) eqn:Hq; [|done]. by rewrite (Hpq a Hq) in Ha.
Qed.

(** The bytes of the delimiter: its first byte is no continuation byte
    and occurs nowhere after, and none is a line feed, a carriage return
    or a quote. *)
Lemma enc_shape :
  ∃ e0 erest,
    enc = String e0 erest
    ∧ (code e0 < 128 ∨ 191 < code e0)%Z
    ∧ no_byte e0 erest
    ∧ no_byte LF enc ∧ no_byte CR enc ∧ no_byte QUOTE enc.
Proof.
  destruct comma_plain as (_ & HQ & HCR & HLF).
  destruct (encode_shape comma comma_rune) as (e0 & erest & Henc & Hshape).
  exists e0, erest. rewrite Henc. unfold no_byte. cbn [any_byte]. rewrite !eqb_code.
  destruct Hshape as [(Hsmall & Hcode & ->)|(Hbig & Hlead & Hrest)].
  - rewrite Hcode.
    split_and!; [done | lia | done | | |]; by rewrite (proj2 (Z.eqb_neq _ _)).
  - assert (∀ a, (code a < 128 ∨ 191 < code a)%Z → any_byte (λ b, Ascii.eqb b a) erest = false)
      as Hnone.
    { intros a Ha. eapply any_byte_weaken; [|exact Hrest]. cbv beta.
      intros b ->%Ascii.eqb_eq. unfold between. lia. }
    rewrite !Hnone by first [left; reflexivity | lia]. rewrite !orb_false_r.
    split_and!; [done | lia | done | | |];
      apply Z.eqb_neq; intros E; rewrite E in Hlead; by apply Hlead.
Qed.

Lemma enc_length : 1 ≤ String.length enc.
Proof. destruct enc_shape as (e0 & erest & -> & _). cbn. lia. Qed.

Lemma decode_comma (l : string) :
  DecodeRuneInString (enc +:+ l) = (comma, String.length enc).
Proof. apply decode_encode, comma_rune. Qed.

Lemma cut_enc_empty : cut enc "" = None.
Proof. by destruct enc_shape as (e0 & erest & -> & _). Qed.

Lemma cut_enc_found (f s : string) :
  cut enc f = None → cut enc (f +:+ enc +:+ s) = Some (f, s).
Proof.
  destruct enc_shape as (e0 & erest & Henc & _ & Hrest & _).
  by apply (cut_app_found enc e0 erest).
Qed.

Lemma cut_enc_line (f : string) :
  cut enc f = None → cut enc (f +:+ String LF "") = None.
Proof. destruct enc_shape as (_ & _ & _ & _ & _ & HLF & _). by apply cut_app_none. Qed.

(** A field written without quotes is empty, or free of line feeds,
    carriage returns, quotes and delimiters and does not start with
    white space. *)
Lemma bare_inv (f : string) :
  fieldNeedsQuotes comma f = false →
  f = ""
  ∨ (no_byte LF f ∧ no_byte CR f ∧ no_byte QUOTE f
     ∧ IsSpace (DecodeRuneInString f).1 = false).
Proof.
  unfold fieldNeedsQuotes. case_bool_decide; [by left|].
  case_bool_decide; [done|]. intros Hq. right.
  assert (any_byte (λ b, Ascii.eqb b QUOTE || Ascii.eqb b CR || Ascii.eqb b LF) f = false
          ∧ IsSpace (DecodeRuneInString f).1 = false) as [Hany Hsp].
  { destruct (comma <? 128)%Z.
    - destruct (any_byte _ f) eqn:Hany; [done|]. split; [|done].
      eapply any_byte_weaken; [|exact Hany]. cbv beta. intros b Hb.
      repeat (apply orb_true_iff in Hb as [Hb|Hb]); rewrite Hb; by rewrite ?orb_true_r.
    - destruct (bool_decide _); [done|]. by destruct (any_byte _ f). }
  split_and!; [| | |done];
    (eapply any_byte_weaken; [|exact Hany]); intros b Hb; cbv beta in *;
    rewrite Hb; by rewrite ?orb_true_r.
Qed.

(** A field written without quotes does not hold the delimiter. *)
Lemma bare_cut (f : string) : fieldNeedsQuotes comma f = false → cut enc f = None.
Proof.
  unfold fieldNeedsQuotes. case_bool_decide as Hempty; [subst f; intros _; apply cut_enc_empty|].
  case_bool_decide; [done|].
  destruct (comma <? 128)%Z eqn:Hsmall.
  - destruct (any_byte _ f) eqn:Hany; [done|]. intros _.
    pose proof (valid_rune_range comma comma_rune).
    rewrite encode_1 by lia. apply cut_byte_none.
    eapply any_byte_weaken; [|exact Hany]. cbv beta. intros b ->. by rewrite ?orb_true_r.
  - case_bool_decide as Hcut; [done|]. intros _.
    destruct (cut enc f); [|done]. exfalso. by apply Hcut.
Qed.

(** The first byte of a text that starts with a field written without
    quotes, when the text after the field starts with no quote. *)
Lemma bare_head (f t : string) (a : ascii) (s : string) :
  fieldNeedsQuotes comma f = false →
  (∀ b t', t = String b t' → Ascii.eqb b QUOTE = false) →
  f +:+ t = String a s → Ascii.eqb a QUOTE = false.
Proof.
  intros Hbare Ht. destruct f as [|a' f].
  - rewrite string_app_nil_l. apply Ht.
  - destruct (bare_inv _ Hbare) as [?|(_ & _ & HQ & _)]; [done|].
    rewrite string_app_cons. intros [= <- _]. by apply no_byte_head in HQ.
Qed.

Lemma enc_head (t : string) (b : ascii) (t' : string) :
  enc +:+ t = String b t' → Ascii.eqb b QUOTE = false ∧ Ascii.eqb b LF = false.
Proof.
  destruct enc_shape as (e0 & erest & Henc & _ & _ & HLF & _ & HQ).
  rewrite Henc in *. rewrite string_app_cons. intros [= <- _].
  split; by eapply no_byte_head.
Qed.

Lemma trim_nonspace (line : string) :
  IsSpace (DecodeRuneInString line).1 = false → trimLeadingSpace line = line.
Proof.
  intros Hsp. unfold trimLeadingSpace. destruct line as [|a l]; [done|].
  cbn [String.length trim_loop]. destruct (DecodeRuneInString _) as [r n]. cbn in Hsp.
  by rewrite Hsp.
Qed.

(** An unquoted field followed by the delimiter.  An empty field before
    a white-space delimiter is the case left out: the reader would trim
    the delimiter away. *)
Lemma parse_bare_more (fuel : nat) (f l rest : string) (acc : list string) :
  fieldNeedsQuotes comma f = false →
  f ≠ "" ∨ IsSpace comma = false →
  parse_fields (S fuel) comma AtField (f +:+ enc +:+ l) rest acc
  = parse_fields fuel comma AtField l rest (acc ++ [f]).
Proof.
  intros Hbare Hfilled. cbn [parse_fields].
  rewrite trim_nonspace.
  - rewrite (cut_enc_found _ _ (bare_cut _ Hbare)).
    destruct (f +:+ enc +:+ l) as [|a s] eqn:Hline; [done|].
    rewrite (bare_head f (enc +:+ l) a s); [done | done | | done].
    intros b t' Hb. by apply enc_head in Hb as [? _].
  - destruct f as [|a f].
    + rewrite string_app_nil_l, decode_comma. by destruct Hfilled.
    + destruct (bare_inv _ Hbare) as [?|(_ & _ & _ & Hsp)]; [done|].
      destruct enc_shape as (e0 & erest & -> & He0 & _).
      rewrite (string_app_cons e0). by rewrite decode_app_lead.
Qed.

(** An unquoted field that ends its line. *)
Lemma parse_bare_last (fuel : nat) (f rest : string) (acc : list string) :
  fieldNeedsQuotes comma f = false →
  parse_fields (S fuel) comma AtField (f +:+ String LF "") rest acc = (acc ++ [f], rest).
Proof.
  intros Hbare. cbn [parse_fields].
  destruct f as [|a f].
  - rewrite string_app_nil_l. change (trimLeadingSpace (String LF "")) with "".
    by rewrite cut_enc_empty.
  - destruct (bare_inv _ Hbare) as [?|(HLF & _ & HQ & Hsp)]; [done|].
    rewrite trim_nonspace by (rewrite decode_app_lead; [done | done | by left]).
    rewrite string_app_cons, (no_byte_head _ _ _ HQ), <- string_app_cons.
    rewrite (cut_enc_line _ (bare_cut _ Hbare)).
    unfold lengthNL. rewrite ends_with_LF_app.
    assert (String.length (String a f +:+ String LF "") - 1 = String.length (String a f))
      as -> by (rewrite string_length_app; cbn; lia).
    by rewrite str_take_app.
Qed.

Lemma line_split_cons (a : ascii) (s : string) :
  Ascii.eqb a LF = false →
  line_split (String a s) = (String a (line_split s).1, (line_split s).2).
Proof. intros Ha. cbn [line_split]. rewrite Ha. by destruct (line_split s). Qed.

Lemma readLine_no_crlf (a : ascii) (s : string) :
  no_crlf (String a s) = true → readLine (String a s) = Some (line_split (String a s)).
Proof. intros H. unfold readLine. by rewrite readLine_loop_no_crlf. Qed.

Lemma string_app_snoc (s : string) (a : ascii) (t : string) :
  (s +:+ String a "") +:+ t = s +:+ String a t.
Proof. by rewrite string_app_assoc. Qed.

(** Inside a quoted field: [seg] is the part of the current line already
    known to hold no quote, [g] the rest of the field; after the closing
    quote comes the line feed that ends the record ([last]) or the
    delimiter, and then [Y]. *)
Lemma parse_quoted (g : string) :
  ∀ (seg buf : string) (fuel : nat) (last : bool) (Y : string) (acc : list string),
    no_byte QUOTE seg → no_byte LF seg →
    no_crlf (seg +:+ quote_body g
               +:+ String QUOTE (if last then String LF Y else enc +:+ Y)) = true →
    parse_fields (body_cost g + 1 + fuel) comma (InQuotes buf)
      (line_split (seg +:+ quote_body g
                     +:+ String QUOTE (if last then String LF Y else enc +:+ Y))).1
      (line_split (seg +:+ quote_body g
                     +:+ String QUOTE (if last then String LF Y else enc +:+ Y))).2 acc
    = if last then (acc ++ [buf +:+ seg +:+ g], Y)
      else parse_fields fuel comma AtField (line_split Y).1 (line_split Y).2
             (acc ++ [buf +:+ seg +:+ g]).
Proof.
  destruct comma_plain as (_ & HcQ & _ & HcLF).
  assert (Ascii.eqb QUOTE LF = false) as HQLF by done.
  induction g as [|a g IH]; intros seg buf fuel last Y acc HsegQ HsegLF Hcr.
  - cbn [quote_body body_cost]. rewrite string_app_nil_l in *. rewrite string_app_nil_r.
    change (0 + 1 + fuel) with (S fuel).
    rewrite (line_split_app _ _ HsegLF), (line_split_cons _ _ HQLF).
    cbn [fst snd parse_fields]. rewrite (cut_byte_found _ _ _ HsegQ).
    destruct last.
    + cbn [line_split]. rewrite Ascii.eqb_refl. cbn [fst snd].
      rewrite decode_ascii by done. cbn [fst].
      change (code LF) with 10%Z. change (10 =? 34)%Z with false.
      by rewrite (proj2 (Z.eqb_neq 10 comma)) by done.
    + destruct enc_shape as (_ & _ & _ & _ & _ & HencLF & _).
      rewrite (line_split_app _ _ HencLF). cbn [fst snd].
      rewrite decode_comma. cbn [fst].
      rewrite (proj2 (Z.eqb_neq comma 34)) by done.
      by rewrite Z.eqb_refl, str_drop_app.
  - destruct (Ascii.eqb a QUOTE) eqn:HaQ; [|destruct (Ascii.eqb a LF) eqn:HaLF].
    + apply Ascii.eqb_eq in HaQ. subst a.
      cbn [quote_body body_cost]. rewrite Ascii.eqb_refl in *. cbn [orb].
      change (1 + body_cost g + 1 + fuel) with (S (body_cost g + 1 + fuel)).
      rewrite !string_app_cons in *.
      rewrite (line_split_app _ _ HsegLF), !(line_split_cons _ _ HQLF).
      cbn [fst snd parse_fields]. rewrite (cut_byte_found _ _ _ HsegQ).
      rewrite decode_ascii by done. cbn [fst]. change (code QUOTE =? 34)%Z with true.
      cbn [str_drop].
      specialize (IH "" (buf +:+ seg +:+ String QUOTE "") fuel last Y acc).
      rewrite !string_app_nil_l in IH. rewrite IH; [| done | done |].
      * by rewrite !string_app_assoc.
      * apply no_crlf_app_r in Hcr. cbn [no_crlf] in Hcr.
        by repeat (apply andb_true_iff in Hcr as [_ Hcr]).
    + apply Ascii.eqb_eq in HaLF. subst a.
      cbn [quote_body body_cost]. rewrite HaQ in *. cbn [orb].
      rewrite Ascii.eqb_refl.
      change (1 + body_cost g + 1 + fuel) with (S (body_cost g + 1 + fuel)).
      rewrite !string_app_cons in *.
      rewrite (line_split_app _ _ HsegLF). cbn [line_split]. rewrite Ascii.eqb_refl.
      cbn [fst snd parse_fields].
      rewrite cut_byte_none by (apply no_byte_app; by split).
      destruct (seg +:+ String LF "") as [|b l] eqn:Hline; [by destruct seg|].
      rewrite <- Hline. clear Hline b l.
      assert (no_crlf (quote_body g
                         +:+ String QUOTE (if last then String LF Y else enc +:+ Y)) = true)
        as Hcr'.
      { apply no_crlf_app_r in Hcr. cbn [no_crlf] in Hcr.
        by apply andb_true_iff in Hcr as [_ Hcr]. }
      specialize (IH "" (buf +:+ seg +:+ String LF "") fuel last Y acc eq_refl eq_refl).
      rewrite !string_app_nil_l in IH. specialize (IH Hcr').
      destruct (quote_body g +:+ String QUOTE (if last then String LF Y else enc +:+ Y))
        as [|b l] eqn:HZ; [by destruct (quote_body g)|].
      rewrite (readLine_no_crlf _ _ Hcr').
      destruct (line_split (String b l)) as [lz rz]. cbn [fst snd] in IH. rewrite IH.
      by rewrite !string_app_assoc.
    + cbn [quote_body body_cost] in *. rewrite HaQ, ?HaLF in *. cbn [orb].
      change (0 + body_cost g + 1 + fuel) with (body_cost g + 1 + fuel).
      rewrite string_app_cons in *.
      specialize (IH (seg +:+ String a "") buf fuel last Y acc).
      rewrite !string_app_snoc in IH. rewrite IH; [done | | | done].
      * apply no_byte_app. split; [done|]. unfold no_byte. cbn. by rewrite HaQ.
      * apply no_byte_app. split; [done|]. unfold no_byte. cbn. by rewrite HaLF.
Qed.
(** One written field and what follows it, read back: the line feed that
    ends the record ([last]) or the delimiter, and then [Y]. *)
Lemma parse_field (f : string) (fuel : nat) (last : bool) (Y : string) (acc : list string) :
  no_crlf (write_field comma f +:+ (if last then String LF Y else enc +:+ Y)) = true →
  last = true ∨ f ≠ "" ∨ IsSpace comma = false →
  parse_fields (field_cost comma f + fuel) comma AtField
    (line_split (write_field comma f +:+ (if last then String LF Y else enc +:+ Y))).1
    (line_split (write_field comma f +:+ (if last then String LF Y else enc +:+ Y))).2 acc
  = if last then (acc ++ [f], Y)
    else parse_fields fuel comma AtField (line_split Y).1 (line_split Y).2 (acc ++ [f]).
Proof.
  unfold write_field, field_cost.
  destruct (fieldNeedsQuotes comma f) eqn:Hq; intros Hcr Hfilled.
  - rewrite string_app_cons, string_app_assoc, string_app_cons, string_app_nil_l in *.
    replace (2 + body_cost f + fuel) with (S (body_cost f + 1 + fuel)) by lia.
    rewrite line_split_cons by done.
    pose proof (parse_quoted f "" "" fuel last Y acc eq_refl eq_refl) as Hquoted.
    rewrite !string_app_nil_l in Hquoted.
    cbn [no_crlf] in Hcr. apply andb_true_iff in Hcr as [_ Hcr].
    specialize (Hquoted Hcr).
    destruct (line_split _) as [lz rz]. cbn [fst snd] in *.
    cbn [parse_fields]. rewrite trim_nonspace by (by rewrite decode_ascii).
    rewrite Ascii.eqb_refl. done.
  - change (1 + fuel) with (S fuel).
    assert (no_byte LF f) as HLF.
    { destruct (bare_inv f Hq) as [->|(? & _)]; done. }
    rewrite (line_split_app _ _ HLF).
    destruct last.
    + cbn [line_split]. rewrite Ascii.eqb_refl. cbn [fst snd].
      by apply parse_bare_last.
    + destruct enc_shape as (_ & _ & _ & _ & _ & HencLF & _).
      rewrite (line_split_app _ _ HencLF). cbn [fst snd].
      apply parse_bare_more; [done|]. by destruct Hfilled.
Qed.

Lemma more_fields_cons (f : string) (record : list string) :
  more_fields comma (f :: record)
  = enc +:+ write_field comma f +:+ more_fields comma record.
Proof. done. Qed.

(** A whole written record, read back from its first field on. *)
Lemma parse_record (record : list string) :
  ∀ (f : string) (acc : list string) (fuel : nat) (T : string),
    no_crlf (write_field comma f +:+ more_fields comma record +:+ T) = true →
    IsSpace comma = false ∨ inner_fields_filled (f :: record) = true →
    parse_fields (record_cost comma (f :: record) + fuel) comma AtField
      (line_split (write_field comma f +:+ more_fields comma record +:+ T)).1
      (line_split (write_field comma f +:+ more_fields comma record +:+ T)).2 acc
    = (acc ++ f :: record, T).
Proof.
  induction record as [|f' record IH]; intros f acc fuel T Hcr Hfilled.
  - cbn [more_fields record_cost foldr] in *. rewrite string_app_cons, string_app_nil_l in *.
    rewrite Nat.add_0_r. apply (parse_field f fuel true T acc); [done | by left].
  - rewrite more_fields_cons, !string_app_assoc in *.
    change (record_cost comma (f :: f' :: record))
      with (field_cost comma f + record_cost comma (f' :: record)).
    rewrite <- Nat.add_assoc.
    assert (f ≠ "" ∨ IsSpace comma = false) as Hf.
    { destruct Hfilled as [?|Hfilled]; [by right|]. left. cbn [inner_fields_filled] in Hfilled.
      apply andb_true_iff in Hfilled as [Hf _]. apply negb_true_iff in Hf.
      by apply bool_decide_eq_false in Hf. }
    rewrite (parse_field f _ false (write_field comma f' +:+ more_fields comma record +:+ T) acc)
      by (done || by right).
    rewrite IH.
    + by rewrite <- (assoc_L (++)).
    + by do 2 apply no_crlf_app_r in Hcr.
    + destruct Hfilled as [?|Hfilled]; [by left|]. right. cbn [inner_fields_filled] in Hfilled.
      by apply andb_true_iff in Hfilled as [_ ?].
Qed.

Lemma no_crlf_no_CR (x s : string) : no_byte CR x → no_crlf (x +:+ s) = no_crlf s.
Proof.
  unfold no_byte. induction x as [|a x IH]; intros Hx; [done|].
  cbn in Hx. apply orb_false_iff in Hx as [Ha Hx].
  rewrite string_app_cons. cbn [no_crlf]. rewrite Ha. cbn. auto.
Qed.

Lemma no_crlf_quote_body (f : string) (b : ascii) (T : string) :
  crlf_free f = true → Ascii.eqb b LF = false → no_crlf (String b T) = true →
  no_crlf (quote_body f +:+ String b T) = true.
Proof.
  intros Hf Hb HT. induction f as [|a f IH]; [done|].
  cbn [crlf_free] in Hf. apply andb_true_iff in Hf as [Ha Hf]. specialize (IH Hf).
  cbn [quote_body]. destruct (Ascii.eqb a QUOTE) eqn:HaQ.
  - apply Ascii.eqb_eq in HaQ. subst a. rewrite !string_app_cons. cbn [no_crlf].
    change (Ascii.eqb QUOTE CR) with false. cbn. done.
  - rewrite string_app_cons. cbn [no_crlf]. rewrite IH, andb_true_r.
    destruct (Ascii.eqb a CR); [|done].
    destruct f as [|a' f]; [by rewrite string_app_nil_l, Hb|].
    cbn [quote_body]. destruct (Ascii.eqb a' QUOTE) eqn:Ha'Q; rewrite string_app_cons; [done|].
    done.
Qed.

Lemma no_crlf_field (f T : string) :
  crlf_free f = true → no_crlf T = true →
  no_crlf (write_field comma f +:+ T) = true.
Proof.
  intros Hf HT. unfold write_field. destruct (fieldNeedsQuotes comma f) eqn:Hq.
  - rewrite string_app_cons, string_app_assoc, string_app_cons, string_app_nil_l.
    cbn [no_crlf]. change (Ascii.eqb QUOTE CR) with false. cbn [andb].
    apply no_crlf_quote_body; [done | done |].
    cbn [no_crlf]. change (Ascii.eqb QUOTE CR) with false. done.
  - destruct (bare_inv f Hq) as [->|(_ & HCR & _)]; [done|].
    by rewrite no_crlf_no_CR.
Qed.

Lemma no_crlf_more (record : list string) (T : string) :
  Forall (λ f, crlf_free f = true) record → no_crlf T = true →
  no_crlf (more_fields comma record +:+ T) = true.
Proof.
  destruct enc_shape as (_ & _ & _ & _ & _ & _ & HencCR & _).
  intros Hr HT. induction Hr as [|f record Hf Hr IH].
  - cbn [more_fields]. by rewrite string_app_cons.
  - rewrite more_fields_cons, !string_app_assoc, (no_crlf_no_CR _ _ HencCR).
    by apply no_crlf_field.
Qed.

Lemma no_crlf_record (f : string) (record : list string) (T : string) :
  Forall (λ f, crlf_free f = true) (f :: record) → no_crlf T = true →
  no_crlf (write_field comma f +:+ more_fields comma record +:+ T) = true.
Proof.
  intros [Hf Hr]%Forall_cons HT. apply no_crlf_field; [done|]. by apply no_crlf_more.
Qed.

Lemma write_fields_more (n : nat) (record : list string) :
  write_fields comma (S n) record +:+ String LF "" = more_fields comma record.
Proof.
  revert n. induction record as [|f record IH]; intros n; [done|].
  cbn [write_fields more_fields]. change (0 <? S n) with true. cbn iota.
  by rewrite !string_app_assoc, IH.
Qed.

Lemma write_fields_first (f : string) (record : list string) :
  write_fields comma 0 (f :: record) +:+ String LF ""
  = write_field comma f +:+ more_fields comma record.
Proof.
  cbn [write_fields]. change (0 <? 0) with false. cbn iota.
  by rewrite string_app_nil_l, string_app_assoc, write_fields_more.
Qed.

Lemma body_cost_le (f : string) : body_cost f ≤ String.length (quote_body f).
Proof.
  induction f as [|a f IH]; [done|]. cbn [body_cost quote_body].
  destruct (Ascii.eqb a QUOTE); cbn; [lia|]. destruct (Ascii.eqb a LF); cbn; lia.
Qed.

Lemma field_cost_le (f : string) :
  field_cost comma f ≤ String.length (write_field comma f) + 1.
Proof.
  unfold field_cost, write_field. destruct (fieldNeedsQuotes comma f); [|lia].
  cbn [String.length]. rewrite string_length_app. cbn [String.length].
  pose proof (body_cost_le f). lia.
Qed.

Lemma record_cost_le (f : string) (record : list string) :
  record_cost comma (f :: record)
  ≤ String.length (write_field comma f +:+ more_fields comma record).
Proof.
  revert f. induction record as [|f' record IH]; intros f.
  - cbn [record_cost foldr more_fields]. rewrite string_length_app. cbn [String.length].
    pose proof (field_cost_le f). lia.
  - change (record_cost comma (f :: f' :: record))
      with (field_cost comma f + record_cost comma (f' :: record)).
    rewrite more_fields_cons, !string_length_app.
    specialize (IH f'). rewrite string_length_app in IH.
    pose proof (field_cost_le f). pose proof enc_length. lia.
Qed.

Lemma line_split_length (s : string) :
  String.length (line_split s).1 + String.length (line_split s).2 = String.length s.
Proof.
  induction s as [|a s IH]; [done|]. cbn [line_split].
  destruct (Ascii.eqb a LF); [done|]. destruct (line_split s). cbn in *. lia.
Qed.

(** The first byte of a written record is a line feed only for a record
    without fields or with one empty field. *)
Lemma written_record_head (f : string) (record : list string) :
  f :: record ≠ [""] →
  ∃ a s, write_field comma f +:+ more_fields comma record = String a s
         ∧ Ascii.eqb a LF = false.
Proof.
  intros Hne. unfold write_field. destruct (fieldNeedsQuotes comma f) eqn:Hq.
  - eexists _, _. by rewrite string_app_cons.
  - destruct f as [|a f].
    + destruct record as [|f' record]; [done|].
      rewrite string_app_nil_l, more_fields_cons.
      destruct (enc +:+ write_field comma f' +:+ more_fields comma record) as [|a s] eqn:Hline.
      { destruct enc_shape as (e0 & erest & Henc & _). by rewrite Henc in Hline. }
      exists a, s. split; [done|]. by apply enc_head in Hline as [_ ?].
    + destruct (bare_inv _ Hq) as [?|(HLF & _)]; [done|].
      eexists _, _. rewrite string_app_cons. split; [done|].
      by apply no_byte_head in HLF.
Qed.

(** [readRecord] on a written record gives the record back and leaves
    the text after it. *)
Lemma readRecord_written (record : list string) (T : string) (fuel : nat) :
  roundtrip_fields comma record → no_crlf T = true →
  readRecord (S fuel) comma ((write_fields comma 0 record +:+ String LF "") +:+ T)
  = Some (record, T).
Proof.
  intros [(Hnil & Hone & Hcr) Hfilled] HT. destruct record as [|f record]; [done|].
  assert (IsSpace comma = false ∨ inner_fields_filled (f :: record) = true) as Hfill.
  { destruct (IsSpace comma); [right; auto | by left]. }
  rewrite write_fields_first, string_app_assoc.
  pose proof (no_crlf_record f record T Hcr HT) as HR.
  pose proof (record_cost_le f record) as Hcost.
  destruct (written_record_head f record Hone) as (a & s & Hhead & Ha).
  assert (write_field comma f +:+ more_fields comma record +:+ T = String a (s +:+ T)) as HRs.
  { by rewrite <- string_app_assoc, Hhead, string_app_cons. }
  assert (String.length (write_field comma f +:+ more_fields comma record)
          ≤ String.length (String a (s +:+ T))) as Hlen.
  { rewrite Hhead. cbn [String.length]. rewrite string_length_app. lia. }
  cbn [readRecord]. rewrite HRs in *. rewrite (readLine_no_crlf _ _ HR).
  pose proof (line_split_length (String a (s +:+ T))) as Hsplit.
  rewrite (line_split_cons _ _ Ha) in *. cbn [fst snd] in *.
  rewrite (not_empty_line _ _ Ha).
  pose proof (parse_record record f [] ) as Hp.
  specialize (Hp (S (String.length (String a (line_split (s +:+ T)).1)
                     + String.length (line_split (s +:+ T)).2)
                  - record_cost comma (f :: record)) T).
  rewrite HRs, (line_split_cons _ _ Ha) in Hp. cbn [fst snd] in Hp.
  rewrite Nat.add_comm, Nat.sub_add in Hp by lia.
  by rewrite (Hp HR Hfill).
Qed.

Lemma Read_written (record : list string) (T : string) (n : nat) :
  roundtrip_fields comma record → no_crlf T = true →
  Read (MkReader comma (written_record comma record +:+ T) n)
  = if n =? 0 then (Fields record, MkReader comma T (length record))
    else if length record =? n then (Fields record, MkReader comma T n)
    else (ErrFieldCount record, MkReader comma T n).
Proof.
  intros Hr HT. unfold Read, written_record. cbn [Csv.Comma Csv.input Csv.FieldsPerRecord].
  rewrite Hvalid. cbn [negb]. by rewrite readRecord_written.
Qed.

Lemma Read_end (n : nat) : Read (MkReader comma "" n) = (EOF, MkReader comma "" n).
Proof. unfold Read. cbn. by rewrite Hvalid. Qed.

Lemma no_crlf_written_records (records : list (list string)) :
  Forall roundtrip_record records → no_crlf (written_records comma records) = true.
Proof.
  unfold written_records. induction 1 as [|record records (Hnil & _ & Hcr) _ IH]; [done|].
  cbn [fmap list_fmap concat_strings]. destruct record as [|f record]; [done|].
  unfold written_record at 1. rewrite write_fields_first, string_app_assoc.
  by apply no_crlf_record.
Qed.

Lemma written_records_cons (record : list string) (records : list (list string)) :
  written_records comma (record :: records)
  = written_record comma record +:+ written_records comma records.
Proof. done. Qed.

(** The loop of [ReadData] over written records. *)
Lemma read_rows_written (idx : gmap string nat) (columns : list Column) (n : nat)
    (records : list (list string)) :
  ∀ fuel,
    length records < fuel → n ≠ 0 →
    Forall (roundtrip_fields comma) records → Forall (λ r, length r = n) records →
    FlatFile.read_rows fuel (MkReader comma (written_records comma records) n) n idx columns
    = row_of_record idx columns <$> records.
Proof.
  induction records as [|record records IH]; intros fuel Hfuel Hn Hgood Hlen.
  - destruct fuel as [|fuel]; [simpl in Hfuel; lia|].
    cbn [FlatFile.read_rows]. change (written_records comma []) with "".
    by rewrite Read_end.
  - destruct fuel as [|fuel]; [simpl in Hfuel; lia|].
    apply Forall_cons in Hgood as [Hrec Hgood]. apply Forall_cons in Hlen as [Hl Hlen].
    cbn [FlatFile.read_rows]. rewrite written_records_cons.
    assert (no_crlf (written_records comma records) = true) as HT.
    { apply no_crlf_written_records. eapply Forall_impl; [exact Hgood|]. by intros ? [? _]. }
    rewrite Read_written by done.
    rewrite (proj2 (Nat.eqb_neq n 0) Hn), Hl, Nat.eqb_refl. cbn iota.
    rewrite Hl, Nat.eqb_refl. cbn [negb].
    rewrite IH; [done | simpl in Hfuel; lia | done | done | done].
Qed.

(** The loop of [PreviewData] over written records. *)
Lemma preview_rows_written (idx : gmap string nat) (columns : list Column) (n : nat)
    (records : list (list string)) :
  ∀ limit,
    n ≠ 0 →
    Forall (roundtrip_fields comma) records → Forall (λ r, length r = n) records →
    FlatFile.preview_rows limit (MkReader comma (written_records comma records) n) n idx
      columns
    = take limit (preview_row idx columns <$> records).
Proof.
  induction records as [|record records IH]; intros limit Hn Hgood Hlen.
  - destruct limit as [|limit]; [done|].
    cbn [FlatFile.preview_rows]. change (written_records comma []) with "".
    by rewrite Read_end.
  - destruct limit as [|limit]; [done|].
    apply Forall_cons in Hgood as [Hrec Hgood]. apply Forall_cons in Hlen as [Hl Hlen].
    cbn [FlatFile.preview_rows]. rewrite written_records_cons.
    assert (no_crlf (written_records comma records) = true) as HT.
    { apply no_crlf_written_records. eapply Forall_impl; [exact Hgood|]. by intros ? [? _]. }
    rewrite Read_written by done.
    rewrite (proj2 (Nat.eqb_neq n 0) Hn), Hl, Nat.eqb_refl. cbn iota.
    rewrite Hl, Nat.eqb_refl. cbn [negb fmap list_fmap take].
    by rewrite IH.
Qed.

Lemma written_record_length (record : list string) :
  1 ≤ String.length (written_record comma record).
Proof. unfold written_record. rewrite string_length_app. cbn. lia. Qed.

Lemma written_records_length (records : list (list string)) :
  length records ≤ String.length (written_records comma records).
Proof.
  induction records as [|record records IH]; [done|].
  rewrite written_records_cons, string_length_app.
  pose proof (written_record_length record). cbn [length]. lia.
Qed.
End csv_roundtrip.

Section flatfile_roundtrip.
Import FlatFile.
Context {V : Type} (Sprintf_v : V → string).

(** The name index built from a header finds each name, at a position
    that holds it. *)
Lemma index_columns_lookup (header : list string) (name : string) :
  match index_columns header !! name with
  | Some i => header !! i = Some name
  | None => name ∉ header
  end.
Proof.
  unfold index_columns. induction header as [|x header IH] using rev_ind.
  - cbn. rewrite lookup_empty. apply not_elem_of_nil.
  - rewrite imap_app, foldl_app. cbn [imap foldl]. rewrite Nat.add_0_r.
    destruct (decide (x = name)) as [->|Hne].
    + rewrite lookup_insert_eq. by apply list_lookup_middle.
    + rewrite lookup_insert_ne by done.
      destruct (foldl _ _ _ !! name) as [i|].
      * by apply lookup_app_l_Some.
      * apply not_elem_of_app. split; [done|].
        apply not_elem_of_cons. split; [congruence | apply not_elem_of_nil].
Qed.

(** A written record, read back under the same column list, gives for
    each column the conversion of the text written for it. *)
Lemma row_of_written_record (columns : list Column) (row : gmap string V) :
  row_of_record (index_columns (Name <$> columns)) columns (record_of Sprintf_v columns row)
  = (λ col, convertValue (written_text Sprintf_v row col) (Type_ col)) <$> columns.
Proof.
  unfold row_of_record. apply list_fmap_ext. intros j col Hcol.
  pose proof (index_columns_lookup (Name <$> columns) (Name col)) as Hidx.
  destruct (index_columns (Name <$> columns) !! Name col) as [i|].
  - apply list_lookup_fmap_Some in Hidx as (col' & Hname & Hcol').
    unfold record_of. rewrite list_lookup_fmap, Hcol'. cbn.
    unfold written_text. by rewrite Hname.
  - exfalso. apply Hidx. apply list_elem_of_fmap_2. by eapply list_elem_of_lookup_2.
Qed.

Lemma write_rows_spec (comma : Z) (columns : list Column) (prs : Z)
    (rows : list (gmap string V)) :
  Csv.validDelim comma = true →
  ∀ st, ∃ last events,
    write_rows Sprintf_v comma columns prs rows st
    = (MkWriteState
         (w_out st +:+ written_records comma (record_of Sprintf_v columns <$> rows))
         (w_totalRows st + Z.of_nat (length rows)) last events,
       None).
Proof.
  intros Hvalid. induction rows as [|row rows IH]; intros st.
  - exists (w_lastReportedCount st), (w_events st). cbn.
    rewrite string_app_nil_r, Z.add_0_r. by destruct st.
  - cbn [write_rows]. unfold Csv.Write. rewrite Hvalid. cbn [negb].
    destruct (IH (MkWriteState
                    (w_out st +:+ Csv.write_fields comma 0 (record_of Sprintf_v columns row)
                            +:+ String Csv.LF "")
                    (w_totalRows st + 1)
                    (if (prs <=? w_totalRows st + 1 - w_lastReportedCount st)%Z
                     then (w_totalRows st + 1)%Z else w_lastReportedCount st)
                    (if (prs <=? w_totalRows st + 1 - w_lastReportedCount st)%Z
                     then w_events st ++
                          [MkProgress "processing"
                             ("Written " +:+ itoa (w_totalRows st + 1) +:+ " rows")
                             (w_totalRows st + 1) false]
                     else w_events st))) as (last & events & ->).
    exists last, events. cbn [w_out w_totalRows]. f_equal. f_equal.
    + cbn [fmap list_fmap]. rewrite written_records_cons. unfold written_record.
      by rewrite !string_app_assoc.
    + cbn [length]. lia.
Qed.

(** [WriteData] on a file it could create, with a delimiter the writer
    accepts: the file holds the header and the rows, written at that
    delimiter. *)
Lemma WriteData_file (fs : gmap string string) (filePath delimiter : string)
    (columns : list Column) (prs : Z) (rows : list (gmap string V)) :
  Csv.validDelim (delim_of delimiter) = true →
  ∃ events,
    WriteData Sprintf_v Created fs filePath delimiter columns prs rows
    = MkWriteResult
        (<[filePath := written_file Sprintf_v (delim_of delimiter) columns rows]> fs)
        events (Z.of_nat (length rows)) None.
Proof.
  intros Hvalid. unfold WriteData, Csv.Write. rewrite Hvalid. cbn [negb].
  destruct (write_rows_spec (delim_of delimiter) columns prs rows Hvalid
              (MkWriteState
                 (Csv.write_fields (delim_of delimiter) 0 (Name <$> columns)
                    +:+ String Csv.LF "") 0 0 [])) as (last & events & ->).
  by exists events.
Qed.

Section written.
Context (fs : gmap string string) (filePath delimiter : string) (columns : list Column)
  (rows : list (gmap string V)).
Context (Hvalid : Csv.validDelim (delim_of delimiter) = true).
Context (Hheader : roundtrip_fields (delim_of delimiter) (Name <$> columns)).
Context (Hrows : Forall (λ row, roundtrip_fields (delim_of delimiter)
                                  (record_of Sprintf_v columns row)) rows).

Local Abbreviation written :=
  (<[filePath := written_file Sprintf_v (delim_of delimiter) columns rows]> fs).

Lemma written_records_good :
  Forall (roundtrip_fields (delim_of delimiter)) (record_of Sprintf_v columns <$> rows)
  ∧ Forall (λ r, length r = length (Name <$> columns)) (record_of Sprintf_v columns <$> rows)
  ∧ length (Name <$> columns) ≠ 0.
Proof.
  split_and!.
  - by apply Forall_fmap.
  - apply Forall_fmap, Forall_forall. intros row _. cbn.
    unfold record_of. by rewrite !length_fmap.
  - destruct Hheader as [(Hnil & _) _]. by destruct columns.
Qed.

(** The header of a written file, read by any of the three readers. *)
Lemma Read_written_header :
  Csv.Read (Csv.NewReader (written_file Sprintf_v (delim_of delimiter) columns rows)
              (delim_of delimiter))
  = (Csv.Fields (Name <$> columns),
     Csv.MkReader (delim_of delimiter)
       (written_records (delim_of delimiter) (record_of Sprintf_v columns <$> rows))
       (length (Name <$> columns))).
Proof.
  destruct written_records_good as (Hgood & _ & _).
  unfold Csv.NewReader, written_file. rewrite (Read_written _ Hvalid); [done | done |].
  apply (no_crlf_written_records _ Hvalid).
  eapply Forall_impl; [exact Hgood|]. by intros ? [? _].
Qed.

(** [ReadData] on a written file. *)
Lemma ReadData_written :
  ReadData written filePath delimiter columns
  = Ok ((λ row, (λ col, convertValue (written_text Sprintf_v row col) (Type_ col)) <$> columns)
          <$> rows).
Proof.
  destruct written_records_good as (Hgood & Hlen & Hn).
  unfold ReadData, os_Open. rewrite lookup_insert_eq, Read_written_header. f_equal.
  rewrite (read_rows_written _ Hvalid); [| | done..].
  - rewrite <- list_fmap_compose. apply list_fmap_ext. intros i row _.
    apply row_of_written_record.
  - unfold written_file. rewrite string_length_app.
    pose proof (written_records_length (delim_of delimiter)
                  (record_of Sprintf_v columns <$> rows)). lia.
Qed.

(** [DiscoverSchema] on a written file names the columns written. *)
Lemma DiscoverSchema_written (order : nat → list (string * nat)) :
  ∃ discovered,
    DiscoverSchema order written filePath delimiter = Ok discovered
    ∧ Name <$> discovered = Name <$> columns.
Proof.
  unfold DiscoverSchema, os_Open. rewrite lookup_insert_eq, Read_written_header.
  eexists. split; [reflexivity|].
  rewrite fmap_imap. unfold compose. cbn [Name].
  by rewrite (imap_const id), list_fmap_id.
Qed.

(** [PreviewData] on a written file. *)
Lemma PreviewData_written (limit : nat) :
  PreviewData written filePath delimiter columns limit
  = Ok (take limit (preview_row (index_columns (Name <$> columns)) columns
                      <$> (record_of Sprintf_v columns <$> rows))).
Proof.
  destruct written_records_good as (Hgood & Hlen & Hn).
  unfold PreviewData, os_Open. rewrite lookup_insert_eq, Read_written_header. f_equal.
  pose proof Hn as Hcolumns. rewrite length_fmap in Hcolumns.
  rewrite (proj2 (Nat.eqb_neq _ _) Hcolumns).
  by apply (preview_rows_written _ Hvalid).
Qed.
End written.
End flatfile_roundtrip.

Lemma convertValue_String (v : string) : FlatFile.convertValue v "String" = FlatFile.VString v.
Proof. reflexivity. Qed.

(** C7, as amended: for a delimiter the writer accepts, ASCII or not, a
    column list that is not empty and not a single column with an empty
    name, and rows none of which is written as a single empty field and
    none of whose texts holds a carriage return followed by a line feed
    and, when the delimiter is white space, none of which (nor the header)
    has an empty field before its last one, [WriteData] writes all [N]
    rows without error and [ReadData], given the same column list and
    delimiter, yields [N] rows in the same order; the value at each column
    is [convertValue] applied to exactly the text written there (the empty
    text for a missing key), so for [String] columns it is that text
    itself. *)
Theorem C7_written_rows_read_back
    {V : Type} (Sprintf_v : V → string) (fs : gmap string string)
    (filePath delimiter : string) (columns : list Column) (progressReportSize : Z)
    (rows : list (gmap string V)) :
  Csv.validDelim (FlatFile.delim_of delimiter) = true →
  roundtrip_fields (FlatFile.delim_of delimiter) (Name <$> columns) →
  Forall (λ row, roundtrip_fields (FlatFile.delim_of delimiter)
                   (FlatFile.record_of Sprintf_v columns row)) rows →
  let w := FlatFile.WriteData Sprintf_v FlatFile.Created fs filePath delimiter columns
             progressReportSize rows in
  FlatFile.wr_err w = None
  ∧ FlatFile.wr_count w = Z.of_nat (length rows)
  ∧ FlatFile.ReadData (FlatFile.wr_fs w) filePath delimiter columns
    = Ok ((λ row, (λ col, FlatFile.convertValue (written_text Sprintf_v row col) (Type_ col))
                    <$> columns) <$> rows)
  ∧ (Forall (λ col, Type_ col = "String") columns →
     FlatFile.ReadData (FlatFile.wr_fs w) filePath delimiter columns
     = Ok ((λ row, (λ col, FlatFile.VString (written_text Sprintf_v row col)) <$> columns)
             <$> rows)).
Proof.
  intros Hvalid Hheader Hrows. cbv zeta.
  destruct (WriteData_file Sprintf_v fs filePath delimiter columns progressReportSize rows
              Hvalid) as [events ->].
  cbn [FlatFile.wr_fs FlatFile.wr_err FlatFile.wr_count].
  pose proof (ReadData_written Sprintf_v fs filePath delimiter columns rows Hvalid Hheader
                Hrows) as Hread.
  split_and!; [done | done | done |].
  intros Hstring. rewrite Hread. f_equal. apply list_fmap_ext. intros i row _.
  apply list_fmap_ext. intros j col Hcol.
  rewrite Forall_forall in Hstring. rewrite (Hstring col); [done|].
  by eapply list_elem_of_lookup_2.
Qed.

(** The round trip of two rows under a delimiter outside ASCII, one of
    them with the delimiter inside a field. *)
Lemma C7_witness :
  let w := FlatFile.WriteData (λ v : string, v) FlatFile.Created ∅ "out.csv" Sample.e_acute
             Sample.two_columns 5000 Sample.accented_rows in
  FlatFile.wr_err w = None
  ∧ FlatFile.wr_count w = Z.of_nat (length Sample.accented_rows)
  ∧ FlatFile.ReadData (FlatFile.wr_fs w) "out.csv" Sample.e_acute Sample.two_columns
    = Ok ((λ row, (λ col, FlatFile.convertValue (written_text (λ v : string, v) row col)
                            (Type_ col)) <$> Sample.two_columns) <$> Sample.accented_rows)
  ∧ (Forall (λ col, Type_ col = "String") Sample.two_columns →
     FlatFile.ReadData (FlatFile.wr_fs w) "out.csv" Sample.e_acute Sample.two_columns
     = Ok ((λ row, (λ col, FlatFile.VString (written_text (λ v : string, v) row col))
                     <$> Sample.two_columns) <$> Sample.accented_rows)).
Proof.
  apply (C7_written_rows_read_back (λ v : string, v) ∅ "out.csv" Sample.e_acute
           Sample.two_columns 5000 Sample.accented_rows).
  - reflexivity.
  - split; [|done]. split; [done|]. split; [done|]. by repeat constructor.
  - repeat constructor; try done; by vm_compute.
Defined.

(** C7 as stated fails: one row whose only field is empty is written as
    an empty line, which the reader skips; one row goes in, none comes
    back. *)
Lemma C7_counterexample :
  let w := FlatFile.WriteData (λ v : string, v) FlatFile.Created ∅ "out.csv" ","
             Sample.one_column 5000 Sample.empty_row in
  length Sample.empty_row = 1
  ∧ FlatFile.wr_err w = None
  ∧ FlatFile.wr_count w = 1%Z
  ∧ FlatFile.wr_fs w !! "out.csv" = Some (Sample.line "a" +:+ Sample.line "")
  ∧ FlatFile.ReadData (FlatFile.wr_fs w) "out.csv" "," Sample.one_column = Ok [].
Proof. cbv zeta. split_and!; by vm_compute. Qed.

(** The other ways in which the round trip is lost, behind the conditions
    of the amended claim: with a tab as delimiter the reader trims the
    delimiter after an empty first field and drops the row; a carriage
    return followed by a line feed inside a field comes back as a line
    feed; a header without columns, or of one column with an empty name,
    is written as an empty line, which the reader skips, taking the end of
    the file or the first row for the header. *)
Example roundtrip_tab_delimiter_drops_row :
  let tab := String (ascii_of_nat 9) "" in
  let w := FlatFile.WriteData (λ v : string, v) FlatFile.Created ∅ "out.tsv" tab
             Sample.two_columns 5000 [ {[ "n" := "7" ]} ] in
  FlatFile.wr_count w = 1%Z
  ∧ FlatFile.ReadData (FlatFile.wr_fs w) "out.tsv" tab Sample.two_columns = Ok [].
Proof. cbv zeta. split; by vm_compute. Qed.

(** With a tab as delimiter and no empty field before the last one, the
    rows do come back, here with a quoted, multi-line field and a missing
    last key. *)
Example roundtrip_tab_delimiter_filled :
  let tab := String (ascii_of_nat 9) "" in
  let w := FlatFile.WriteData (λ v : string, v) FlatFile.Created ∅ "out.tsv" tab
             Sample.two_columns 5000 Sample.two_rows in
  FlatFile.wr_count w = 2%Z
  ∧ FlatFile.ReadData (FlatFile.wr_fs w) "out.tsv" tab Sample.two_columns
    = Ok ((λ row, (λ col, FlatFile.convertValue (written_text (λ v : string, v) row col)
                            (Type_ col)) <$> Sample.two_columns) <$> Sample.two_rows).
Proof. cbv zeta. split; by vm_compute. Qed.

Example roundtrip_crlf_becomes_lf :
  let crlf := String Csv.CR (String Csv.LF "") in
  let w := FlatFile.WriteData (λ v : string, v) FlatFile.Created ∅ "out.csv" ","
             Sample.two_columns 5000 [ {[ "name" := "x" +:+ crlf +:+ "y"; "n" := "7" ]} ] in
  FlatFile.ReadData (FlatFile.wr_fs w) "out.csv" "," Sample.two_columns
  = Ok [[FlatFile.VString (Sample.line "x" +:+ "y"); FlatFile.VInt64 7]].
Proof. cbv zeta. by vm_compute. Qed.

Example roundtrip_no_columns_fails :
  let w := FlatFile.WriteData (λ v : string, v) FlatFile.Created ∅ "out.csv" "," [] 5000
             [ {[ "n" := "7" ]} ] in
  FlatFile.wr_count w = 1%Z
  ∧ FlatFile.ReadData (FlatFile.wr_fs w) "out.csv" "," [] = Err "failed to read header: EOF".
Proof. cbv zeta. split; by vm_compute. Qed.

Example roundtrip_unnamed_column_loses_row :
  let unnamed := [MkColumn "" "String"] in
  let w := FlatFile.WriteData (λ v : string, v) FlatFile.Created ∅ "out.csv" "," unnamed 5000
             [ {[ "" := "x" ]}; {[ "" := "y" ]} ] in
  FlatFile.wr_count w = 2%Z
  ∧ FlatFile.ReadData (FlatFile.wr_fs w) "out.csv" "," unnamed = Ok [[FlatFile.VNil]].
Proof. cbv zeta. split; by vm_compute. Qed.

(** ** The delimiter *)

Section delimiter.
Import Utf8 FlatFile.

Lemma delim_of_nonempty (d : string) :
  d ≠ "" → delim_of d = (DecodeRuneInString d).1.
Proof.
  intros Hd. unfold delim_of, runes. rewrite bool_decide_eq_true_2 by done.
  destruct d as [|c d]; [done|]. cbn [String.length runes_loop].
  by destruct (DecodeRuneInString (String c d)).
Qed.

Lemma str_take_drop (n : nat) (s : string) : str_take n s +:+ str_drop n s = s.
Proof.
  revert s. induction n as [|n IH]; intros [|c s]; try done.
  cbn [str_take str_drop]. by rewrite string_app_cons, IH.
Qed.

(** Decoding looks at the bytes of the first rune only. *)
Lemma decode_first_char (d : string) :
  DecodeRuneInString (first_char d) = DecodeRuneInString d.
Proof.
  unfold first_char.
  destruct d as [|p0 d]; [done|].
  unfold DecodeRuneInString at 2 3.
  repeat (match goal with
          | |- context [if ?b then _ else _] => destruct b eqn:?
          | |- context [match ?x with EmptyString => _ | String _ _ => _ end] => destruct x
          end; cbn [fst snd str_take]);
    unfold DecodeRuneInString;
    repeat match goal with H : _ = _ |- _ => rewrite H end; done.
Qed.

Lemma first_char_nonempty (d : string) : d ≠ "" → first_char d ≠ "".
Proof.
  intros Hd. unfold first_char. destruct d as [|p0 d]; [done|].
  unfold DecodeRuneInString.
  repeat (match goal with
          | |- context [if ?b then _ else _] => destruct b
          | |- context [match ?x with EmptyString => _ | String _ _ => _ end] => destruct x
          end; cbn [fst snd str_take]); done.
Qed.

Lemma same_operations_of_delim (d d' : string) :
  delim_of d = delim_of d' → same_operations d d'.
Proof.
  intros Heq. unfold same_operations, DiscoverSchema, PreviewData, ReadData, WriteData.
  rewrite Heq. done.
Qed.
End delimiter.

Section claimed_delimiter.
Import Utf8 FlatFile.

(** The delimiter the four operations compute is the one the claim
    names. *)
Lemma delim_of_claimed (d : string) : delim_of d = claimed_delim d.
Proof.
  unfold claimed_delim. case_bool_decide as Hd; [by subst d|].
  by rewrite decode_first_char, delim_of_nonempty.
Qed.

(** A delimiter the csv package refuses stops each reader at the header. *)
Lemma Read_refused (file : string) (comma : Z) :
  Csv.validDelim comma = false →
  (Csv.Read (Csv.NewReader file comma)).1 = Csv.ErrInvalidDelim.
Proof. intros Hrefused. unfold Csv.Read, Csv.NewReader. cbn. by rewrite Hrefused. Qed.
End claimed_delimiter.

(** C10: an empty delimiter string stands for the comma; of a non-empty
    one only the first character counts: the delimiter is its first rune,
    and each of the four operations behaves as if given that character
    alone.  That character is the delimiter each operation works with:
    [WriteData] joins the fields of the header and of every row with it,
    and on a file whose fields are joined with it [ReadData] gets the rows
    back, [DiscoverSchema] the column names and [PreviewData] the records
    up to its limit, under the conditions of the round trip; when the csv
    package refuses the character, each of the four operations fails with
    the package's error. *)
Theorem C10_delimiter_is_comma_or_first_character (d : string) :
  (d = "" → FlatFile.delim_of d = 44%Z ∧ same_operations d ",")
  ∧ (d ≠ "" →
       FlatFile.delim_of d = (Utf8.DecodeRuneInString d).1
       ∧ (∃ rest, d = first_char d +:+ rest)
       ∧ same_operations d (first_char d))
  ∧ (∀ (V : Type) (Sprintf_v : V → string) (order : nat → list (string * nat))
       (fs : gmap string string) (filePath : string) (columns : list Column)
       (progressReportSize : Z) (rows : list (gmap string V)) (limit : nat),
       let file := written_file Sprintf_v (claimed_delim d) columns rows in
       Csv.validDelim (claimed_delim d) = true →
       roundtrip_fields (claimed_delim d) (Name <$> columns) →
       Forall (λ row, roundtrip_fields (claimed_delim d)
                        (FlatFile.record_of Sprintf_v columns row)) rows →
       FlatFile.wr_fs (FlatFile.WriteData Sprintf_v FlatFile.Created fs filePath d columns
                         progressReportSize rows)
       = <[filePath := file]> fs
       ∧ FlatFile.ReadData (<[filePath := file]> fs) filePath d columns
         = Ok ((λ row, (λ col, FlatFile.convertValue (written_text Sprintf_v row col)
                                 (Type_ col)) <$> columns) <$> rows)
       ∧ (∃ discovered,
             FlatFile.DiscoverSchema order (<[filePath := file]> fs) filePath d = Ok discovered
             ∧ Name <$> discovered = Name <$> columns)
       ∧ FlatFile.PreviewData (<[filePath := file]> fs) filePath d columns limit
         = Ok (take limit
                 (preview_row (FlatFile.index_columns (Name <$> columns)) columns
                    <$> (FlatFile.record_of Sprintf_v columns <$> rows))))
  ∧ (∀ (V : Type) (Sprintf_v : V → string) (order : nat → list (string * nat))
       (fs : gmap string string) (filePath file : string) (columns : list Column)
       (progressReportSize : Z) (rows : list (gmap string V)) (limit : nat),
       Csv.validDelim (claimed_delim d) = false →
       fs !! filePath = Some file →
       FlatFile.wr_err (FlatFile.WriteData Sprintf_v FlatFile.Created fs filePath d columns
                          progressReportSize rows)
       = Some "failed to write header: csv: invalid field or comment delimiter"
       ∧ FlatFile.ReadData fs filePath d columns
         = Err "failed to read header: csv: invalid field or comment delimiter"
       ∧ FlatFile.DiscoverSchema order fs filePath d
         = Err "failed to read header: csv: invalid field or comment delimiter"
       ∧ FlatFile.PreviewData fs filePath d columns limit
         = Err "failed to read header: csv: invalid field or comment delimiter").
Proof.
  split_and!.
  - intros ->. split; [done|]. by apply same_operations_of_delim.
  - intros Hd. split_and!.
    + by apply delim_of_nonempty.
    + exists (Utf8.str_drop (Utf8.DecodeRuneInString d).2 d). unfold first_char.
      by rewrite str_take_drop.
    + apply same_operations_of_delim.
      rewrite !delim_of_nonempty by auto using first_char_nonempty.
      by rewrite decode_first_char.
  - intros V Sprintf_v order fs filePath columns progressReportSize rows limit.
    cbv zeta. rewrite <- delim_of_claimed. intros Hvalid Hheader Hrows.
    destruct (WriteData_file Sprintf_v fs filePath d columns progressReportSize rows Hvalid)
      as [events ->].
    split_and!.
    + done.
    + by apply ReadData_written.
    + by apply DiscoverSchema_written.
    + by apply PreviewData_written.
  - intros V Sprintf_v order fs filePath file columns progressReportSize rows limit.
    rewrite <- delim_of_claimed. intros Hrefused Hfile.
    pose proof (Read_refused file _ Hrefused) as Hread.
    unfold FlatFile.WriteData, Csv.Write, FlatFile.ReadData, FlatFile.DiscoverSchema,
      FlatFile.PreviewData, FlatFile.os_Open.
    rewrite Hrefused, Hfile.
    destruct (Csv.Read _) as [res reader]. cbn [fst] in Hread. subst res. done.
Qed.

(** Of the delimiter string [;x] the semicolon alone counts: the readers
    split the lines of a file at semicolons, and the writer joins the
    fields with one. *)
Example delimiter_semicolon_rest_ignored :
  let fs : gmap string string := {[ "in.csv" := Sample.line "a;b" +:+ Sample.line "1;2" ]} in
  let columns := [MkColumn "a" "Int64"; MkColumn "b" "Int64"] in
  FlatFile.ReadData fs "in.csv" ";x" columns = Ok [[FlatFile.VInt64 1; FlatFile.VInt64 2]]
  ∧ (∃ discovered,
        FlatFile.DiscoverSchema (λ _, []) fs "in.csv" ";x" = Ok discovered
        ∧ Name <$> discovered = ["a"; "b"])
  ∧ FlatFile.PreviewData fs "in.csv" ";x" columns 5
    = Ok [ <["b" := FlatFile.VInt64 2]> (<["a" := FlatFile.VInt64 1]> ∅) ]
  ∧ FlatFile.wr_fs
      (FlatFile.WriteData (λ v : string, v) FlatFile.Created ∅ "out.csv" ";x" columns 5000
         [ {[ "a" := "1"; "b" := "2" ]} ]) !! "out.csv"
    = Some (Sample.line "a;b" +:+ Sample.line "1;2").
Proof.
  cbv zeta. split_and!; [by vm_compute | | by vm_compute | by vm_compute].
  eexists. split; [vm_compute; reflexivity | by vm_compute].
Qed.

(* ===================================================================== *)
(** * Part III: further properties of the code                            *)
(* ===================================================================== *)

(** ** Conversion of field texts *)

Section conversion.
Import FlatFile.

Lemma substring_length_le (s : string) : ∀ n m, String.length (String.substring n m s) ≤ m.
Proof.
  induction s as [|c s IH]; intros [|n] [|m]; cbn; try lia.
  - specialize (IH 0 m). lia.
  - apply (IH n 0).
  - apply (IH n (S m)).
Qed.

Lemma substring_app_l (a b : string) : String.substring 0 (String.length a) (a +:+ b) = a.
Proof.
  induction a as [|c a IH]; [by destruct b|].
  rewrite string_app_cons. cbn. by rewrite IH.
Qed.

Lemma substring_app_r (a b : string) :
  String.substring (String.length a) (String.length b) (a +:+ b) = b.
Proof.
  induction a as [|c a IH]; [|by rewrite string_app_cons].
  rewrite string_app_nil_l. cbn [String.length]. clear.
  induction b as [|c b IH]; [done|]. cbn. by rewrite IH.
Qed.

(** One turn of [convertValue]: a [Nullable(...)] type gives nil for the
    empty text and otherwise the conversion at the inner type. *)
Lemma convertValue_rec_nullable (fuel : nat) (v dataType : string) :
  HasPrefix dataType "Nullable(" && HasSuffix dataType ")" = true →
  convertValue_rec (S fuel) v dataType
  = if bool_decide (v = "") then VNil
    else convertValue_rec fuel v
           (String.substring 9 (String.length dataType - 1 - 9) dataType).
Proof. intros H. cbn [convertValue_rec]. by rewrite H. Qed.

Lemma convertValue_rec_base (fuel fuel' : nat) (v dataType : string) :
  HasPrefix dataType "Nullable(" && HasSuffix dataType ")" = false →
  convertValue_rec fuel v dataType = convertValue_rec fuel' v dataType.
Proof. intros H. destruct fuel, fuel'; cbn [convertValue_rec]; by rewrite H. Qed.

(** The bound on the recursion is never reached. *)
Lemma convertValue_rec_fuel (v : string) (n : nat) :
  ∀ dataType fuel fuel',
    String.length dataType ≤ n → n ≤ fuel → n ≤ fuel' →
    convertValue_rec fuel v dataType = convertValue_rec fuel' v dataType.
Proof.
  induction n as [|n IH]; intros dataType fuel fuel' Hlen Hf Hf'.
  - destruct dataType; [|simpl in Hlen; lia]. by apply convertValue_rec_base.
  - destruct (HasPrefix dataType "Nullable(" && HasSuffix dataType ")") eqn:Hnull;
      [|by apply convertValue_rec_base].
    destruct fuel as [|fuel]; [lia|]. destruct fuel' as [|fuel']; [lia|].
    rewrite !convertValue_rec_nullable by done.
    case_bool_decide; [done|].
    apply IH; [|lia..].
    pose proof (substring_length_le dataType 9 (String.length dataType - 1 - 9)). lia.
Qed.

Lemma nullable_prefix_suffix (T : string) :
  HasPrefix ("Nullable(" +:+ T +:+ ")") "Nullable(" && HasSuffix ("Nullable(" +:+ T +:+ ")") ")"
  = true.
Proof.
  apply andb_true_iff. split.
  - unfold HasPrefix. apply bool_decide_eq_true.
    apply (substring_app_l "Nullable(" (T +:+ ")")).
  - unfold HasSuffix. apply andb_true_iff. split.
    + apply Nat.leb_le. rewrite !string_length_app. cbn. lia.
    + apply bool_decide_eq_true.
      rewrite <- string_app_assoc.
      replace (String.length (("Nullable(" +:+ T) +:+ ")") - String.length ")")
        with (String.length ("Nullable(" +:+ T)) by (rewrite !string_length_app; cbn; lia).
      apply substring_app_r.
Qed.

Lemma nullable_inner (T : string) :
  String.substring 9 (String.length ("Nullable(" +:+ T +:+ ")") - 1 - 9) ("Nullable(" +:+ T +:+ ")")
  = T.
Proof.
  replace (String.length ("Nullable(" +:+ T +:+ ")") - 1 - 9) with (String.length T)
    by (rewrite !string_length_app; cbn; lia).
  change ("Nullable(" +:+ T +:+ ")") with
    (String "N" (String "u" (String "l" (String "l" (String "a" (String "b" (String "l"
       (String "e" (String "(" (T +:+ ")")))))))))).
  cbn [String.substring]. apply substring_app_l.
Qed.
End conversion.

(** X1: a [Nullable(T)] column reads the empty text as nil and any other
    text as a column of type [T] does, for every [T], nested wrappers
    included. *)
Theorem X1_convertValue_nullable_unwraps (v T : string) :
  FlatFile.convertValue v ("Nullable(" +:+ T +:+ ")")
  = if bool_decide (v = "") then FlatFile.VNil else FlatFile.convertValue v T.
Proof.
  unfold FlatFile.convertValue.
  assert (String.length ("Nullable(" +:+ T +:+ ")") = S (9 + String.length T)) as ->.
  { rewrite !string_length_app. cbn. lia. }
  rewrite convertValue_rec_nullable by apply nullable_prefix_suffix.
  rewrite nullable_inner. case_bool_decide; [done|].
  apply (convertValue_rec_fuel v (String.length T)); lia.
Qed.

(** X2: the width and the sign of a declared integer type, the width of
    a float type and the difference between [Date] and [DateTime] play no
    part in the conversion. *)
Theorem X2_convertValue_ignores_width (v : string) :
  (∀ t, t ∈ ["Int8"; "Int16"; "Int32"; "UInt8"; "UInt16"; "UInt32"; "UInt64"] →
        FlatFile.convertValue v t = FlatFile.convertValue v "Int64")
  ∧ FlatFile.convertValue v "Float32" = FlatFile.convertValue v "Float64"
  ∧ FlatFile.convertValue v "Date" = FlatFile.convertValue v "DateTime".
Proof.
  split; [|by split].
  intros t Ht. repeat (apply elem_of_cons in Ht as [->|Ht]; [reflexivity|]).
  by apply elem_of_nil in Ht.
Qed.

(** X3: converted at the type [inferType] gives it, a text never falls
    back to a zero value: the empty text becomes nil, and every other
    text the number or time that made [inferType] decide, or itself. *)
Theorem X3_convertValue_at_inferred_type (v : string) :
  FlatFile.convertValue v (FlatFile.inferType v)
  = if bool_decide (v = "") then FlatFile.VNil
    else
      match Strconv.ParseInt v with
      | Some i => FlatFile.VInt64 i
      | None =>
          match Strconv.ParseFloat v with
          | Some f => FlatFile.VFloat64 f
          | None =>
              match FlatFile.first_format FlatFile.dateFormats v with
              | Some t => FlatFile.VTime t
              | None => FlatFile.VString v
              end
          end
      end.
Proof.
  unfold FlatFile.inferType. case_bool_decide as Hv.
  - subst v. reflexivity.
  - destruct (Strconv.ParseInt v) as [i|] eqn:Hi.
    { change (FlatFile.convertValue v "Int64")
        with (match Strconv.ParseInt v with
              | Some i => FlatFile.VInt64 i | None => FlatFile.VInt 0 end).
      by rewrite Hi. }
    destruct (Strconv.ParseFloat v) as [f|] eqn:Hf.
    { change (FlatFile.convertValue v "Float64")
        with (match Strconv.ParseFloat v with
              | Some f => FlatFile.VFloat64 f
              | None => FlatFile.VFloat64 (Strconv.FNum false false 0 0) end).
      by rewrite Hf. }
    destruct (FlatFile.first_format FlatFile.dateFormats v) as [t|] eqn:Ht.
    { change (FlatFile.convertValue v "DateTime")
        with (match FlatFile.first_format FlatFile.dateFormats v with
              | Some t => FlatFile.VTime t | None => FlatFile.VTime GoTime.zero end).
      by rewrite Ht. }
    reflexivity.
Qed.

(** ** The dominant type of a column *)

Section dominant.
Import FlatFile.

(** The loop over the counts keeps the largest count seen so far and the
    first type that reached it. *)
Lemma most_common_acc (order : list (string * nat)) :
  ∀ m0 d0,
    let r := foldl (λ '(maxCount, dominantType) '(t, count),
                      if maxCount <? count then (count, t) else (maxCount, dominantType))
                   (m0, d0) order in
    m0 ≤ r.1
    ∧ (∀ t c, (t, c) ∈ order → c ≤ r.1)
    ∧ (r = (m0, d0) ∨ (m0 < r.1 ∧ (r.2, r.1) ∈ order)).
Proof.
  induction order as [|[t c] order IH]; intros m0 d0; cbn [foldl].
  - split_and!; [done | by intros ?? ?%elem_of_nil | by left].
  - destruct (m0 <? c) eqn:Hlt.
    + apply Nat.ltb_lt in Hlt.
      pose proof (IH c t) as Hr. cbv zeta in Hr |- *.
      destruct (foldl _ (c, t) order) as [m d]. cbn [fst snd] in *.
      destruct Hr as (Hle & Hall & Hsel). split_and!.
      * lia.
      * intros t' c' [[= -> ->]|Hin]%elem_of_cons; [done | by eapply Hall].
      * right. destruct Hsel as [[= -> ->]|[Hlt' Hin]].
        -- split; [done | by left].
        -- split; [lia | by right].
    + apply Nat.ltb_ge in Hlt.
      pose proof (IH m0 d0) as Hr. cbv zeta in Hr |- *.
      destruct (foldl _ (m0, d0) order) as [m d]. cbn [fst snd] in *.
      destruct Hr as (Hle & Hall & Hsel). split_and!.
      * done.
      * intros t' c' [[= -> ->]|Hin]%elem_of_cons; [lia | by eapply Hall].
      * destruct Hsel as [[= -> ->]|[Hlt' Hin]]; [by left | right].
        split; [done | by right].
Qed.

Lemma count_types_lookup_pos (types : list string) (t : string) (c : nat) :
  count_types types !! t = Some c → 0 < c.
Proof.
  unfold count_types. revert c.
  induction types as [|u types IH] using rev_ind; intros c.
  - cbn. by rewrite lookup_empty.
  - rewrite foldl_app. cbn [foldl]. destruct (decide (u = t)) as [->|Hne].
    + rewrite lookup_insert_eq. intros [= <-]. lia.
    + rewrite lookup_insert_ne by done. apply IH.
Qed.

Lemma count_types_lookup (types : list string) (t : string) (c : nat) :
  count_types types !! t = Some c → c = length (filter (λ u, u = t) types) ∧ 0 < c.
Proof.
  intros Hc. split; [|by eapply count_types_lookup_pos].
  rewrite <- count_types_spec. unfold map_get. by rewrite Hc.
Qed.

Lemma count_types_lookup_elem (types : list string) (t : string) :
  t ∈ types → count_types types !! t = Some (length (filter (λ u, u = t) types)).
Proof.
  intros Hin%count_types_pos. pose proof (count_types_spec types t) as Hspec.
  unfold map_get in *. destruct (count_types types !! t) as [c|]; cbn in *; [by subst | lia].
Qed.

(** Ranged over in any order, the counts of a sample that is not empty
    yield a type of the sample that no other type outnumbers. *)
Lemma most_common_mode (order : list (string * nat)) (types : list string) :
  types ≠ [] → range_order (count_types types) order →
  (most_common order).2 ∈ types
  ∧ ∀ t, length (filter (λ u, u = t) types)
         ≤ length (filter (λ u, u = (most_common order).2) types).
Proof.
  intros Hne Horder. unfold range_order in Horder.
  assert (∀ t c, (t, c) ∈ order ↔ count_types types !! t = Some c) as Hin.
  { intros t c. rewrite Horder. apply elem_of_map_to_list. }
  unfold most_common.
  destruct (most_common_acc order 0 "String") as (_ & Hall & Hsel).
  destruct (foldl _ _ order) as [m d]. cbn [fst snd] in *.
  assert (0 < m) as Hm.
  { destruct types as [|t0 types]; [done|].
    assert (t0 ∈ t0 :: types) as H0 by left.
    pose proof (count_types_pos _ _ H0) as Hpos.
    apply count_types_lookup_elem, Hin, Hall in H0.
    rewrite <- count_types_spec in H0. lia. }
  destruct Hsel as [[= -> ->]|[_ Hd]]; [lia|].
  apply Hin, count_types_lookup in Hd as [Hd _].
  split.
  - destruct (decide (d ∈ types)) as [|Hnin]; [done|].
    apply count_types_zero in Hnin. rewrite count_types_spec in Hnin. lia.
  - intros t. rewrite <- Hd.
    destruct (decide (t ∈ types)) as [Ht|Ht].
    + by apply count_types_lookup_elem, Hin, Hall in Ht.
    + apply count_types_zero in Ht. rewrite count_types_spec in Ht. lia.
Qed.

(** Without an empty value and without the two numeric types together,
    the answer is the most common type itself. *)
Lemma getDominantType_plain (order : list (string * nat)) (types : list string) :
  types ≠ [] → "Nullable(String)" ∉ types → ¬ ("Int64" ∈ types ∧ "Float64" ∈ types) →
  getDominantType order types = (most_common order).2.
Proof.
  intros Hne Hnull Hnum. unfold getDominantType.
  destruct types as [|t types]; [done|]. cbn [length Nat.eqb].
  assert ((0 <? map_get (count_types (t :: types)) "Int64")
          && (0 <? map_get (count_types (t :: types)) "Float64") = false) as ->.
  { apply andb_false_iff. rewrite !Nat.ltb_ge.
    destruct (decide ("Int64" ∈ t :: types)) as [Hi|Hi];
      destruct (decide ("Float64" ∈ t :: types)) as [Hf|Hf];
      [tauto | right | left | left]; by rewrite count_types_zero. }
  by rewrite (count_types_zero _ _ Hnull).
Qed.

Lemma range_order_two (a b : string) :
  a ≠ b →
  range_order (count_types [a; b]) [(a, 1); (b, 1)]
  ∧ range_order (count_types [a; b]) [(b, 1); (a, 1)].
Proof.
  intros Hab. unfold range_order.
  assert (count_types [a; b] = <[b := 1]> (<[a := 1]> ∅)) as ->.
  { unfold count_types. cbn [foldl]. unfold map_get.
    rewrite lookup_empty. cbn. rewrite lookup_insert_ne by done. by rewrite lookup_empty. }
  assert (map_to_list (<[b := 1]> (<[a := 1]> (∅ : gmap string nat))) ≡ₚ [(b, 1); (a, 1)]) as ->.
  { rewrite map_to_list_insert by (rewrite lookup_insert_ne by done; apply lookup_empty).
    by rewrite insert_empty, map_to_list_singleton. }
  split; [apply Permutation_swap | done].
Qed.
End dominant.

(** X4: for a sample with no empty value and not both numeric types,
    [getDominantType] answers with a type of the sample that occurs at
    least as often as every other, whatever the order of the map
    iteration. *)
Theorem X4_getDominantType_is_a_mode (order : list (string * nat)) (types : list string) :
  types ≠ [] →
  FlatFile.range_order (FlatFile.count_types types) order →
  "Nullable(String)" ∉ types →
  ¬ ("Int64" ∈ types ∧ "Float64" ∈ types) →
  FlatFile.getDominantType order types ∈ types
  ∧ ∀ t, length (filter (λ u, u = t) types)
         ≤ length (filter (λ u, u = FlatFile.getDominantType order types) types).
Proof.
  intros Hne Horder Hnull Hnum.
  rewrite getDominantType_plain by done. by apply most_common_mode.
Qed.

Lemma X4_witness :
  FlatFile.getDominantType [("String", 2); ("DateTime", 1)] ["String"; "DateTime"; "String"]
  ∈ ["String"; "DateTime"; "String"]
  ∧ ∀ t, length (filter (λ u, u = t) ["String"; "DateTime"; "String"])
         ≤ length (filter (λ u, u = FlatFile.getDominantType [("String", 2); ("DateTime", 1)]
                                        ["String"; "DateTime"; "String"])
                     ["String"; "DateTime"; "String"]).
Proof.
  apply X4_getDominantType_is_a_mode.
  - done.
  - unfold FlatFile.range_order. vm_compute. reflexivity.
  - by apply (bool_decide_unpack _).
  - intros [Hi _]. revert Hi. by apply (bool_decide_unpack _).
Defined.

(** X5: when two types tie, the order in which Go ranges over the map
    decides: for a sample of one value of each, either type is the
    answer, depending on which the iteration visits first. *)
Theorem X5_getDominantType_tie_follows_map_order (a b : string) :
  a ≠ b → a ≠ "Nullable(String)" → b ≠ "Nullable(String)" →
  ¬ ("Int64" ∈ [a; b] ∧ "Float64" ∈ [a; b]) →
  FlatFile.range_order (FlatFile.count_types [a; b]) [(a, 1); (b, 1)]
  ∧ FlatFile.range_order (FlatFile.count_types [a; b]) [(b, 1); (a, 1)]
  ∧ FlatFile.getDominantType [(a, 1); (b, 1)] [a; b] = a
  ∧ FlatFile.getDominantType [(b, 1); (a, 1)] [a; b] = b.
Proof.
  intros Hab Ha Hb Hnum.
  destruct (range_order_two a b Hab) as [H1 H2].
  assert ("Nullable(String)" ∉ [a; b]) as Hnull.
  { by intros [<-|[<-|?%elem_of_nil]%elem_of_cons]%elem_of_cons. }
  split_and!; [done | done | |]; by rewrite getDominantType_plain.
Qed.

Lemma X5_witness :
  FlatFile.range_order (FlatFile.count_types ["Int64"; "String"]) [("Int64", 1); ("String", 1)]
  ∧ FlatFile.range_order (FlatFile.count_types ["Int64"; "String"]) [("String", 1); ("Int64", 1)]
  ∧ FlatFile.getDominantType [("Int64", 1); ("String", 1)] ["Int64"; "String"] = "Int64"
  ∧ FlatFile.getDominantType [("String", 1); ("Int64", 1)] ["Int64"; "String"] = "String".
Proof.
  apply X5_getDominantType_tie_follows_map_order; [done | done | done |].
  intros [_ Hf]. revert Hf. by apply (bool_decide_unpack _).
Defined.

(** ** Reading a flat file *)

Section readers.
Import FlatFile.

Lemma imap_fmap_const {A B} (f : A → B) (l : list A) : imap (λ _, f) l = f <$> l.
Proof. apply (imap_const f). Qed.

(** The sampling loop leaves the columns it was given when the file ends
    at once. *)
Lemma sample_rows_end (n : nat) (reader reader' : Csv.Reader) (ncols : nat)
    (types : list (list string)) :
  Csv.Read reader = (Csv.EOF, reader') → sample_rows n reader ncols types = types.
Proof. intros Hend. destruct n; [done|]. cbn [sample_rows]. by rewrite Hend. Qed.

Lemma preview_row_keys (idx : gmap string nat) (record : list string) (P : string → Prop) :
  ∀ (selected : list Column) (row0 : gmap string value),
    (∀ k, is_Some (row0 !! k) → P k) →
    (∀ col i, col ∈ selected → idx !! Name col = Some i → P (Name col)) →
    ∀ k, is_Some (foldl (λ row col,
                           match idx !! Name col with
                           | Some i =>
                               match record !! i with
                               | Some v => <[Name col := convertValue v (Type_ col)]> row
                               | None => row
                               end
                           | None => row
                           end) row0 selected !! k) → P k.
Proof.
  induction selected as [|col selected IH]; intros row0 H0 Hsel k; cbn [foldl]; [by apply H0|].
  apply IH.
  - intros k'. destruct (idx !! Name col) as [i|] eqn:Hi; [|by apply H0].
    destruct (record !! i); [|by apply H0].
    destruct (decide (Name col = k')) as [<-|Hne].
    + intros _. eapply Hsel; [left | done].
    + rewrite lookup_insert_ne by done. apply H0.
  - intros col' i Hin. apply Hsel. by right.
Qed.

Lemma preview_rows_spec (idx : gmap string nat) (ncols : nat) (selected : list Column)
    (P : string → Prop) :
  (∀ col i, col ∈ selected → idx !! Name col = Some i → P (Name col)) →
  ∀ limit reader,
    length (preview_rows limit reader ncols idx selected) ≤ limit
    ∧ Forall (λ row : gmap string value, ∀ k, is_Some (row !! k) → P k)
        (preview_rows limit reader ncols idx selected).
Proof.
  intros Hsel. induction limit as [|limit IH]; intros reader; cbn [preview_rows].
  - split; [done | constructor].
  - destruct (Csv.Read reader) as [[|record|record|] reader'].
    + split; [cbn; lia | constructor].
    + destruct (IH reader') as [Hlen Hkeys].
      destruct (negb (length record =? ncols)); [split; [lia | done]|].
      split; [cbn; lia|]. constructor; [|done].
      apply preview_row_keys; [|done]. intros k. rewrite lookup_empty. by intros [? ?].
    + destruct (IH reader') as [Hlen Hkeys]. split; [lia | done].
    + destruct (IH reader') as [Hlen Hkeys]. split; [lia | done].
Qed.

Lemma read_rows_shape (idx : gmap string nat) (ncols : nat) (columns : list Column) :
  ∀ fuel reader,
    Forall (λ row,
              length row = length columns
              ∧ ∀ j col, columns !! j = Some col → idx !! Name col = None →
                         row !! j = Some VNil)
      (read_rows fuel reader ncols idx columns).
Proof.
  induction fuel as [|fuel IH]; intros reader; cbn [read_rows]; [constructor|].
  destruct (Csv.Read reader) as [[|record|record|] reader']; [constructor | | apply IH..].
  destruct (negb (length record =? ncols)); [apply IH|].
  constructor; [|apply IH]. split; [by rewrite length_fmap|].
  intros j col Hj Hidx. rewrite list_lookup_fmap, Hj. cbn. by rewrite Hidx.
Qed.
End readers.

(** X6: on success [DiscoverSchema] returns one column for each field of
    the first record of the file, named after it, in the order of the
    file. *)
Theorem X6_DiscoverSchema_names_follow_header
    (order : nat → list (string * nat)) (fs : gmap string string) (filePath delimiter : string)
    (columns : list Column) :
  FlatFile.DiscoverSchema order fs filePath delimiter = Ok columns →
  ∃ file header reader,
    fs !! filePath = Some file
    ∧ Csv.Read (Csv.NewReader file (FlatFile.delim_of delimiter)) = (Csv.Fields header, reader)
    ∧ Name <$> columns = header.
Proof.
  unfold FlatFile.DiscoverSchema, FlatFile.os_Open.
  destruct (fs !! filePath) as [file|]; [|done].
  destruct (Csv.Read _) as [[|header|?|] reader] eqn:Hread; try done.
  cbv zeta. generalize (FlatFile.sample_rows 100 reader (length header)
                          (replicate (length header) [])).
  intros types Heq. assert (columns = imap (λ i name, MkColumn name
                              (FlatFile.getDominantType (order i) (types !!! i))) header)
    as -> by congruence.
  exists file, header, reader. split_and!; [done | done |].
  rewrite fmap_imap. unfold compose. cbn [Name].
  by rewrite imap_fmap_const, list_fmap_id.
Qed.

Lemma X6_witness :
  ∃ file header reader,
    Sample.fs !! "in.csv" = Some file
    ∧ Csv.Read (Csv.NewReader file (FlatFile.delim_of ",")) = (Csv.Fields header, reader)
    ∧ Name <$> [MkColumn "a" "Int64"] = header.
Proof.
  apply (X6_DiscoverSchema_names_follow_header (λ _, [("Int64", 4)]) Sample.fs "in.csv" ",").
  by vm_compute.
Defined.

(** X7: a file that ends after its first record has no sample to
    classify, and every column is typed [String]. *)
Theorem X7_DiscoverSchema_header_only
    (order : nat → list (string * nat)) (fs : gmap string string) (filePath delimiter : string)
    (file : string) (header : list string) (reader reader' : Csv.Reader) :
  fs !! filePath = Some file →
  Csv.Read (Csv.NewReader file (FlatFile.delim_of delimiter)) = (Csv.Fields header, reader) →
  Csv.Read reader = (Csv.EOF, reader') →
  FlatFile.DiscoverSchema order fs filePath delimiter
  = Ok ((λ name, MkColumn name "String") <$> header).
Proof.
  intros Hfile Hhead Hend. unfold FlatFile.DiscoverSchema, FlatFile.os_Open.
  rewrite Hfile, Hhead. rewrite (sample_rows_end _ _ _ _ _ Hend). f_equal.
  rewrite <- imap_fmap_const. apply imap_ext. intros i name Hi. cbn.
  rewrite lookup_total_replicate_2 by (by eapply lookup_lt_Some). done.
Qed.

Lemma X7_witness :
  FlatFile.DiscoverSchema (λ _, []) {[ "h.csv" := Sample.line "id,name" ]} "h.csv" ""
  = Ok ((λ name, MkColumn name "String") <$> ["id"; "name"]).
Proof.
  eapply (X7_DiscoverSchema_header_only (λ _, []) {[ "h.csv" := Sample.line "id,name" ]}
            "h.csv" "" (Sample.line "id,name") ["id"; "name"]).
  - by vm_compute.
  - by vm_compute.
  - by vm_compute.
Defined.

(** X8: the three readers fail alike on a path that is not there, with
    the error of [os.Open] behind the prefix [failed to open file], and,
    given a delimiter the reader accepts, on an empty file, with
    [failed to read header: EOF]. *)
Theorem X8_readers_fail_on_missing_or_empty_file
    (order : nat → list (string * nat)) (fs : gmap string string) (filePath delimiter : string)
    (columns : list Column) (limit : nat) :
  (fs !! filePath = None →
   let e := "failed to open file: open " +:+ filePath +:+ ": no such file or directory" in
   FlatFile.DiscoverSchema order fs filePath delimiter = Err e
   ∧ FlatFile.PreviewData fs filePath delimiter columns limit = Err e
   ∧ FlatFile.ReadData fs filePath delimiter columns = Err e)
  ∧ (fs !! filePath = Some "" → Csv.validDelim (FlatFile.delim_of delimiter) = true →
     FlatFile.DiscoverSchema order fs filePath delimiter = Err "failed to read header: EOF"
     ∧ FlatFile.PreviewData fs filePath delimiter columns limit = Err "failed to read header: EOF"
     ∧ FlatFile.ReadData fs filePath delimiter columns = Err "failed to read header: EOF").
Proof.
  unfold FlatFile.DiscoverSchema, FlatFile.PreviewData, FlatFile.ReadData, FlatFile.os_Open.
  split.
  - intros ->. cbv zeta. by rewrite <- !string_app_assoc.
  - intros -> Hvalid. unfold Csv.NewReader, Csv.Read. cbn [Csv.Comma Csv.input].
    rewrite Hvalid. done.
Qed.

(** X9: a preview of a file holds at most [limit] rows, and every key of
    a row is a field of the file's first record and, when columns were
    asked for, the name of one of them. *)
Theorem X9_PreviewData_bounded_by_limit
    (fs : gmap string string) (filePath delimiter : string) (columns : list Column)
    (limit : nat) (file : string) (header : list string) (reader : Csv.Reader) :
  fs !! filePath = Some file →
  Csv.Read (Csv.NewReader file (FlatFile.delim_of delimiter)) = (Csv.Fields header, reader) →
  ∃ rows,
    FlatFile.PreviewData fs filePath delimiter columns limit = Ok rows
    ∧ length rows ≤ limit
    ∧ Forall (λ row : gmap string FlatFile.value,
                ∀ k, is_Some (row !! k) →
                     k ∈ header ∧ (columns ≠ [] → k ∈ Name <$> columns)) rows.
Proof.
  intros Hfile Hhead. unfold FlatFile.PreviewData, FlatFile.os_Open.
  rewrite Hfile, Hhead. eexists. split; [done|].
  apply preview_rows_spec. intros col i Hcol Hi.
  pose proof (index_columns_lookup header (Name col)) as Hidx. rewrite Hi in Hidx.
  split; [by eapply list_elem_of_lookup_2|].
  intros Hne. destruct columns as [|col0 columns]; [done|]. cbn [length Nat.eqb] in Hcol.
  by apply list_elem_of_fmap_2.
Qed.

Lemma X9_witness :
  ∃ rows,
    FlatFile.PreviewData Sample.fs "in.csv" "," Sample.columns 2 = Ok rows
    ∧ length rows ≤ 2
    ∧ Forall (λ row : gmap string FlatFile.value,
                ∀ k, is_Some (row !! k) →
                     k ∈ ["a"] ∧ (Sample.columns ≠ [] → k ∈ Name <$> Sample.columns)) rows.
Proof.
  eapply (X9_PreviewData_bounded_by_limit Sample.fs "in.csv" "," Sample.columns 2).
  - by vm_compute.
  - by vm_compute.
Defined.

(** X10: every row [ReadData] yields has one value for each requested
    column, in their order, and nil at each column whose name is not a
    field of the file's first record. *)
Theorem X10_ReadData_rows_follow_columns
    (fs : gmap string string) (filePath delimiter : string) (columns : list Column)
    (file : string) (header : list string) (reader : Csv.Reader) :
  fs !! filePath = Some file →
  Csv.Read (Csv.NewReader file (FlatFile.delim_of delimiter)) = (Csv.Fields header, reader) →
  ∃ rows,
    FlatFile.ReadData fs filePath delimiter columns = Ok rows
    ∧ Forall (λ row,
                length row = length columns
                ∧ ∀ j col, columns !! j = Some col → Name col ∉ header →
                           row !! j = Some FlatFile.VNil) rows.
Proof.
  intros Hfile Hhead. unfold FlatFile.ReadData, FlatFile.os_Open.
  rewrite Hfile, Hhead. eexists. split; [done|].
  eapply Forall_impl; [apply read_rows_shape|].
  intros row [Hlen Hnil]. split; [done|]. intros j col Hj Hnin. apply (Hnil j col Hj).
  pose proof (index_columns_lookup header (Name col)) as Hidx.
  destruct (FlatFile.index_columns header !! Name col) as [i|]; [|done].
  exfalso. apply Hnin. by eapply list_elem_of_lookup_2.
Qed.

Lemma X10_witness :
  ∃ rows,
    FlatFile.ReadData Sample.fs "in.csv" "," [MkColumn "a" "Int64"; MkColumn "b" "String"]
    = Ok rows
    ∧ Forall (λ row,
                length row = length [MkColumn "a" "Int64"; MkColumn "b" "String"]
                ∧ ∀ j col, [MkColumn "a" "Int64"; MkColumn "b" "String"] !! j = Some col →
                           Name col ∉ ["a"] → row !! j = Some FlatFile.VNil) rows.
Proof.
  eapply (X10_ReadData_rows_follow_columns Sample.fs "in.csv" ","
            [MkColumn "a" "Int64"; MkColumn "b" "String"]).
  - by vm_compute.
  - by vm_compute.
Defined.

(** ** Progress of the row loops *)

Section progress.
Import FlatFile ClickHouse Ingest.

Lemma multiples_step (p n : Z) :
  (0 < p)%Z → (0 ≤ n)%Z →
  multiples p (n + 1)
  = if ((n + 1) mod p =? 0)%Z then multiples p n ++ [(n + 1)%Z] else multiples p n.
Proof.
  intros Hp Hn. unfold multiples.
  assert (0 ≤ n / p)%Z as Hq by (apply Z.div_pos; lia).
  destruct ((n + 1) mod p =? 0)%Z eqn:Hmod.
  - apply Z.eqb_eq in Hmod.
    pose proof (Z.div_mod n p ltac:(lia)). pose proof (Z.mod_pos_bound n p Hp).
    pose proof (Z.div_mod (n + 1) p ltac:(lia)).
    assert ((n + 1) / p = n / p + 1)%Z as Hdiv by nia.
    rewrite Hdiv, Z2Nat.inj_add, Nat.add_comm by lia. change (Z.to_nat 1) with 1.
    rewrite seq_S, fmap_app. cbn [fmap list_fmap]. do 2 f_equal.
    rewrite Nat2Z.inj_add, Z2Nat.id by lia. nia.
  - apply Z.eqb_neq in Hmod.
    assert ((n + 1) / p = n / p)%Z as ->; [|done].
    pose proof (Z.div_mod n p ltac:(lia)). pose proof (Z.mod_pos_bound n p Hp).
    pose proof (Z.div_mod (n + 1) p ltac:(lia)). pose proof (Z.mod_pos_bound (n + 1) p Hp).
    nia.
Qed.

Lemma multiples_zero (p : Z) : multiples p 0 = [].
Proof. unfold multiples. by rewrite Zdiv_0_l. Qed.

(** The test [totalRows - lastReportedCount >= progressReportSize] of the
    write loop, with the last report at the last multiple. *)
Lemma report_test (prs n : Z) :
  (0 ≤ n)%Z →
  let p := Z.max 1 prs in
  (prs <=? n + 1 - p * (n / p))%Z = ((n + 1) mod p =? 0)%Z
  ∧ (if ((n + 1) mod p =? 0)%Z then (n + 1)%Z else (p * (n / p))%Z) = (p * ((n + 1) / p))%Z.
Proof.
  intros Hn p. assert (0 < p ∧ prs ≤ p)%Z as [Hp Hprs] by lia.
  assert (prs < 1 → p = 1)%Z as Hone by lia.
  assert (1 ≤ prs → p = prs)%Z as Hsame by lia. clearbody p.
  pose proof (Z.div_mod n p ltac:(lia)). pose proof (Z.mod_pos_bound n p Hp).
  pose proof (Z.div_mod (n + 1) p ltac:(lia)). pose proof (Z.mod_pos_bound (n + 1) p Hp).
  assert (0 ≤ n / p)%Z by (apply Z.div_pos; lia).
  destruct ((n + 1) mod p =? 0)%Z eqn:Hmod.
  - apply Z.eqb_eq in Hmod.
    assert ((n + 1) / p = n / p + 1)%Z as Hdiv by nia.
    split; [apply Z.leb_le; nia | nia].
  - apply Z.eqb_neq in Hmod.
    assert ((n + 1) / p = n / p)%Z as Heq by nia.
    split; [|by rewrite Heq].
    apply Z.leb_gt. destruct (Z.lt_ge_cases prs 1) as [Hlt|Hge].
    + rewrite (Hone Hlt), Z.mod_1_r in Hmod. done.
    + rewrite (Hsame Hge) in *. nia.
Qed.

Lemma processing_Written (n : Z) :
  MkProgress "processing" ("Written " +:+ itoa n +:+ " rows") n false = processing "Written" n.
Proof. reflexivity. Qed.

Lemma processing_Fetched (n : Z) :
  MkProgress "processing" ("Fetched " +:+ itoa n +:+ " rows") n false = processing "Fetched" n.
Proof. reflexivity. Qed.

Lemma processing_Processed (n : Z) :
  MkProgress "processing" ("Processed " +:+ itoa n +:+ " rows") n false
  = processing "Processed" n.
Proof. reflexivity. Qed.

Context {V : Type} (Sprintf_v : V → string).

(** The write loop reports at every multiple of the report size, a size
    below one counting as one. *)
Lemma write_rows_progress (comma : Z) (columns : list Column) (prs : Z)
    (rows : list (gmap string V)) :
  Csv.validDelim comma = true →
  ∀ st,
    (0 ≤ w_totalRows st)%Z →
    w_lastReportedCount st = (Z.max 1 prs * (w_totalRows st / Z.max 1 prs))%Z →
    w_events st = processing "Written" <$> multiples (Z.max 1 prs) (w_totalRows st) →
    w_events (write_rows Sprintf_v comma columns prs rows st).1
    = processing "Written" <$> multiples (Z.max 1 prs) (w_totalRows st + Z.of_nat (length rows)).
Proof.
  intros Hvalid. induction rows as [|row rows IH]; intros st Hn Hlast Hev.
  - cbn. by rewrite Z.add_0_r.
  - cbn [write_rows]. unfold Csv.Write. rewrite Hvalid. cbn [negb].
    destruct (report_test prs (w_totalRows st) Hn) as [Htest Hnext]. cbv zeta in Htest, Hnext.
    rewrite IH; cbn [w_totalRows w_lastReportedCount w_events].
    + f_equal. f_equal. cbn [length]. lia.
    + lia.
    + rewrite Hlast, Htest. done.
    + rewrite Hlast, Htest, Hev, processing_Written, multiples_step by lia.
      destruct (_ =? 0)%Z; [|done]. by rewrite fmap_app.
Qed.

(** The fetch loop skips the rows whose scan fails, sends the others in
    order and reports at every multiple of the report size. *)
Lemma fetch_rows_spec (columnNames : list string) (p : Z) (rows : list (scan_outcome V)) :
  p ≠ 0%Z →
  ∀ totalRows events sent,
    (0 ≤ totalRows)%Z →
    events = processing "Fetched" <$> multiples (Z.abs p) totalRows →
    fetch_rows columnNames p rows totalRows (MkFetch events sent false)
    = (MkFetch
         (processing "Fetched"
            <$> multiples (Z.abs p) (totalRows + Z.of_nat (length (scanned rows))))
         (sent ++ (row_map columnNames <$> scanned rows)) false,
       (totalRows + Z.of_nat (length (scanned rows)))%Z).
Proof.
  intros Hp. induction rows as [|[rowValues|e] rows IH]; intros totalRows events sent Hn Hev.
  - cbn. by rewrite Z.add_0_r, app_nil_r, Hev.
  - cbn [fetch_rows f_events f_sent]. rewrite (proj2 (Z.eqb_neq p 0) Hp).
    assert (Z.rem (totalRows + 1) p = (totalRows + 1) mod Z.abs p)%Z as ->.
    { rewrite <- Z.rem_abs_r by done. apply Z.rem_mod_nonneg; lia. }
    change (scanned (ScanOk rowValues :: rows)) with (rowValues :: scanned rows).
    cbn [length fmap list_fmap].
    replace (totalRows + Z.of_nat (S (length (scanned rows))))%Z
      with (totalRows + 1 + Z.of_nat (length (scanned rows)))%Z by lia.
    rewrite IH.
    + by rewrite <- (assoc_L (++)).
    + lia.
    + rewrite Hev, processing_Fetched, multiples_step by lia.
      destruct (_ =? 0)%Z; [by rewrite fmap_app | done].
  - change (scanned (ScanErr e :: rows)) with (scanned rows). cbn [fetch_rows]. by apply IH.
Qed.

(** The loop of [ExecuteQuery] over rows whose scan succeeds. *)
Lemma count_rows_spec (p : Z) (rowsErr : option string) (vs : list (list V))
    (rest : list (scan_outcome V)) :
  p ≠ 0%Z →
  ∀ totalRows events,
    (0 ≤ totalRows)%Z →
    events = processing "Processed" <$> multiples (Z.abs p) totalRows →
    count_rows p ((ScanOk <$> vs) ++ rest) rowsErr totalRows events
    = count_rows p rest rowsErr (totalRows + Z.of_nat (length vs))
        (processing "Processed" <$> multiples (Z.abs p) (totalRows + Z.of_nat (length vs))).
Proof.
  intros Hp. induction vs as [|v vs IH]; intros totalRows events Hn Hev.
  - cbn. by rewrite Z.add_0_r, Hev.
  - cbn [fmap list_fmap app count_rows length]. rewrite (proj2 (Z.eqb_neq p 0) Hp).
    assert (Z.rem (totalRows + 1) p = (totalRows + 1) mod Z.abs p)%Z as ->.
    { rewrite <- Z.rem_abs_r by done. apply Z.rem_mod_nonneg; lia. }
    replace (totalRows + Z.of_nat (S (length vs)))%Z
      with (totalRows + 1 + Z.of_nat (length vs))%Z by lia.
    apply IH; [lia|].
    rewrite Hev, processing_Processed, multiples_step by lia.
    destruct (_ =? 0)%Z; [by rewrite fmap_app | done].
Qed.

(** [WriteData] on a file it could create, with a delimiter the writer
    accepts. *)
Lemma WriteData_valid (fs : gmap string string) (filePath delimiter : string)
    (columns : list Column) (prs : Z) (rows : list (gmap string V)) :
  Csv.validDelim (delim_of delimiter) = true →
  WriteData Sprintf_v Created fs filePath delimiter columns prs rows
  = MkWriteResult
      (<[filePath := written_file Sprintf_v (delim_of delimiter) columns rows]> fs)
      (processing "Written" <$> multiples (Z.max 1 prs) (Z.of_nat (length rows)))
      (Z.of_nat (length rows)) None.
Proof.
  intros Hvalid. unfold WriteData, Csv.Write. rewrite Hvalid. cbn [negb].
  pose proof (write_rows_progress (delim_of delimiter) columns prs rows Hvalid
                (MkWriteState
                   (Csv.write_fields (delim_of delimiter) 0 (Name <$> columns)
                      +:+ String Csv.LF "") 0 0 [])) as Hev.
  destruct (write_rows_spec Sprintf_v (delim_of delimiter) columns prs rows Hvalid
              (MkWriteState
                 (Csv.write_fields (delim_of delimiter) 0 (Name <$> columns)
                    +:+ String Csv.LF "") 0 0 [])) as (last & events & Heq).
  rewrite Heq in Hev |- *. cbn [fst w_events w_totalRows w_out] in Hev |- *.
  rewrite Hev; [done | done | by rewrite Zdiv_0_l, Z.mul_0_r | by rewrite multiples_zero].
Qed.
End progress.

(** X11: with a delimiter the writer accepts, [WriteData] writes every
    row it is sent and returns their number without error; the file then
    holds the header record and one record for each row, in order, with
    the empty text for a key a row lacks. *)
Theorem X11_WriteData_writes_every_row
    {V : Type} (Sprintf_v : V → string) (fs : gmap string string)
    (filePath delimiter : string) (columns : list Column) (progressReportSize : Z)
    (rows : list (gmap string V)) :
  Csv.validDelim (FlatFile.delim_of delimiter) = true →
  let w := FlatFile.WriteData Sprintf_v FlatFile.Created fs filePath delimiter columns
             progressReportSize rows in
  FlatFile.wr_err w = None
  ∧ FlatFile.wr_count w = Z.of_nat (length rows)
  ∧ FlatFile.wr_fs w
    = <[filePath := written_file Sprintf_v (FlatFile.delim_of delimiter) columns rows]> fs.
Proof. intros Hvalid. cbv zeta. by rewrite WriteData_valid. Qed.

Lemma X11_witness :
  let w := FlatFile.WriteData (λ v : string, v) FlatFile.Created ∅ "out.csv" ";"
             Sample.two_columns 5000 Sample.two_rows in
  FlatFile.wr_err w = None
  ∧ FlatFile.wr_count w = Z.of_nat (length Sample.two_rows)
  ∧ FlatFile.wr_fs w
    = <["out.csv" := written_file (λ v : string, v) (FlatFile.delim_of ";") Sample.two_columns
                       Sample.two_rows]> ∅.
Proof.
  apply (X11_WriteData_writes_every_row (λ v : string, v) ∅ "out.csv" ";" Sample.two_columns
           5000 Sample.two_rows).
  reflexivity.
Defined.

(** X12: [WriteData] sends one [processing] update each time the number
    of rows written reaches a multiple of the report size, with that
    number as its count, and no other; a report size below one makes it
    report every row. *)
Theorem X12_WriteData_reports_at_multiples
    {V : Type} (Sprintf_v : V → string) (fs : gmap string string)
    (filePath delimiter : string) (columns : list Column) (progressReportSize : Z)
    (rows : list (gmap string V)) :
  Csv.validDelim (FlatFile.delim_of delimiter) = true →
  FlatFile.wr_events
    (FlatFile.WriteData Sprintf_v FlatFile.Created fs filePath delimiter columns
       progressReportSize rows)
  = processing "Written"
      <$> multiples (Z.max 1 progressReportSize) (Z.of_nat (length rows)).
Proof. intros Hvalid. by rewrite WriteData_valid. Qed.

Lemma X12_witness :
  FlatFile.wr_events
    (FlatFile.WriteData (λ v : string, v) FlatFile.Created ∅ "out.csv" "," Sample.one_column 2
       [ {[ "a" := "1" ]}; {[ "a" := "2" ]}; {[ "a" := "3" ]}; {[ "a" := "4" ]};
         {[ "a" := "5" ]} ])
  = processing "Written" <$> multiples (Z.max 1 2) (Z.of_nat 5).
Proof.
  apply (X12_WriteData_reports_at_multiples (λ v : string, v) ∅ "out.csv" ","
           Sample.one_column 2).
  reflexivity.
Defined.

Section refused_delimiter.
Import Strconv Utf8 FlatFile.

(** A delimiter string that starts with an ASCII byte stands for that
    byte. *)
Lemma delim_of_ascii (b : ascii) (rest : string) :
  (code b <? 128)%Z = true → delim_of (String b rest) = code b.
Proof.
  intros Hb. rewrite delim_of_nonempty by done.
  unfold DecodeRuneInString. by rewrite Hb.
Qed.
End refused_delimiter.

(** X13: a delimiter string that starts with a NUL, a line feed, a
    carriage return or a double quote is refused by the csv package:
    [WriteData] fails on the header, with no row written or counted, and
    leaves the file, which it has already created, empty whatever it
    held; [ReadData] fails on the header of any file. *)
Theorem X13_refused_delimiter_leaves_empty_file
    {V : Type} (Sprintf_v : V → string) (fs : gmap string string)
    (filePath : string) (b : ascii) (rest : string) (columns : list Column)
    (progressReportSize : Z) (rows : list (gmap string V)) :
  Strconv.code b ∈ [0; 10; 13; 34]%Z →
  FlatFile.WriteData Sprintf_v FlatFile.Created fs filePath (String b rest) columns
    progressReportSize rows
  = FlatFile.MkWriteResult (<[filePath := ""]> fs) [] 0
      (Some "failed to write header: csv: invalid field or comment delimiter")
  ∧ (is_Some (fs !! filePath) →
     FlatFile.ReadData fs filePath (String b rest) columns
     = Err "failed to read header: csv: invalid field or comment delimiter").
Proof.
  intros Hb.
  assert (Csv.validDelim (FlatFile.delim_of (String b rest)) = false) as Hvalid.
  { rewrite delim_of_ascii.
    - repeat (apply elem_of_cons in Hb as [->|Hb]; [reflexivity|]). by apply elem_of_nil in Hb.
    - repeat (apply elem_of_cons in Hb as [->|Hb]; [reflexivity|]). by apply elem_of_nil in Hb. }
  split.
  - unfold FlatFile.WriteData, Csv.Write. by rewrite Hvalid.
  - intros [file Hfile]. unfold FlatFile.ReadData, FlatFile.os_Open. rewrite Hfile.
    unfold Csv.NewReader, Csv.Read. cbn [Csv.Comma]. by rewrite Hvalid.
Qed.

Lemma X13_witness :
  FlatFile.WriteData (λ v : string, v) FlatFile.Created Sample.fs "in.csv"
    (String Csv.QUOTE ";") Sample.columns 5000 [ {[ "a" := "1" ]} ]
  = FlatFile.MkWriteResult (<["in.csv" := ""]> Sample.fs) [] 0
      (Some "failed to write header: csv: invalid field or comment delimiter")
  ∧ (is_Some (Sample.fs !! "in.csv") →
     FlatFile.ReadData Sample.fs "in.csv" (String Csv.QUOTE ";") Sample.columns
     = Err "failed to read header: csv: invalid field or comment delimiter").
Proof.
  apply (X13_refused_delimiter_leaves_empty_file (λ v : string, v) Sample.fs "in.csv" Csv.QUOTE
           ";").
  by apply (bool_decide_unpack _).
Defined.

(** X14: with a report size other than zero, the fetching goroutine of a
    store-to-file transfer sends on one map for each row whose scan
    succeeds, in order, and silently leaves out the rows whose scan
    fails; it reports at every multiple of the report size, taken without
    its sign, and ends with a completed [error] update when the iteration
    itself fails. *)
Theorem X14_fetch_skips_failed_scans
    {V : Type} (columnNames : list string) (rows : list (ClickHouse.scan_outcome V))
    (rowsErr : option string) (progressReportSize : Z) :
  progressReportSize ≠ 0%Z →
  let n := Z.of_nat (length (scanned rows)) in
  Ingest.fetch (ClickHouse.QueryRows columnNames rows rowsErr) progressReportSize
  = Ingest.MkFetch
      ((processing "Fetched" <$> multiples (Z.abs progressReportSize) n)
       ++ match rowsErr with
          | Some e => [MkProgress "error" ("Error iterating rows: " +:+ e) n true]
          | None => []
          end)
      (ClickHouse.row_map columnNames <$> scanned rows) false.
Proof.
  intros Hp. cbv zeta. unfold Ingest.fetch.
  rewrite (fetch_rows_spec columnNames progressReportSize rows Hp 0 [] [])
    by (done || by rewrite multiples_zero).
  cbn [Ingest.f_panic Ingest.f_events Ingest.f_sent]. rewrite Z.add_0_l.
  destruct rowsErr; [done | by rewrite app_nil_r].
Qed.

Lemma X14_witness :
  let rows := [ClickHouse.ScanOk ["1"]; ClickHouse.ScanErr "bad value"; ClickHouse.ScanOk ["2"]] in
  let n := Z.of_nat (length (scanned rows)) in
  Ingest.fetch (ClickHouse.QueryRows ["a"] rows (Some "connection lost")) (-2)
  = Ingest.MkFetch
      ((processing "Fetched" <$> multiples (Z.abs (-2)) n)
       ++ [MkProgress "error" ("Error iterating rows: " +:+ "connection lost") n true])
      (ClickHouse.row_map ["a"] <$> scanned rows) false.
Proof.
  apply (X14_fetch_skips_failed_scans ["a"]
           [ClickHouse.ScanOk ["1"]; ClickHouse.ScanErr "bad value"; ClickHouse.ScanOk ["2"]]
           (Some "connection lost") (-2)).
  done.
Defined.

(** X15: with a report size of zero the fetching goroutine panics on the
    remainder it takes after the first row whose scan succeeds: that row
    has been sent on, no update has. *)
Theorem X15_fetch_zero_report_size_panics
    {V : Type} (columnNames : list string) (rows : list (ClickHouse.scan_outcome V))
    (rowsErr : option string) :
  scanned rows ≠ [] →
  Ingest.fetch (ClickHouse.QueryRows columnNames rows rowsErr) 0
  = Ingest.MkFetch [] (ClickHouse.row_map columnNames <$> take 1 (scanned rows)) true.
Proof.
  intros Hne. unfold Ingest.fetch.
  assert (Ingest.fetch_rows columnNames 0 rows 0 (Ingest.MkFetch [] [] false)
          = (Ingest.MkFetch [] (ClickHouse.row_map columnNames <$> take 1 (scanned rows)) true,
             1%Z)) as ->; [|done].
  induction rows as [|[rowValues|e] rows IH]; [done | done |].
  cbn [Ingest.fetch_rows]. by apply IH.
Qed.

Lemma X15_witness :
  Ingest.fetch
    (ClickHouse.QueryRows ["a"]
       [ClickHouse.ScanErr "bad value"; ClickHouse.ScanOk ["1"]; ClickHouse.ScanOk ["2"]] None) 0
  = Ingest.MkFetch []
      (ClickHouse.row_map ["a"]
         <$> take 1 (scanned [ClickHouse.ScanErr "bad value"; ClickHouse.ScanOk ["1"];
                              ClickHouse.ScanOk ["2"]])) true.
Proof.
  apply (X15_fetch_zero_report_size_panics ["a"]
           [ClickHouse.ScanErr "bad value"; ClickHouse.ScanOk ["1"]; ClickHouse.ScanOk ["2"]]).
  done.
Defined.

(** X16: a store-to-file transfer whose query is accepted returns as its
    number of records the number of rows whose scan succeeded, and
    returns it without error even when the row iteration failed; the file
    holds the header and those rows.  The query is the one given or, when
    none is given, a [SELECT] of the column names from the table. *)
Theorem X16_store_to_file_counts_scanned_rows
    {V : Type} (Sprintf_v : V → string) (c : ClickHouse.Conn V) (cfg : Config)
    (fs : gmap string string) (tableName : string) (columns : list Column)
    (params : Ingest.FlatFileParams) (query : string)
    (columnNames : list string) (rows : list (ClickHouse.scan_outcome V))
    (rowsErr : option string) :
  ClickHouse.Query c
    (if bool_decide (query = "")
     then "SELECT " +:+ Join (Name <$> columns) ", " +:+ " FROM " +:+ tableName
     else query)
  = ClickHouse.QueryRows columnNames rows rowsErr →
  ProgressReportSize cfg ≠ 0%Z →
  Csv.validDelim (FlatFile.delim_of (Ingest.Delimiter params)) = true →
  let t := Ingest.IngestClickHouseToFlatFile Sprintf_v c cfg FlatFile.Created fs tableName
             columns params query in
  Ingest.sf_result t = Ok (Z.of_nat (length (scanned rows)))
  ∧ FlatFile.wr_fs (Ingest.sf_write t)
    = <[Ingest.FilePath params :=
          written_file Sprintf_v (FlatFile.delim_of (Ingest.Delimiter params)) columns
            (ClickHouse.row_map columnNames <$> scanned rows)]> fs.
Proof.
  intros Hquery Hp Hvalid. cbv zeta. unfold Ingest.IngestClickHouseToFlatFile.
  cbn [Ingest.sf_result Ingest.sf_write]. rewrite Hquery.
  pose proof (fetch_rows_spec columnNames (ProgressReportSize cfg) rows Hp 0 [] []) as Hfetch.
  unfold Ingest.fetch. rewrite Hfetch by (done || by rewrite multiples_zero).
  cbn [Ingest.f_panic].
  assert (∀ r, Ingest.f_sent
                 match rowsErr with
                 | Some e =>
                     Ingest.MkFetch
                       (Ingest.f_events r ++
                        [MkProgress "error" ("Error iterating rows: " +:+ e)
                           (0 + Z.of_nat (length (scanned rows))) true])
                       (Ingest.f_sent r) false
                 | None => r
                 end = Ingest.f_sent r) as -> by (by destruct rowsErr).
  cbn [Ingest.f_sent app]. rewrite (WriteData_valid Sprintf_v) by done.
  cbn [FlatFile.wr_err FlatFile.wr_count FlatFile.wr_fs]. by rewrite length_fmap.
Qed.

Lemma X16_witness :
  let c := ClickHouse.MkConn
             (λ _, ClickHouse.QueryRows ["a"]
                     [ClickHouse.ScanOk ["1"]; ClickHouse.ScanErr "bad value";
                      ClickHouse.ScanOk ["2"]] (Some "connection lost"))
             (λ _, None) (λ _ _ _, None) in
  let t := Ingest.IngestClickHouseToFlatFile (λ v : string, v) c Sample.cfg FlatFile.Created ∅
             "t" Sample.columns Sample.out_params "" in
  Ingest.sf_result t
  = Ok (Z.of_nat (length (scanned [ClickHouse.ScanOk ["1"]; ClickHouse.ScanErr "bad value";
                                   ClickHouse.ScanOk ["2"]])))
  ∧ FlatFile.wr_fs (Ingest.sf_write t)
    = <[Ingest.FilePath Sample.out_params :=
          written_file (λ v : string, v) (FlatFile.delim_of (Ingest.Delimiter Sample.out_params))
            Sample.columns
            (ClickHouse.row_map ["a"]
               <$> scanned [ClickHouse.ScanOk ["1"]; ClickHouse.ScanErr "bad value";
                            ClickHouse.ScanOk ["2"]])]> ∅.
Proof.
  apply (X16_store_to_file_counts_scanned_rows (λ v : string, v)
           (ClickHouse.MkConn
              (λ _, ClickHouse.QueryRows ["a"]
                      [ClickHouse.ScanOk ["1"]; ClickHouse.ScanErr "bad value";
                       ClickHouse.ScanOk ["2"]] (Some "connection lost"))
              (λ _, None) (λ _ _ _, None))
           Sample.cfg ∅ "t" Sample.columns Sample.out_params "" ["a"]
           [ClickHouse.ScanOk ["1"]; ClickHouse.ScanErr "bad value"; ClickHouse.ScanOk ["2"]]
           (Some "connection lost")).
  - reflexivity.
  - done.
  - reflexivity.
Defined.

(** ** Batches *)

Section batches.
Import ClickHouse Ingest Handler.
Context {V : Type}.

Lemma processing_Inserted (n : Z) :
  MkProgress "processing" ("Inserted " +:+ FlatFile.itoa n +:+ " rows") n false
  = processing "Inserted" n.
Proof. reflexivity. Qed.

Lemma multiples_add_step (b k : Z) :
  (0 < b)%Z → (0 ≤ k)%Z → multiples b (k * b + b) = multiples b (k * b) ++ [(k * b + b)%Z].
Proof.
  intros Hb Hk. unfold multiples.
  replace (k * b + b)%Z with ((k + 1) * b)%Z by lia.
  rewrite !Z.div_mul by lia.
  rewrite Z2Nat.inj_add, Nat.add_comm by lia. change (Z.to_nat 1) with 1.
  rewrite seq_S, fmap_app. cbn [fmap list_fmap]. do 2 f_equal.
  rewrite Nat2Z.inj_add, Z2Nat.id by lia. lia.
Qed.

Lemma multiples_add_less (b k r : Z) :
  (0 < b)%Z → (0 ≤ k)%Z → (0 ≤ r < b)%Z → multiples b (k * b + r) = multiples b (k * b).
Proof.
  intros Hb Hk Hr. unfold multiples.
  rewrite Z.div_mul by lia.
  rewrite (Z.add_comm (k * b)), Z.div_add, (Z.div_small r b) by lia. done.
Qed.

(** The insert loop submits a batch as soon as it holds the batch size
    (one row when the size is zero), so every batch in the store has that
    size; it reports only after a batch was accepted. *)
Lemma insert_rows_batches (c : Conn V) (cfg : Config) (query : string)
    (data : list (list FlatFile.value)) :
  let b := Nat.max 1 (BatchSize cfg) in
  ∀ st st' err,
    insert_rows c cfg query data st = (st', err) →
    Forall (λ batch, length batch = b) (i_stored st) →
    length (i_batch st) < b →
    i_totalRows st = (Z.of_nat (length (i_stored st)) * Z.of_nat b)%Z →
    i_events st `sublist_of` processing "Inserted" <$> multiples (Z.of_nat b) (i_totalRows st) →
    Forall (λ batch, length batch = b) (i_stored st')
    ∧ (err = None → length (i_batch st') < b)
    ∧ length (i_batch st') ≤ b
    ∧ i_totalRows st' = (Z.of_nat (length (i_stored st')) * Z.of_nat b)%Z
    ∧ i_events st' `sublist_of`
        processing "Inserted" <$> multiples (Z.of_nat b) (i_totalRows st').
Proof.
  intros b. induction data as [|rowData data IH]; intros st st' err; cbn [insert_rows].
  - intros [= <- <-] Hst Hb Hn Hev. split_and!; [done | done | lia | done | done].
  - destruct (BatchSize cfg <=? length (i_batch st ++ [rowData])) eqn:Hfull.
    + apply Nat.leb_le in Hfull. rewrite length_app in Hfull. cbn [length] in Hfull.
      destruct (AsyncInsert c (i_stored st) query (i_batch st ++ [rowData])) as [e'|].
      * intros [= <- <-] Hst Hb Hn Hev. cbn.
        split_and!; [done | done | rewrite length_app; cbn; lia | done | done].
      * intros Hrun Hst Hb Hn Hev.
        assert (length (i_batch st ++ [rowData]) = b) as Hlen.
        { rewrite length_app. cbn [length]. lia. }
        apply IH in Hrun; [done | ..]; cbn [i_stored i_batch i_totalRows i_events].
        -- apply Forall_app. split; [done|]. by constructor.
        -- cbn. lia.
        -- rewrite Hlen, length_app, Hn. cbn [length]. lia.
        -- rewrite Hlen, Hn, multiples_add_step by lia.
           rewrite fmap_app. rewrite Hn in Hev.
           match goal with |- context [if ?t then _ else _] => destruct t end.
           ++ rewrite processing_Inserted. by apply sublist_app.
           ++ by apply sublist_inserts_r.
    + apply Nat.leb_gt in Hfull. rewrite length_app in Hfull. cbn [length] in Hfull.
      intros Hrun Hst Hb Hn Hev.
      apply IH in Hrun; [done | ..]; cbn [i_stored i_batch i_totalRows i_events];
        [done | | done | done].
      rewrite length_app. cbn [length]. lia.
Qed.

(** [InsertData] as to its batches and updates, whatever the store
    answers. *)
Lemma InsertData_batches (c : Conn V) (cfg : Config) (tableName : string)
    (columns : list Column) (data : list (list FlatFile.value)) :
  let b := Nat.max 1 (BatchSize cfg) in
  let r := InsertData (Some c) cfg tableName columns data in
  (∀ i batch, ir_stored r !! i = Some batch →
     0 < length batch ≤ b ∧ (S i < length (ir_stored r) → length batch = b))
  ∧ ir_events r `sublist_of` processing "Inserted" <$> multiples (Z.of_nat b) (ir_count r).
Proof.
  cbv zeta. unfold InsertData.
  destruct (insert_rows _ _ _ _ _) as [st err] eqn:Hrun.
  apply insert_rows_batches in Hrun as (Hst & Hb & Hb' & Hn & Hev);
    cbn [i_stored i_batch i_totalRows i_events length];
    [| done | lia | done | by rewrite multiples_zero].
  assert (∀ i batch, i_stored st !! i = Some batch → 0 < length batch ≤ Nat.max 1 (BatchSize cfg)
                                                      ∧ length batch = Nat.max 1 (BatchSize cfg))
    as Hfull.
  { intros i batch Hi. rewrite Forall_lookup in Hst. rewrite (Hst i batch Hi). lia. }
  assert (∀ i batch, i_stored st !! i = Some batch →
            0 < length batch ≤ Nat.max 1 (BatchSize cfg)
            ∧ (S i < length (i_stored st) → length batch = Nat.max 1 (BatchSize cfg)))
    as Hstored.
  { intros i batch Hi. by destruct (Hfull i batch Hi). }
  destruct err as [e|]; cbn [ir_stored ir_events ir_count]; [done|].
  specialize (Hb eq_refl).
  destruct (0 <? length (i_batch st)) eqn:Hlen; cbn [ir_stored ir_events ir_count]; [|done].
  apply Nat.ltb_lt in Hlen.
  destruct (AsyncInsert c (i_stored st) _ (i_batch st)); cbn [ir_stored ir_events ir_count];
    [done|].
  split.
  - intros i batch Hi. rewrite length_app. cbn [length].
    apply lookup_app_Some in Hi as [Hi|[Hge Hi]].
    + destruct (Hfull i batch Hi) as [? ?]. done.
    + apply list_lookup_singleton_Some in Hi as [Hi <-]. split; lia.
  - rewrite Hn, multiples_add_less by lia. by rewrite <- Hn.
Qed.
End batches.

(** X17: whatever the store answers, every batch [InsertData] has
    submitted with success holds at most the batch size in rows and at
    least one, and every batch but the last holds exactly the batch size,
    a size of zero counting as one; if no batch is refused, the batches
    joined are the rows received, in order, and their number is the count
    returned. *)
Theorem X17_InsertData_fills_batches
    {V : Type} (c : ClickHouse.Conn V) (cfg : Config) (tableName : string)
    (columns : list Column) (data : list (list FlatFile.value)) :
  let b := Nat.max 1 (BatchSize cfg) in
  let r := ClickHouse.InsertData (Some c) cfg tableName columns data in
  (∀ i batch, ClickHouse.ir_stored r !! i = Some batch →
     0 < length batch ≤ b ∧ (S i < length (ClickHouse.ir_stored r) → length batch = b))
  ∧ ((∀ stored query batch, ClickHouse.AsyncInsert c stored query batch = None) →
     ClickHouse.ir_err r = None
     ∧ concat (ClickHouse.ir_stored r) = data
     ∧ ClickHouse.ir_count r = Z.of_nat (length data)).
Proof.
  cbv zeta. split; [apply InsertData_batches|].
  intros Haccept.
  destruct (InsertData_spec c cfg tableName columns data) as (Hcount & _ & _ & Hall & Hfail).
  assert (ClickHouse.ir_err (ClickHouse.InsertData (Some c) cfg tableName columns data) = None)
    as Herr.
  { destruct (ClickHouse.ir_err _) eqn:Herr; [|done].
    destruct Hfail as (query & batch & e' & Hins & _); [done|]. by rewrite Haccept in Hins. }
  split_and!; [done | by apply Hall | by rewrite Hcount, Hall].
Qed.

(** X18: the [processing] updates of [InsertData] come in the order of
    their counts, each count is a number of whole batches, and none is
    above the count returned: the updates are some of those a report at
    every batch would send. *)
Theorem X18_InsertData_reports_whole_batches
    {V : Type} (conn : option (ClickHouse.Conn V)) (cfg : Config) (tableName : string)
    (columns : list Column) (data : list (list FlatFile.value)) :
  let r := ClickHouse.InsertData conn cfg tableName columns data in
  ClickHouse.ir_events r
  `sublist_of` processing "Inserted"
                 <$> multiples (Z.of_nat (Nat.max 1 (BatchSize cfg))) (ClickHouse.ir_count r).
Proof.
  cbv zeta. destruct conn as [c|]; [apply InsertData_batches|]. apply sublist_nil_l.
Qed.

(** ** Transfers from end to end *)

Section end_to_end.
Import ClickHouse Ingest Handler.
Context {V : Type}.

Lemma fetch_rows_no_scan (columnNames : list string) (p : Z) (rows : list (scan_outcome V)) :
  scanned rows = [] →
  ∀ totalRows acc, fetch_rows columnNames p rows totalRows acc = (acc, totalRows).
Proof.
  induction rows as [|[rowValues|e] rows IH]; intros Hnone totalRows acc; [done | done |].
  cbn [fetch_rows]. by apply IH.
Qed.

Lemma fetch_rows_zero (columnNames : list string) (rows : list (scan_outcome V)) :
  scanned rows ≠ [] →
  ∀ totalRows acc,
    fetch_rows columnNames 0 rows totalRows acc
    = (MkFetch (f_events acc) (f_sent acc ++ (row_map columnNames <$> take 1 (scanned rows)))
         true, (totalRows + 1)%Z).
Proof.
  induction rows as [|[rowValues|e] rows IH]; intros Hsome totalRows acc; [done | done |].
  cbn [fetch_rows]. by apply IH.
Qed.

(** A fetch that does not panic has sent the rows whose scan succeeded;
    its updates are [processing] updates, followed by a completed one if
    the iteration failed. *)
Lemma fetch_not_panicked (columnNames : list string) (rows : list (scan_outcome V))
    (rowsErr : option string) (p : Z) :
  f_panic (fetch (QueryRows columnNames rows rowsErr) p) = false →
  ∃ events,
    Forall (λ u, Completed u = false) events
    ∧ fetch (QueryRows columnNames rows rowsErr) p
      = MkFetch
          (events ++ match rowsErr with
                     | Some e =>
                         [MkProgress "error" ("Error iterating rows: " +:+ e)
                            (Z.of_nat (length (scanned rows))) true]
                     | None => []
                     end)
          (row_map columnNames <$> scanned rows) false.
Proof.
  unfold fetch. destruct (decide (p = 0%Z)) as [->|Hp].
  - destruct (decide (scanned rows = [])) as [Hnone|Hsome].
    + rewrite fetch_rows_no_scan by done. cbn [f_panic]. intros _. exists [].
      split; [done|]. rewrite Hnone. by destruct rowsErr.
    + by rewrite fetch_rows_zero.
  - intros _. rewrite (fetch_rows_spec columnNames p rows Hp 0 [] [])
      by (done || by rewrite multiples_zero).
    cbn [f_panic f_events f_sent app]. rewrite Z.add_0_l.
    exists (processing "Fetched" <$> multiples (Z.abs p) (Z.of_nat (length (scanned rows)))).
    split; [by apply Forall_fmap, Forall_forall|].
    destruct rowsErr; [done | by rewrite app_nil_r].
Qed.

Lemma completed_count_final (res : result Z) : completed_count [final_update res] = 1.
Proof. by destruct res. Qed.
End end_to_end.

(** X19: a file-to-store transfer whose table is created, whose file is
    read and none of whose batches is refused returns the number of rows
    read from the file; the store holds these rows, in order, and the
    stream ends with a [success] update that carries their number. *)
Theorem X19_file_to_store_transfers_every_row
    {V : Type} (c : ClickHouse.Conn V) (cfg : Config) (fs : gmap string string)
    (params : Ingest.FlatFileParams) (tableName : string) (columns : list Column)
    (data : list (list FlatFile.value)) :
  ClickHouse.CreateTable (Some c) tableName columns = None →
  FlatFile.ReadData fs (Ingest.FilePath params) (Ingest.Delimiter params) columns = Ok data →
  (∀ stored query batch, ClickHouse.AsyncInsert c stored query batch = None) →
  let t := Ingest.IngestFlatFileToClickHouse (Some c) cfg fs params tableName columns in
  Ingest.fs_result t = Ok (Z.of_nat (length data))
  ∧ concat (Ingest.fs_stored t) = data
  ∧ last (Handler.file_to_store_stream (Some c) cfg fs params tableName columns)
    = Some (MkProgress "success" "Ingestion completed successfully" (Z.of_nat (length data))
              true).
Proof.
  intros Hcreate Hread Haccept. cbv zeta.
  destruct (InsertData_spec c cfg tableName columns data) as (Hcount & _ & _ & Hall & Hfail).
  assert (ClickHouse.ir_err (ClickHouse.InsertData (Some c) cfg tableName columns data) = None)
    as Herr.
  { destruct (ClickHouse.ir_err _) eqn:Herr; [|done].
    destruct Hfail as (query & batch & e' & Hins & _); [done|]. by rewrite Haccept in Hins. }
  unfold Handler.file_to_store_stream, Ingest.IngestFlatFileToClickHouse.
  rewrite Hcreate, Hread. cbn [Ingest.fs_result Ingest.fs_stored Ingest.fs_events].
  rewrite Herr, Hcount, (Hall Herr), last_snoc. done.
Qed.

Lemma X19_witness :
  let c := ClickHouse.MkConn (λ _, ClickHouse.QueryFailed "unused") (λ _, None)
             (λ _ _ _, None) : ClickHouse.Conn string in
  let data := [[FlatFile.VInt64 1]; [FlatFile.VInt64 2]; [FlatFile.VInt64 3];
               [FlatFile.VInt64 4]] in
  let t := Ingest.IngestFlatFileToClickHouse (Some c) Sample.cfg Sample.fs Sample.params "t"
             Sample.columns in
  Ingest.fs_result t = Ok (Z.of_nat (length data))
  ∧ concat (Ingest.fs_stored t) = data
  ∧ last (Handler.file_to_store_stream (Some c) Sample.cfg Sample.fs Sample.params "t"
            Sample.columns)
    = Some (MkProgress "success" "Ingestion completed successfully" (Z.of_nat (length data))
              true).
Proof.
  apply (X19_file_to_store_transfers_every_row
           (ClickHouse.MkConn (λ _, ClickHouse.QueryFailed "unused") (λ _, None)
              (λ _ _ _, None) : ClickHouse.Conn string)
           Sample.cfg Sample.fs Sample.params "t" Sample.columns
           [[FlatFile.VInt64 1]; [FlatFile.VInt64 2]; [FlatFile.VInt64 3]; [FlatFile.VInt64 4]]).
  - reflexivity.
  - by vm_compute.
  - done.
Defined.

(** X20: the stream of a file-to-store transfer holds exactly one update
    with [completed] set, and it is the last one: a [success] update, or
    an [error] update with count zero. *)
Theorem X20_file_to_store_stream_completes_once
    {V : Type} (conn : option (ClickHouse.Conn V)) (cfg : Config) (fs : gmap string string)
    (params : Ingest.FlatFileParams) (tableName : string) (columns : list Column) :
  let stream := Handler.file_to_store_stream conn cfg fs params tableName columns in
  completed_count stream = 1
  ∧ ∃ final,
      last stream = Some final
      ∧ Completed final = true
      ∧ (Status final = "success" ∨ (Status final = "error" ∧ Count final = 0%Z)).
Proof.
  cbv zeta. unfold Handler.file_to_store_stream.
  rewrite completed_count_app, completed_count_final, last_snoc.
  split.
  - rewrite completed_count_none; [done|].
    unfold Ingest.IngestFlatFileToClickHouse.
    destruct (ClickHouse.CreateTable _ _ _); [done|].
    destruct (FlatFile.ReadData _ _ _ _); [|done].
    apply InsertData_events_not_completed.
  - eexists. split; [done|].
    destruct (Ingest.fs_result _); cbn; [by split; [|left] | by split; [|right]].
Qed.

(** X21: in a store-to-file transfer whose file is created, whose
    delimiter the writer accepts, whose query is accepted and whose
    goroutine does not panic (the report size is not zero, or no row is
    scanned), the stream ends with a [success] update whose count is the
    number of rows whose scan succeeded; it is the only completed update
    when the row iteration succeeds, and the second of two when it
    fails. *)
Theorem X21_store_to_file_stream_ends_with_success
    {V : Type} (Sprintf_v : V → string) (c : ClickHouse.Conn V) (cfg : Config)
    (fs : gmap string string) (tableName : string) (columns : list Column)
    (params : Ingest.FlatFileParams) (query : string)
    (columnNames : list string) (rows : list (ClickHouse.scan_outcome V))
    (rowsErr : option string) (stream : list ProgressUpdate) :
  ClickHouse.Query c
    (if bool_decide (query = "")
     then "SELECT " +:+ Join (Name <$> columns) ", " +:+ " FROM " +:+ tableName
     else query)
  = ClickHouse.QueryRows columnNames rows rowsErr →
  Csv.validDelim (FlatFile.delim_of (Ingest.Delimiter params)) = true →
  ProgressReportSize cfg ≠ 0%Z ∨ scanned rows = [] →
  Handler.store_to_file_stream Sprintf_v c cfg FlatFile.Created fs tableName columns params
    query stream →
  last stream
  = Some (MkProgress "success" "Ingestion completed successfully"
            (Z.of_nat (length (scanned rows))) true)
  ∧ completed_count stream = match rowsErr with Some _ => 2 | None => 1 end.
Proof.
  intros Hquery Hvalid Hsize Hs.
  assert (Ingest.f_panic
            (Ingest.fetch (ClickHouse.QueryRows columnNames rows rowsErr)
               (ProgressReportSize cfg)) = false) as Hpanic.
  { destruct Hsize as [Hp|Hnone]; [by apply fetch_no_panic|].
    unfold Ingest.fetch. rewrite fetch_rows_no_scan by done. by destruct rowsErr. }
  unfold Handler.store_to_file_stream, Handler.receives, Ingest.IngestClickHouseToFlatFile in Hs.
  cbv zeta in Hs. cbn [Ingest.sf_fetch Ingest.sf_write Ingest.sf_result] in Hs.
  rewrite Hvalid, Hquery, Hpanic in Hs.
  destruct Hs as (whole & (m & Hm & ->) & ->).
  destruct (fetch_not_panicked _ _ _ _ Hpanic) as (events & Hev & Hfetch).
  rewrite Hfetch in Hm |- *. cbn [Ingest.f_sent Ingest.f_events] in Hm |- *.
  rewrite (WriteData_valid Sprintf_v) in Hm |- * by done.
  cbn [FlatFile.wr_err FlatFile.wr_count FlatFile.wr_events] in Hm |- *.
  rewrite last_snoc, length_fmap. split; [done|].
  rewrite completed_count_app, (interleave_completed_count _ _ _ Hm), completed_count_app.
  rewrite (completed_count_none events) by done.
  rewrite (completed_count_none (processing "Written" <$> _))
    by (apply Forall_fmap, Forall_forall; done).
  by destruct rowsErr.
Qed.

Lemma X21_witness :
  let c := ClickHouse.MkConn
             (λ _, ClickHouse.QueryRows ["a"] [ClickHouse.ScanOk ["1"]] (Some "connection lost"))
             (λ _, None) (λ _ _ _, None) in
  let stream :=
    [ MkProgress "error" ("Error iterating rows: " +:+ "connection lost") 1 true;
      MkProgress "success" "Ingestion completed successfully" 1 true ] in
  last stream
  = Some (MkProgress "success" "Ingestion completed successfully"
            (Z.of_nat (length (scanned [ClickHouse.ScanOk ["1"]]))) true)
  ∧ completed_count stream = 2.
Proof.
  apply (X21_store_to_file_stream_ends_with_success (λ v : string, v)
           (ClickHouse.MkConn
              (λ _, ClickHouse.QueryRows ["a"] [ClickHouse.ScanOk ["1"]] (Some "connection lost"))
              (λ _, None) (λ _ _ _, None))
           Sample.cfg ∅ "t" Sample.columns Sample.out_params "" ["a"]
           [ClickHouse.ScanOk ["1"]] (Some "connection lost")).
  - reflexivity.
  - reflexivity.
  - left. done.
  - eexists. split; [|reflexivity].
    eexists [_]. split; [|reflexivity]. apply Handler.interleave_l, Handler.interleave_nil.
Defined.

(** ** Every request has its streams *)

Section requests.
Import ClickHouse Ingest Handler.
Context {V : Type} (Sprintf_v : V → string).

Lemma interleave_app {A : Type} (l r : list A) : interleave l r (l ++ r).
Proof.
  induction l as [|a l IH]; cbn.
  - induction r as [|b r IH]; by constructor.
  - by constructor.
Qed.

Lemma cut_short_whole (panic : bool) (whole : list ProgressUpdate) :
  cut_short panic whole whole.
Proof. unfold cut_short. by destruct panic. Qed.

(** Whatever the request, the connection and the fate of the target
    file, [StartIngestion] has a stream. *)
Lemma StartIngestion_has_stream (conn : option (Conn V)) (cfg : Config)
    (create : FlatFile.create_outcome) (fs : gmap string string)
    (params : IngestionParams.t) :
  ∃ stream, StartIngestion Sprintf_v conn cfg create fs params stream.
Proof.
  unfold StartIngestion.
  destruct (bool_decide _ && bool_decide _).
  { destruct conn as [c|].
    - unfold store_to_file_stream. cbv zeta.
      destruct (receives create _).
      + do 2 eexists. split; [|apply cut_short_whole].
        eexists. split; [apply interleave_app | reflexivity].
      + do 2 eexists. split; [|apply cut_short_whole].
        exists [], []. split; [apply prefix_nil | reflexivity].
    - unfold no_connection_stream. cbv zeta. by eexists. }
  destruct (bool_decide _ && bool_decide _); by eexists.
Qed.

End requests.

(** Without a connection a store-to-file request gets the final update
    alone, or nothing at all. *)
Example no_connection_streams (stream : list ProgressUpdate) :
  Handler.StartIngestion (λ v : string, v) None Sample.cfg FlatFile.Created ∅
    (Handler.IngestionParams.Mk "clickhouse" "flatfile" "t" Sample.out_params Sample.columns "")
    stream
  ↔ stream = []
    ∨ stream = [MkProgress "success" "Ingestion completed successfully" 0 true].
Proof.
  change (stream `prefix_of` [MkProgress "success" "Ingestion completed successfully" 0 true]
          ↔ stream = []
            ∨ stream = [MkProgress "success" "Ingestion completed successfully" 0 true]).
  split.
  - intros [rest Hrest]. destruct stream as [|u [|u' stream]]; [by left | | done].
    right. by injection Hrest as <- _.
  - intros [-> | ->]; [apply prefix_nil | done].
Qed.

(** When the writer refuses the delimiter, [WriteData] returns before the
    goroutine has reported the failure of its query; the handler's final
    update can then come first, and the goroutine's update, sent before
    the channel is closed, after it: the final update is not the last
    one. *)
Example refused_delimiter_final_not_last :
  let refused := Ingest.MkFlatFileParams "out.csv" (String Csv.QUOTE "") in
  let final :=
    MkProgress "error" "failed to write header: csv: invalid field or comment delimiter" 0 true in
  let failed := MkProgress "error" ("Failed to execute query: " +:+ "connection refused") 0 true in
  Handler.StartIngestion (λ v : string, v) (Some Sample.conn) Sample.cfg FlatFile.Created ∅
    (Handler.IngestionParams.Mk "clickhouse" "flatfile" "t" refused Sample.columns "")
    [final; failed]
  ∧ last [final; failed] = Some failed.
Proof.
  cbv zeta. split; [|done].
  exists [MkProgress "error"
            "failed to write header: csv: invalid field or comment delimiter" 0 true;
          MkProgress "error" ("Failed to execute query: " +:+ "connection refused") 0 true].
  split; [|reflexivity].
  exists [], [MkProgress "error" ("Failed to execute query: " +:+ "connection refused") 0 true].
  split; reflexivity.
Qed.



(** ** The data channel *)

Section channel_runs.
Import Pipeline.
Context {A : Type}.


(** The producer and the consumer can take turns until every row is
    through. *)
Lemma run_to_end (rows : list A) :
  ∀ rcv, rtc step (MkState rows [] false rcv false false)
             (MkState [] [] false (rcv ++ rows) false false).
Proof.
  induction rows as [|row rows IH]; intros rcv.
  - rewrite app_nil_r. apply rtc_refl.
  - eapply rtc_l; [apply (step_send row rows [] rcv false false); cbn; unfold capacity; lia|].
    eapply rtc_l; [apply (step_receive row rows [] false rcv false)|].
    replace (rcv ++ row :: rows) with ((rcv ++ [row]) ++ rows) by (by rewrite <- (assoc_L (++))).
    apply IH.
Qed.
End channel_runs.



(** X24: every transfer can run to its end without cancellation: for
    any rows there is a run after which the producer has closed the
    channel and the consumer has received all of them and returned. *)
Theorem X24_channel_can_deliver_every_row {A : Type} (rows : list A) :
  ∃ s, Pipeline.reachable rows s
       ∧ Pipeline.received s = rows
       ∧ Pipeline.closed s = true
       ∧ Pipeline.consumer_done s = true
       ∧ Pipeline.cancelled s = false.
Proof.
  exists (Pipeline.MkState [] [] true rows true false). split; [|done].
  unfold Pipeline.reachable, Pipeline.init.
  etrans; [apply (run_to_end rows [])|]. cbn [app].
  eapply rtc_l; [apply Pipeline.step_producer_end|].
  eapply rtc_l; [apply Pipeline.step_consumer_end|].
  apply rtc_refl.
Qed.



(** ** Reading from the store *)

Section store_reads.
Import ClickHouse.
Context {V : Type}.

(** The row loop of the two previews on rows whose scan succeeds, then
    what follows them. *)
Lemma preview_rows_ok (columnNames : list string) (vs : list (list V))
    (stop : option (string * list (scan_outcome V))) :
  ∀ acc,
    preview_rows columnNames ((ScanOk <$> vs) ++ rows_end stop) acc
    = match stop with
      | Some (e, _) => Err ("failed to scan row: " +:+ e)
      | None => Ok (acc ++ (row_map columnNames <$> vs))
      end.
Proof.
  induction vs as [|v vs IH]; intros acc.
  - destruct stop as [[e rest]|]; cbn; [done | by rewrite app_nil_r].
  - cbn [fmap list_fmap app preview_rows]. rewrite IH.
    destruct stop as [[e rest]|]; [done|]. by rewrite <- (assoc_L (++)).
Qed.
End store_reads.

(** X26: the preview of a table is the join preview of the [SELECT] over
    it: the columns asked for, or [*] when none is, from the table. *)
Theorem X26_PreviewData_is_preview_of_select
    {V : Type} (conn : option (ClickHouse.Conn V)) (tableName : string)
    (columns : list string) (limit : nat) :
  ClickHouse.PreviewData conn tableName columns limit
  = ClickHouse.ExecuteJoinPreview conn
      ("SELECT " +:+ (if 0 <? length columns then Join columns ", " else "*")
         +:+ " FROM " +:+ tableName) limit.
Proof.
  unfold ClickHouse.PreviewData, ClickHouse.ExecuteJoinPreview.
  destruct conn as [c|]; [|done]. cbv zeta.
  by rewrite !string_app_assoc.
Qed.

(** X27: a join preview sends the query with [ LIMIT n] appended and
    returns one map for each row of the answer, however many the store
    sends; one row whose scan fails, or a failed iteration, and it
    returns the error alone, without the rows scanned before. *)
Theorem X27_ExecuteJoinPreview_all_rows_or_error
    {V : Type} (c : ClickHouse.Conn V) (query : string) (limit : nat)
    (columnNames : list string) (vs : list (list V))
    (stop : option (string * list (ClickHouse.scan_outcome V))) (rowsErr : option string) :
  ClickHouse.Query c (query +:+ " LIMIT " +:+ FlatFile.itoa (Z.of_nat limit))
  = ClickHouse.QueryRows columnNames ((ClickHouse.ScanOk <$> vs) ++ rows_end stop) rowsErr →
  ClickHouse.ExecuteJoinPreview (Some c) query limit
  = match stop, rowsErr with
    | Some (e, _), _ => Err ("failed to scan row: " +:+ e)
    | None, Some e => Err ("error iterating rows: " +:+ e)
    | None, None => Ok (ClickHouse.row_map columnNames <$> vs)
    end.
Proof.
  intros Hquery. unfold ClickHouse.ExecuteJoinPreview. cbv zeta.
  rewrite Hquery, preview_rows_ok. by destruct stop as [[e rest]|], rowsErr.
Qed.

Lemma X27_witness :
  let c := ClickHouse.MkConn
             (λ _, ClickHouse.QueryRows ["a"]
                     ((ClickHouse.ScanOk <$> [["1"]; ["2"]; ["3"]]) ++ rows_end None) None)
             (λ _, None) (λ _ _ _, None) in
  ClickHouse.ExecuteJoinPreview (Some c) "SELECT a FROM t" 2
  = Ok (ClickHouse.row_map ["a"] <$> [["1"]; ["2"]; ["3"]]).
Proof.
  apply (X27_ExecuteJoinPreview_all_rows_or_error
           (ClickHouse.MkConn
              (λ _, ClickHouse.QueryRows ["a"]
                      ((ClickHouse.ScanOk <$> [["1"]; ["2"]; ["3"]]) ++ rows_end None) None)
              (λ _, None) (λ _ _ _, None))
           "SELECT a FROM t" 2 ["a"] [["1"]; ["2"]; ["3"]] None None).
  reflexivity.
Defined.

(** X28: with a report size other than zero, [ExecuteQuery] counts the
    rows up to the first whose scan fails, reports at every multiple of
    the report size, taken without its sign, and returns the count
    reached together with the error, if there is one. *)
Theorem X28_ExecuteQuery_counts_until_first_failure
    {V : Type} (c : ClickHouse.Conn V) (cfg : Config) (query : string)
    (columnNames : list string) (vs : list (list V))
    (stop : option (string * list (ClickHouse.scan_outcome V))) (rowsErr : option string) :
  ProgressReportSize cfg ≠ 0%Z →
  ClickHouse.Query c query
  = ClickHouse.QueryRows columnNames ((ClickHouse.ScanOk <$> vs) ++ rows_end stop) rowsErr →
  ClickHouse.ExecuteQuery (Some c) cfg query
  = ClickHouse.MkQueryResult
      (processing "Processed"
         <$> multiples (Z.abs (ProgressReportSize cfg)) (Z.of_nat (length vs)))
      (Z.of_nat (length vs))
      match stop, rowsErr with
      | Some (e, _), _ => Some ("failed to scan row: " +:+ e)
      | None, Some e => Some ("error iterating rows: " +:+ e)
      | None, None => None
      end false.
Proof.
  intros Hp Hquery. unfold ClickHouse.ExecuteQuery. rewrite Hquery.
  rewrite (count_rows_spec (ProgressReportSize cfg) rowsErr vs (rows_end stop) Hp 0 [])
    by (done || by rewrite multiples_zero).
  rewrite Z.add_0_l. by destruct stop as [[e rest]|], rowsErr.
Qed.

Lemma X28_witness :
  let c := ClickHouse.MkConn
             (λ _, ClickHouse.QueryRows ["a"]
                     ((ClickHouse.ScanOk <$> [["1"]; ["2"]; ["3"]])
                        ++ rows_end (Some ("bad value", [ClickHouse.ScanOk ["5"]]))) None)
             (λ _, None) (λ _ _ _, None) in
  ClickHouse.ExecuteQuery (Some c) (MkConfig 2 2) "SELECT a FROM t"
  = ClickHouse.MkQueryResult
      (processing "Processed" <$> multiples (Z.abs 2) (Z.of_nat 3)) (Z.of_nat 3)
      (Some ("failed to scan row: " +:+ "bad value")) false.
Proof.
  apply (X28_ExecuteQuery_counts_until_first_failure
           (ClickHouse.MkConn
              (λ _, ClickHouse.QueryRows ["a"]
                      ((ClickHouse.ScanOk <$> [["1"]; ["2"]; ["3"]])
                         ++ rows_end (Some ("bad value", [ClickHouse.ScanOk ["5"]]))) None)
              (λ _, None) (λ _ _ _, None))
           (MkConfig 2 2) "SELECT a FROM t" ["a"] [["1"]; ["2"]; ["3"]]
           (Some ("bad value", [ClickHouse.ScanOk ["5"]])) None).
  - done.
  - reflexivity.
Defined.

(** ** The frames of the progress stream *)

Section frames.
Import Strconv Utf8 Csv Json.

Lemma control_false (b : ascii) : (32 ≤ code b)%Z → control b = false.
Proof. intros Hb. unfold control. apply Z.ltb_ge. lia. Qed.

Lemma cont_printable (b : ascii) : cont b = true → control b = false.
Proof.
  unfold cont, between. intros [Hlo _]%andb_true_iff. apply Z.leb_le in Hlo.
  apply control_false. lia.
Qed.

Lemma between_printable (lo hi : Z) (b : ascii) :
  (32 ≤ lo)%Z → between lo (code b) hi = true → control b = false.
Proof.
  unfold between. intros Hlo [Hb _]%andb_true_iff. apply Z.leb_le in Hb.
  apply control_false. lia.
Qed.

Lemma hex_printable (n : Z) : control (hex n) = false.
Proof.
  unfold hex. generalize (Z.to_nat n). intros k.
  do 17 (destruct k as [|k]; [reflexivity|]). reflexivity.
Qed.

Lemma escape_printable (b : ascii) : any_byte control (escape b) = false.
Proof.
  unfold escape. cbv zeta. cbn [any_byte]. case_bool_decide as Hb.
  - cbn [any_byte]. rewrite (control_false b); [done|].
    apply elem_of_cons in Hb as [->|[->|?%elem_of_nil]%elem_of_cons]; [lia | lia | done].
  - repeat (match goal with |- context [if ?t then _ else _] => destruct t end; [done|]).
    cbn [any_byte]. by rewrite !hex_printable.
Qed.

(** The bytes of a well-formed character that is not ASCII are all
    above the ASCII range. *)
Lemma decoded_printable (b : ascii) (src : string) (c : Z) (size : nat) :
  (code b <? 128)%Z = false →
  DecodeRuneInString (String b src) = (c, size) →
  any_byte control (str_take size (String b src)) = false.
Proof.
  intros Hb Hdec.
  assert (control b = false) as Hcb by (apply Z.ltb_ge in Hb; apply control_false; lia).
  unfold DecodeRuneInString in Hdec. rewrite Hb in Hdec.
  repeat match type of Hdec with
         | context [if ?t then _ else _] => destruct t eqn:?
         | context [match ?x with EmptyString => _ | String _ _ => _ end] => destruct x
         end;
    injection Hdec as <- <-; cbn [str_take any_byte]; rewrite Hcb;
    repeat match goal with
           | H : _ && _ = true |- _ => apply andb_true_iff in H as [? ?]
           end;
    repeat match goal with
           | H : cont ?x = true |- _ => rewrite (cont_printable x H); clear H
           | H : between ?lo (code ?x) ?hi = true |- _ =>
               rewrite (between_printable lo hi x ltac:(lia) H); clear H
           end;
    reflexivity.
Qed.

Lemma appendString_loop_printable (fuel : nat) :
  ∀ src, any_byte control (appendString_loop fuel src) = false.
Proof.
  induction fuel as [|fuel IH]; intros [|b src]; cbn [appendString_loop]; try done.
  destruct (code b <? 128)%Z eqn:Hb.
  - destruct (htmlSafe b) eqn:Hsafe.
    + cbn [any_byte]. rewrite IH, orb_false_r.
      unfold htmlSafe in Hsafe.
      apply andb_true_iff in Hsafe as [[Hlo%Z.leb_le _]%andb_true_iff _].
      by apply control_false.
    + by rewrite any_byte_app, escape_printable, IH.
  - destruct (DecodeRuneInString (String b src)) as [c size] eqn:Hdec.
    destruct ((c =? RuneError)%Z && (size =? 1)).
    { by rewrite any_byte_app, IH. }
    destruct ((c =? 8232)%Z || (c =? 8233)%Z).
    { rewrite !any_byte_app, IH. cbn [any_byte]. by rewrite hex_printable. }
    by rewrite any_byte_app, IH, (decoded_printable _ _ _ _ Hb Hdec).
Qed.

Lemma appendString_printable (src : string) : any_byte control (appendString src) = false.
Proof.
  unfold appendString. cbn [any_byte].
  by rewrite any_byte_app, appendString_loop_printable.
Qed.

Lemma key_printable (name : string) :
  any_byte control name = false → any_byte control (key name) = false.
Proof. intros Hname. unfold key. cbn [any_byte]. by rewrite any_byte_app, Hname. Qed.

Lemma string_of_uint_printable (d : Decimal.uint) :
  any_byte control (NilEmpty.string_of_uint d) = false.
Proof. induction d; cbn [NilEmpty.string_of_uint any_byte]; by rewrite ?IHd. Qed.

Lemma itoa_printable (n : Z) : any_byte control (FlatFile.itoa n) = false.
Proof.
  unfold FlatFile.itoa, NilZero.string_of_int, NilZero.string_of_uint.
  destruct (Z.to_int n) as [d|d]; [|cbn [any_byte]];
    destruct d; cbn [any_byte NilEmpty.string_of_uint];
    by rewrite ?string_of_uint_printable.
Qed.
End frames.

(** X29: the JSON text of a progress update holds no control character,
    whatever bytes its status and its message hold; the frame written for
    it is therefore a single [data:] line followed by the two line feeds
    that end the event. *)
Theorem X29_progress_frame_is_one_line (p : ProgressUpdate) :
  Csv.any_byte control (ToJSON p) = false
  ∧ ∃ line, sse_frame p = line +:+ String Csv.LF (String Csv.LF "")
            ∧ Csv.any_byte control line = false.
Proof.
  assert (Csv.any_byte control (ToJSON p) = false) as Hjson.
  { unfold ToJSON.
    rewrite !any_byte_app, !appendString_printable, itoa_printable, !key_printable by done.
    by destruct (Completed p). }
  split; [done|]. exists ("data: " +:+ ToJSON p). split.
  - unfold sse_frame. by rewrite string_app_assoc.
  - by rewrite any_byte_app, Hjson.
Qed.

(** ** A written file, discovered *)

(** X30: a schema discovered from a file that [WriteData] wrote, under
    the conditions of the round trip, names its columns as the columns
    written, in their order. *)
Theorem X30_written_header_is_discovered
    {V : Type} (Sprintf_v : V → string) (order : nat → list (string * nat))
    (fs : gmap string string) (filePath delimiter : string) (columns : list Column)
    (progressReportSize : Z) (rows : list (gmap string V)) :
  roundtrip_delim (FlatFile.delim_of delimiter) →
  roundtrip_record (Name <$> columns) →
  Forall (λ row, roundtrip_record (FlatFile.record_of Sprintf_v columns row)) rows →
  let w := FlatFile.WriteData Sprintf_v FlatFile.Created fs filePath delimiter columns
             progressReportSize rows in
  ∃ discovered,
    FlatFile.DiscoverSchema order (FlatFile.wr_fs w) filePath delimiter = Ok discovered
    ∧ Name <$> discovered = Name <$> columns.
Proof.
  intros [Hvalid Hspace] Hheader Hrows. cbv zeta.
  rewrite (WriteData_valid Sprintf_v) by done.
  cbn [FlatFile.wr_fs]. unfold FlatFile.DiscoverSchema, FlatFile.os_Open.
  rewrite lookup_insert_eq. unfold Csv.NewReader, written_file.
  assert (roundtrip_fields (FlatFile.delim_of delimiter) (Name <$> columns)) as Hfields.
  { split; [done|]. by rewrite Hspace. }
  rewrite (Read_written _ Hvalid)
    by (done || by apply no_crlf_written_records, Forall_fmap).
  cbn [Nat.eqb]. eexists. split; [reflexivity|].
  rewrite fmap_imap. unfold compose. cbn [Name].
  by rewrite imap_fmap_const, list_fmap_id.
Qed.

Lemma X30_witness :
  let w := FlatFile.WriteData (λ v : string, v) FlatFile.Created ∅ "out.csv" ","
             Sample.two_columns 5000 Sample.two_rows in
  ∃ discovered,
    FlatFile.DiscoverSchema (λ _, []) (FlatFile.wr_fs w) "out.csv" "," = Ok discovered
    ∧ Name <$> discovered = Name <$> Sample.two_columns.
Proof.
  apply (X30_written_header_is_discovered (λ v : string, v) (λ _, []) ∅ "out.csv" ","
           Sample.two_columns 5000 Sample.two_rows).
  - split; reflexivity.
  - split; [done|]. split; [done|]. by repeat constructor.
  - repeat constructor; try done; by vm_compute.
Defined.
